(** * PLASMA tile-scheduling core: drivers, status tracking and layout walks

    A shallow embedding of the compute-layer drivers of the repository
    ([compute/pdtradd.c], [compute/pzunmqrrh.c], [compute/pdtr2desc_blasfeo.c],
    [compute/pddesc2tr_blasfeo.c], [compute/zsyrk.c]) and of the kernel
    wrapper [core_blas/core_dpotrf_blasfeo.c].
    The development goes on to [compute/scamax.c] and [compute/zgelqs.c],
    and to the arrays the tests prepare ([test/test_clangb.c],
    [test/test_spoinv.c], [test/test_ssysv.c], [test/test_cgetri.c]).

    Conventions.
    - A C [int] is a [Z]; loop counters stay below their bounds, and the
      remaining arithmetic is the mathematical one wherever C leaves signed
      overflow undefined.  C's [/] and [%] are [Z.quot] and [Z.rem].
      The layout walks compute offsets from the caller's leading dimension;
      there the [int] results are written with the wrap-around of the
      32-bit machine word, [int32], and the [size_t] results with that of
      the 64-bit one, [size_t].
    - A driver does not run kernels: it enqueues tasks.  A driver is a
      function on a [driver_state], the status words together with the
      queue of kernel calls submitted so far, in submission order.
    - A pointer into tile storage or into a column-major buffer is the index
      of the element it points to. *)

From stdpp Require Import base gmap list.
From Stdlib Require Import ZArith Lia.

Open Scope Z_scope.

(** ** Declarations of [plasma_types.h]

    The header is not part of the sources at hand; its enumerators are taken
    as parameters.  Of the distinctness a C [enum] guarantees, the class
    keeps what the proofs use: the error code is not the success code, and
    the three kernel kinds differ. *)

Class plasma_types_h := {
  PlasmaSuccess : Z;
  PlasmaErrorNotInitialized : Z;
  PlasmaErrorIllegalValue : Z;
  PlasmaErrorSequence : Z;
  PlasmaNoTrans : Z;
  PlasmaTrans : Z;
  Plasma_ConjTrans : Z;
  PlasmaUpper : Z;
  PlasmaLower : Z;
  PlasmaGeneral : Z;
  PlasmaLeft : Z;
  PlasmaRight : Z;
  PlasmaGEKernel : Z;
  PlasmaTTKernel : Z;
  PlasmaTSKernel : Z;
  PlasmaComplexDouble : Z;
  IllegalValue_is_error : PlasmaErrorIllegalValue <> PlasmaSuccess;
  GE_ne_TT : PlasmaGEKernel <> PlasmaTTKernel;
  GE_ne_TS : PlasmaGEKernel <> PlasmaTSKernel;
  TT_ne_TS : PlasmaTTKernel <> PlasmaTSKernel
}.

(** One assignment of values, used wherever a statement is evaluated on
    concrete data. *)
Definition sample_types : plasma_types_h.
Proof.
  refine {| PlasmaSuccess := 0;
            PlasmaErrorNotInitialized := -101;
            PlasmaErrorIllegalValue := -103;
            PlasmaErrorSequence := -107;
            PlasmaNoTrans := 111;
            PlasmaTrans := 112;
            Plasma_ConjTrans := 113;
            PlasmaUpper := 121;
            PlasmaLower := 122;
            PlasmaGeneral := 123;
            PlasmaLeft := 141;
            PlasmaRight := 142;
            PlasmaGEKernel := 1;
            PlasmaTTKernel := 2;
            PlasmaTSKernel := 3;
            PlasmaComplexDouble := 4 |}; discriminate.
Defined.

(** Modelled from the spec: [imin] and [imax] of [plasma_internal.h], which
    is not part of the sources at hand; the spec's [min(mt,nt)].  The
    smaller and the larger of two ints. *)
Definition imin (a b : Z) : Z := if a <? b then a else b.
Definition imax (a b : Z) : Z := if a >? b then a else b.

(** What a 32-bit [int] holds when the mathematical result of an
    expression is [z]: the low 32 bits of [z], read as a signed number.
    Wrapping after every operation of a sum or product gives the same
    value as wrapping once at the end. *)
Definition int32 (z : Z) : Z :=
  (z + 2147483648) mod 4294967296 - 2147483648.

(** What a 64-bit [size_t] holds when the mathematical result of an
    expression is [z]. *)
Definition size_t (z : Z) : Z := z mod 18446744073709551616.

(** ** The tile descriptor, [plasma_desc_t]

    Only the fields the drivers read. *)
Module D.
Record plasma_desc_t := {
  type : Z;
  mb : Z; nb : Z;
  i : Z; j : Z;
  m : Z; n : Z;
  mt : Z; nt : Z
}.
End D.
Abbreviation plasma_desc_t := D.plasma_desc_t.

(** The inline accessors of [plasma_descriptor.h], which is not part of the
    sources at hand: tile address, viewed extents and main leading
    dimensions.  They are parameters of every driver. *)
Class plasma_descriptor_h := {
  plasma_tile_addr : plasma_desc_t -> Z -> Z -> Z;
  plasma_tile_mview : plasma_desc_t -> Z -> Z;
  plasma_tile_nview : plasma_desc_t -> Z -> Z;
  plasma_tile_mmain : plasma_desc_t -> Z -> Z;
  plasma_tile_nmain : plasma_desc_t -> Z -> Z
}.

(** ** C [for] loops *)

(** [for (int v = lo; v < hi; v++) body], the loop state threaded through.
    The bound is loop invariant in every driver, so [hi - lo] iterations
    exhaust the loop. *)
Fixpoint for_loop {S : Type} (fuel : nat) (v hi : Z)
    (body : Z -> S -> S) (s : S) : S :=
  match fuel with
  | O => s
  | Datatypes.S fuel' =>
      if v <? hi then for_loop fuel' (v + 1) hi body (body v s) else s
  end.

Definition for_range {S : Type} (lo hi : Z) (body : Z -> S -> S) (s : S) : S :=
  for_loop (Z.to_nat (hi - lo)) lo hi body s.

(** ** Sequence and request status *)

Module Async.
Section Async.
Context `{PT : plasma_types_h}.

(** One sequence and the requests that share it.  A request is named by
    its address. *)
Record async_t := {
  sequence_status : Z;
  request_status : gmap nat Z
}.

(** [plasma_sequence_init]. *)
Definition sequenceInit : async_t :=
  {| sequence_status := PlasmaSuccess; request_status := ∅ |}.

(** Modelled from the spec: [plasma_request_fail] of [control/async.c],
    which is not part of the sources at hand.  "Sets request.status =
    errorCode and atomically transitions sequence.status to errorCode if
    it is still success."  The call is atomic, so a concurrent run is an
    interleaving, a list of calls in some order. *)
Definition plasma_request_fail (request : nat) (errorCode : Z)
    (a : async_t) : async_t :=
  {| sequence_status :=
       if sequence_status a =? PlasmaSuccess then errorCode
       else sequence_status a;
     request_status := <[request := errorCode]> (request_status a) |}.

(** A collection of [requestFail] calls, run in the order of the list. *)
Definition requestFail_all (calls : list (nat * Z)) (a : async_t) : async_t :=
  foldl (fun acc c => plasma_request_fail (fst c) (snd c) acc) a calls.

End Async.
End Async.
Export Async.

(** ** Drivers as task submitters *)

(** The state a driver runs in: the status words, and the queue of kernel
    calls submitted so far (oldest first). *)
Record driver_state (call : Type) := {
  async : async_t;
  queue : list call
}.
Arguments async {call} _.
Arguments queue {call} _.

(** A kernel-dispatch call: the task is enqueued, nothing else changes. *)
Definition dispatch {call : Type} (c : call) (s : driver_state call)
    : driver_state call :=
  {| async := async s; queue := queue s ++ [c] |}.

(** A driver calling [plasma_request_fail]. *)
Definition request_fail `{PT : plasma_types_h} {call : Type}
    (request : nat) (errorCode : Z) (s : driver_state call)
    : driver_state call :=
  {| async := plasma_request_fail request errorCode (async s);
     queue := queue s |}.

(** Tasks run against the tile storage once the scheduler releases them;
    [exec] is what one kernel call does to the storage. *)
Definition run_queue {call mem : Type} (exec : call -> mem -> mem)
    (q : list call) (mu : mem) : mem :=
  foldl (fun acc c => exec c acc) mu q.

(** The integers [lo <= v < hi], increasing. *)
Definition range (lo hi : Z) : list Z := seqZ lo (hi - lo).

(** Submitting a batch of calls. *)
Definition emit {call : Type} (l : list call) (s : driver_state call)
    : driver_state call :=
  {| async := async s; queue := queue s ++ l |}.

(** The calls a driver added to the queue. *)
Definition new_calls {call : Type} (before after : driver_state call)
    : list call :=
  drop (length (queue before)) (queue after).

(** ** [compute/pdtradd.c] *)

Module Pdtradd.
Section Pdtradd.
Context `{PT : plasma_types_h} `{DH : plasma_descriptor_h}.
(** [double]; the driver only passes the scalars on. *)
Variable scalar : Type.

(** The two kernel wrappers the driver calls, with their arguments in the
    order of the C call (the sequence and request pointers are the
    driver's own and are left out). *)
Inductive call :=
| core_omp_dtradd (uplo transa m n : Z)
    (alpha : scalar) (A lda : Z) (beta : scalar) (B ldb : Z)
| core_omp_dgeadd (transa m n : Z)
    (alpha : scalar) (A lda : Z) (beta : scalar) (B ldb : Z).

Definition plasma_pdtradd (uplo transa : Z)
    (alpha : scalar) (A : plasma_desc_t)
    (beta : scalar) (B : plasma_desc_t)
    (s : driver_state call) : driver_state call :=
  (* Return if failed sequence. *)
  if negb (sequence_status (async s) =? PlasmaSuccess) then s
  else if uplo =? PlasmaLower then
    if transa =? PlasmaNoTrans then
      (* PlasmaLower / PlasmaNoTrans *)
      for_range 0 (imin (D.mt B) (D.nt B)) (fun n s =>
        let mvbn := plasma_tile_mview B n in
        let nvbn := plasma_tile_nview B n in
        let ldan := plasma_tile_mmain A n in
        let ldbn := plasma_tile_mmain B n in
        let s := dispatch (core_omp_dtradd uplo transa mvbn nvbn
                             alpha (plasma_tile_addr A n n) ldan
                             beta (plasma_tile_addr B n n) ldbn) s in
        for_range (n + 1) (D.mt B) (fun m s =>
          let mvbm := plasma_tile_mview B m in
          let ldam := plasma_tile_mmain A m in
          let ldbm := plasma_tile_mmain B m in
          dispatch (core_omp_dgeadd transa mvbm nvbn
                      alpha (plasma_tile_addr A m n) ldam
                      beta (plasma_tile_addr B m n) ldbm) s) s) s
    else
      (* PlasmaLower / Plasma[_Conj]Trans *)
      for_range 0 (imin (D.mt B) (D.nt B)) (fun n s =>
        let mvbn := plasma_tile_mview B n in
        let nvbn := plasma_tile_nview B n in
        let ldan := plasma_tile_mmain A n in
        let ldbn := plasma_tile_mmain B n in
        let s := dispatch (core_omp_dtradd uplo transa mvbn nvbn
                             alpha (plasma_tile_addr A n n) ldan
                             beta (plasma_tile_addr B n n) ldbn) s in
        for_range (n + 1) (D.mt B) (fun m s =>
          let mvbm := plasma_tile_mview B m in
          let ldbm := plasma_tile_mmain B m in
          dispatch (core_omp_dgeadd transa mvbm nvbn
                      alpha (plasma_tile_addr A n m) ldan
                      beta (plasma_tile_addr B m n) ldbm) s) s) s
  else if uplo =? PlasmaUpper then
    if transa =? PlasmaNoTrans then
      (* PlasmaUpper / PlasmaNoTrans *)
      for_range 0 (imin (D.mt B) (D.nt B)) (fun m s =>
        let mvbm := plasma_tile_mview B m in
        let nvbm := plasma_tile_nview B m in
        let ldam := plasma_tile_mmain A m in
        let ldbm := plasma_tile_mmain B m in
        let s := dispatch (core_omp_dtradd uplo transa mvbm nvbm
                             alpha (plasma_tile_addr A m m) ldam
                             beta (plasma_tile_addr B m m) ldbm) s in
        for_range (m + 1) (D.nt B) (fun n s =>
          let nvbn := plasma_tile_nview B n in
          dispatch (core_omp_dgeadd transa mvbm nvbn
                      alpha (plasma_tile_addr A m n) ldam
                      beta (plasma_tile_addr B m n) ldbm) s) s) s
    else
      (* PlasmaUpper / Plasma[_Conj]Trans *)
      for_range 0 (imin (D.mt B) (D.nt B)) (fun m s =>
        let mvbm := plasma_tile_mview B m in
        let nvbm := plasma_tile_nview B m in
        let ldam := plasma_tile_mmain A m in
        let ldbm := plasma_tile_mmain B m in
        let s := dispatch (core_omp_dtradd uplo transa mvbm nvbm
                             alpha (plasma_tile_addr A m m) ldam
                             beta (plasma_tile_addr B m m) ldbm) s in
        for_range (m + 1) (D.nt B) (fun n s =>
          let nvbn := plasma_tile_nview B n in
          let ldan := plasma_tile_mmain A n in
          dispatch (core_omp_dgeadd transa mvbm nvbn
                      alpha (plasma_tile_addr A n m) ldan
                      beta (plasma_tile_addr B m n) ldbm) s) s) s
  else s.

End Pdtradd.
Arguments core_omp_dtradd {scalar}.
Arguments core_omp_dgeadd {scalar}.
Arguments plasma_pdtradd {PT DH scalar}.
End Pdtradd.

(** ** [compute/pzunmqrrh.c] *)

Module Pzunmqrrh.
Section Pzunmqrrh.
Context `{PT : plasma_types_h} `{DH : plasma_descriptor_h}.

(** One record of the tree-reduction operation list, as
    [plasma_rh_tree_operation_get] returns it. *)
Record operation := {
  op_kernel : Z;
  op_j : Z;
  op_k : Z;
  op_kpiv : Z
}.

(** [plasma_rh_tree_operations] of [plasma_rh_tree.h], the planner, is not
    part of the sources at hand: it is a parameter, from the grid
    dimensions to the operation list ([noperations] is its length). *)
Variable plasma_rh_tree_operations : Z -> Z -> list operation.

(** [plasma_workspace_t]; the driver only passes it on. *)
Variable plasma_workspace_t : Type.

(** The kernel wrappers the driver calls, arguments in the order of the C
    call (without the sequence and request pointers). *)
Inductive call :=
| core_omp_zunmqr (side trans m n k ib : Z)
    (A lda T ldt C ldc : Z) (work : plasma_workspace_t)
| core_omp_zttmqr (side trans m1 n1 m2 n2 k ib : Z)
    (A1 lda1 A2 lda2 V ldv T ldt : Z) (work : plasma_workspace_t)
| core_omp_ztsmqr (side trans m1 n1 m2 n2 k ib : Z)
    (A1 lda1 A2 lda2 V ldv T ldt : Z) (work : plasma_workspace_t).

(** [#define T2(m, n) plasma_tile_addr(T, m, n+(T.nt/2))] *)
Definition T2 (T : plasma_desc_t) (m n : Z) : Z :=
  plasma_tile_addr T m (n + Z.quot (D.nt T) 2).

(** The body of the [PlasmaLeft] loop, from the record on. *)
Definition left_operation (side trans : Z) (A T B : plasma_desc_t)
    (work : plasma_workspace_t) (request : nat) (op : operation)
    (s : driver_state call) : driver_state call :=
  let ib := D.mb T in
  let kernel := op_kernel op in
  let j := op_j op in
  let k := op_k op in
  let kpiv := op_kpiv op in
  let nvaj := plasma_tile_nview A j in
  let mvak := plasma_tile_mview A k in
  let ldak := plasma_tile_mmain A k in
  let mvbk := plasma_tile_mview B k in
  let ldbk := plasma_tile_mmain B k in
  if kernel =? PlasmaGEKernel then
    (* triangularization *)
    for_range 0 (D.nt B) (fun n s =>
      let nvbn := plasma_tile_nview B n in
      dispatch (core_omp_zunmqr side trans
                  mvbk nvbn (imin mvak nvaj) ib
                  (plasma_tile_addr A k j) ldak
                  (plasma_tile_addr T k j) (D.mb T)
                  (plasma_tile_addr B k n) ldbk
                  work) s) s
  else if kernel =? PlasmaTTKernel then
    (* elimination of the tile *)
    let mvakpiv := plasma_tile_mview A kpiv in
    let mvbkpiv := plasma_tile_mview B kpiv in
    let ldbkpiv := plasma_tile_mmain B kpiv in
    for_range 0 (D.nt B) (fun n s =>
      let nvbn := plasma_tile_nview B n in
      dispatch (core_omp_zttmqr side trans
                  mvbkpiv nvbn mvbk nvbn (imin (mvakpiv + mvak) nvaj) ib
                  (plasma_tile_addr B kpiv n) ldbkpiv
                  (plasma_tile_addr B k n) ldbk
                  (plasma_tile_addr A k j) ldak
                  (T2 T k j) (D.mb T)
                  work) s) s
  else if kernel =? PlasmaTSKernel then
    (* elimination of the tile *)
    let mvakpiv := plasma_tile_mview A kpiv in
    let mvbkpiv := plasma_tile_mview B kpiv in
    let ldbkpiv := plasma_tile_mmain B kpiv in
    for_range 0 (D.nt B) (fun n s =>
      let nvbn := plasma_tile_nview B n in
      dispatch (core_omp_ztsmqr side trans
                  mvbkpiv nvbn mvbk nvbn (imin (mvakpiv + mvak) nvaj) ib
                  (plasma_tile_addr B kpiv n) ldbkpiv
                  (plasma_tile_addr B k n) ldbk
                  (plasma_tile_addr A k j) ldak
                  (T2 T k j) (D.mb T)
                  work) s) s
  else
    (* plasma_error("illegal kernel") *)
    request_fail request PlasmaErrorIllegalValue s.

(** The body of the [PlasmaRight] loop, from the record on. *)
Definition right_operation (side trans : Z) (A T B : plasma_desc_t)
    (work : plasma_workspace_t) (request : nat) (op : operation)
    (s : driver_state call) : driver_state call :=
  let ib := D.mb T in
  let kernel := op_kernel op in
  let j := op_j op in
  let k := op_k op in
  let kpiv := op_kpiv op in
  let nvbk := plasma_tile_nview B k in
  let mvak := plasma_tile_mview A k in
  let nvaj := plasma_tile_nview A j in
  let ldak := plasma_tile_mmain A k in
  if kernel =? PlasmaGEKernel then
    (* triangularization *)
    for_range 0 (D.mt B) (fun m s =>
      let mvbm := plasma_tile_mview B m in
      let ldbm := plasma_tile_mmain B m in
      dispatch (core_omp_zunmqr side trans
                  mvbm nvbk (imin mvak nvaj) ib
                  (plasma_tile_addr A k j) ldak
                  (plasma_tile_addr T k j) (D.mb T)
                  (plasma_tile_addr B m k) ldbm
                  work) s) s
  else if kernel =? PlasmaTTKernel then
    let nvbkpiv := plasma_tile_nview B kpiv in
    let mvakpiv := plasma_tile_mview A kpiv in
    (* elimination of the tile *)
    for_range 0 (D.mt B) (fun m s =>
      let mvbm := plasma_tile_mview B m in
      let ldbm := plasma_tile_mmain B m in
      dispatch (core_omp_zttmqr side trans
                  mvbm nvbkpiv mvbm nvbk (imin (mvakpiv + mvak) nvaj) ib
                  (plasma_tile_addr B m kpiv) ldbm
                  (plasma_tile_addr B m k) ldbm
                  (plasma_tile_addr A k j) ldak
                  (T2 T k j) (D.mb T)
                  work) s) s
  else if kernel =? PlasmaTSKernel then
    let nvbkpiv := plasma_tile_nview B kpiv in
    let mvakpiv := plasma_tile_mview A kpiv in
    (* elimination of the tile *)
    for_range 0 (D.mt B) (fun m s =>
      let mvbm := plasma_tile_mview B m in
      let ldbm := plasma_tile_mmain B m in
      dispatch (core_omp_ztsmqr side trans
                  mvbm nvbkpiv mvbm nvbk (imin (mvakpiv + mvak) nvaj) ib
                  (plasma_tile_addr B m kpiv) ldbm
                  (plasma_tile_addr B m k) ldbm
                  (plasma_tile_addr A k j) ldak
                  (T2 T k j) (D.mb T)
                  work) s) s
  else
    (* plasma_error("illegal kernel") *)
    request_fail request PlasmaErrorIllegalValue s.

(** [plasma_rh_tree_operation_get] followed by the loop body.  The index
    is within the list on every iteration; outside it there is no record
    to act on. *)
Definition operation_at (operations : list operation) (ind : Z)
    (body : operation -> driver_state call -> driver_state call)
    (s : driver_state call) : driver_state call :=
  match operations !! Z.to_nat ind with
  | Some op => body op s
  | None => s
  end.

Definition plasma_pzunmqrrh (side trans : Z) (A T B : plasma_desc_t)
    (work : plasma_workspace_t) (request : nat)
    (s : driver_state call) : driver_state call :=
  (* Check sequence status. *)
  if negb (sequence_status (async s) =? PlasmaSuccess) then
    request_fail request PlasmaErrorSequence s
  else
    (* Precompute order of QR operations. *)
    let operations := plasma_rh_tree_operations (D.mt A) (D.nt A) in
    let noperations := Z.of_nat (length operations) in
    if side =? PlasmaLeft then
      for_range 0 noperations (fun iop s =>
        (* revert the order of Householder reflectors for nontranspose *)
        let ind_operation :=
          if trans =? Plasma_ConjTrans then iop else noperations - 1 - iop in
        operation_at operations ind_operation
          (left_operation side trans A T B work request) s) s
    else
      (* PlasmaRight *)
      for_range 0 noperations (fun iop s =>
        (* revert the order of Householder reflectors for transpose *)
        let ind_operation :=
          if trans =? Plasma_ConjTrans then noperations - 1 - iop else iop in
        operation_at operations ind_operation
          (right_operation side trans A T B work request) s) s.

(** The auxiliary-coefficient tile a call is handed (its [T] argument). *)
Definition aux_tile (c : call) : Z :=
  match c with
  | core_omp_zunmqr _ _ _ _ _ _ _ _ T _ _ _ _ => T
  | core_omp_zttmqr _ _ _ _ _ _ _ _ _ _ _ _ _ _ T _ _ => T
  | core_omp_ztsmqr _ _ _ _ _ _ _ _ _ _ _ _ _ _ T _ _ => T
  end.

(** *** Vocabulary for the statements *)

(** Which wrapper a call goes to. *)
Definition is_zunmqr (c : call) : bool :=
  match c with core_omp_zunmqr _ _ _ _ _ _ _ _ _ _ _ _ _ => true | _ => false end.
Definition is_zttmqr (c : call) : bool :=
  match c with core_omp_zttmqr _ _ _ _ _ _ _ _ _ _ _ _ _ _ _ _ _ => true | _ => false end.
Definition is_ztsmqr (c : call) : bool :=
  match c with core_omp_ztsmqr _ _ _ _ _ _ _ _ _ _ _ _ _ _ _ _ _ => true | _ => false end.

(** A kind the driver knows. *)
Definition recognized (kernel : Z) : bool :=
  (kernel =? PlasmaGEKernel) || (kernel =? PlasmaTTKernel)
  || (kernel =? PlasmaTSKernel).

(** The order in which the driver consumes the operation list. *)
Definition traversal (side trans : Z) (ops : list operation) : list operation :=
  if side =? PlasmaLeft then
    if trans =? Plasma_ConjTrans then ops else reverse ops
  else
    if trans =? Plasma_ConjTrans then reverse ops else ops.

(** The loop body for one record, on either side. *)
Definition operation_body (side trans : Z) (A T B : plasma_desc_t)
    (work : plasma_workspace_t) (request : nat) (op : operation)
    (s : driver_state call) : driver_state call :=
  if side =? PlasmaLeft then left_operation side trans A T B work request op s
  else right_operation side trans A T B work request op s.

(** The calls one record gives rise to: what the loop body submits when it
    is run on an empty queue. *)
Definition operation_calls (side trans : Z) (A T B : plasma_desc_t)
    (work : plasma_workspace_t) (op : operation) : list call :=
  queue (operation_body side trans A T B work 0%nat op
           {| async := sequenceInit; queue := [] |}).

End Pzunmqrrh.
Arguments core_omp_zunmqr {plasma_workspace_t}.
Arguments core_omp_zttmqr {plasma_workspace_t}.
Arguments core_omp_ztsmqr {plasma_workspace_t}.
Arguments aux_tile {plasma_workspace_t}.
Arguments left_operation {PT DH plasma_workspace_t}.
Arguments right_operation {PT DH plasma_workspace_t}.
Arguments operation_at {plasma_workspace_t}.
Arguments is_zunmqr {plasma_workspace_t}.
Arguments is_zttmqr {plasma_workspace_t}.
Arguments is_ztsmqr {plasma_workspace_t}.
Arguments operation_body {PT DH plasma_workspace_t}.
Arguments operation_calls {PT DH plasma_workspace_t}.
Arguments plasma_pzunmqrrh {PT DH} plasma_rh_tree_operations {plasma_workspace_t}.
End Pzunmqrrh.

(** ** [compute/pdtr2desc_blasfeo.c] and [compute/pddesc2tr_blasfeo.c] *)

Module Layout.
Section Layout.
Context `{PT : plasma_types_h} `{DH : plasma_descriptor_h}.

(** The two copy kernels' wrappers, arguments in the order of the C call:
    extents, source pointer and leading dimension, destination pointer and
    leading dimension. *)
Inductive call :=
| plasma_core_omp_dpack_blasfeo (uplo trans m n : Z) (A lda B ldb : Z)
| plasma_core_omp_dunpack_blasfeo (uplo trans m n : Z) (A lda B ldb : Z).

(** Column-major buffer to tiles.  [pA] is the index of the buffer's first
    element.  The extents [y2-y1] and [x2-x1], the sums [A.j+A.n-1] and
    [A.i+A.m-1] and the offsets [x1*lda+y1] and [x1*A.nb+y1] are [int]
    expressions: each is the 32-bit value [int32] of its mathematical
    result.  The offset of [f77] is a [size_t] expression. *)
Definition plasma_pdtr2desc_blasfeo (pA lda : Z) (A : plasma_desc_t)
    (s : driver_state call) : driver_state call :=
  (* Return if failed sequence. *)
  if negb (sequence_status (async s) =? PlasmaSuccess) then s
  else
    for_range 0 (D.mt A) (fun m s =>
      let n_start := if D.type A =? PlasmaUpper then m else 0 in
      let n_end := if D.type A =? PlasmaUpper then D.nt A else m + 1 in
      for_range n_start n_end (fun n s =>
        let ldt := plasma_tile_nmain A n in
        let x1 := if n =? 0 then Z.rem (D.j A) (D.nb A) else 0 in
        let y1 := if m =? 0 then Z.rem (D.i A) (D.mb A) else 0 in
        let x2 := if n =? D.nt A - 1
                  then Z.rem (int32 (D.j A + D.n A - 1)) (D.nb A) + 1
                  else D.nb A in
        let y2 := if m =? D.mt A - 1
                  then Z.rem (int32 (D.i A + D.m A - 1)) (D.mb A) + 1
                  else D.mb A in
        let f77 := pA + size_t (D.nb A * lda * n + D.mb A * m) in
        let bdl := plasma_tile_addr A m n in
        dispatch (plasma_core_omp_dpack_blasfeo PlasmaGeneral PlasmaNoTrans
                    (int32 (y2 - y1)) (int32 (x2 - x1))
                    (f77 + int32 (x1 * lda + y1)) lda
                    (bdl + int32 (x1 * D.nb A + y1)) ldt) s) s) s.

(** Tiles to column-major buffer. *)
Definition plasma_pddesc2tr_blasfeo (A : plasma_desc_t) (pA lda : Z)
    (s : driver_state call) : driver_state call :=
  (* Return if failed sequence. *)
  if negb (sequence_status (async s) =? PlasmaSuccess) then s
  else
    for_range 0 (D.mt A) (fun m s =>
      let ldt := plasma_tile_mmain A m in
      let n_start := if D.type A =? PlasmaUpper then m else 0 in
      let n_end := if D.type A =? PlasmaUpper then D.nt A else m + 1 in
      for_range n_start n_end (fun n s =>
        let x1 := if n =? 0 then Z.rem (D.j A) (D.nb A) else 0 in
        let y1 := if m =? 0 then Z.rem (D.i A) (D.mb A) else 0 in
        let x2 := if n =? D.nt A - 1
                  then Z.rem (int32 (D.j A + D.n A - 1)) (D.nb A) + 1
                  else D.nb A in
        let y2 := if m =? D.mt A - 1
                  then Z.rem (int32 (D.i A + D.m A - 1)) (D.mb A) + 1
                  else D.mb A in
        let f77 := pA + size_t (D.nb A * lda * n + D.mb A * m) in
        let bdl := plasma_tile_addr A m n in
        dispatch (plasma_core_omp_dunpack_blasfeo PlasmaGeneral PlasmaNoTrans
                    (int32 (y2 - y1)) (int32 (x2 - x1))
                    (bdl + int32 (x1 * D.nb A + y1)) ldt
                    (f77 + int32 (x1 * lda + y1)) lda) s) s) s.

(** The tile coordinates both walks visit, in order. *)
Definition walk_tiles (A : plasma_desc_t) : list (Z * Z) :=
  m ← seqZ 0 (D.mt A);
  n ← seqZ (if D.type A =? PlasmaUpper then m else 0)
           ((if D.type A =? PlasmaUpper then D.nt A else m + 1)
            - (if D.type A =? PlasmaUpper then m else 0));
  [(m, n)].

(** *** Vocabulary for the statements *)

(** The bounds of tile [(m, n)] inside its [mb]-by-[nb] frame. *)
Definition x1 (A : plasma_desc_t) (n : Z) : Z :=
  if n =? 0 then Z.rem (D.j A) (D.nb A) else 0.
Definition y1 (A : plasma_desc_t) (m : Z) : Z :=
  if m =? 0 then Z.rem (D.i A) (D.mb A) else 0.
Definition x2 (A : plasma_desc_t) (n : Z) : Z :=
  if n =? D.nt A - 1
  then Z.rem (int32 (D.j A + D.n A - 1)) (D.nb A) + 1 else D.nb A.
Definition y2 (A : plasma_desc_t) (m : Z) : Z :=
  if m =? D.mt A - 1
  then Z.rem (int32 (D.i A + D.m A - 1)) (D.mb A) + 1 else D.mb A.

(** The extents passed for tile [(m, n)]: its rows and its columns. *)
Definition tile_rows (A : plasma_desc_t) (m : Z) : Z := int32 (y2 A m - y1 A m).
Definition tile_cols (A : plasma_desc_t) (n : Z) : Z := int32 (x2 A n - x1 A n).

(** Where the stored part of tile [(m, n)] starts, in the buffer and in
    the tile storage. *)
Definition buffer_ptr (pA lda : Z) (A : plasma_desc_t) (m n : Z) : Z :=
  pA + size_t (D.nb A * lda * n + D.mb A * m)
  + int32 (x1 A n * lda + y1 A m).
Definition tile_ptr (A : plasma_desc_t) (m n : Z) : Z :=
  plasma_tile_addr A m n + int32 (x1 A n * D.nb A + y1 A m).

(** The call either walk makes for a tile. *)
Definition pack_call (pA lda : Z) (A : plasma_desc_t) (t : Z * Z) : call :=
  plasma_core_omp_dpack_blasfeo PlasmaGeneral PlasmaNoTrans
    (tile_rows A (fst t)) (tile_cols A (snd t))
    (buffer_ptr pA lda A (fst t) (snd t)) lda
    (tile_ptr A (fst t) (snd t)) (plasma_tile_nmain A (snd t)).
Definition unpack_call (pA lda : Z) (A : plasma_desc_t) (t : Z * Z) : call :=
  plasma_core_omp_dunpack_blasfeo PlasmaGeneral PlasmaNoTrans
    (tile_rows A (fst t)) (tile_cols A (snd t))
    (tile_ptr A (fst t) (snd t)) (plasma_tile_mmain A (fst t))
    (buffer_ptr pA lda A (fst t) (snd t)) lda.

End Layout.
End Layout.

(** ** [core_blas/core_dpotrf_blasfeo.c] *)

Module CoreDpotrf.
Section CoreDpotrf.
Context `{PT : plasma_types_h}.

(** [struct blasfeo_dmat], and the memory the kernel works on. *)
Variable blasfeo_dmat : Type.
Variable mem : Type.

(** BLASFEO's [blasfeo_dpotrf_l(n, sC, ci, cj, sD, di, dj)], external. *)
Variable blasfeo_dpotrf_l :
  Z -> blasfeo_dmat -> Z -> Z -> blasfeo_dmat -> Z -> Z -> mem -> mem.

(** The single-tile kernel: the new memory and the returned [info]. *)
Definition plasma_core_dpotrf_blasfeo (uplo n : Z)
    (sA : blasfeo_dmat) (ai aj : Z) (mu : mem) : mem * Z :=
  (blasfeo_dpotrf_l n sA ai aj sA ai aj mu, 0).

(** What a worker thread sees when it runs a task. *)
Definition task_state : Type := async_t * mem.

(** The body of the [omp task] of [plasma_core_omp_dpotrf_blasfeo].  The
    kernel is declared [__attribute__((weak))]: the wrapper runs whichever
    definition [core] of it is linked in. *)
Definition dpotrf_task (core : Z -> Z -> blasfeo_dmat -> Z -> Z -> mem -> mem * Z)
    (uplo n : Z) (sA2 : blasfeo_dmat) (ai aj iinfo : Z) (request : nat)
    (st : task_state) : task_state :=
  if sequence_status (fst st) =? PlasmaSuccess then
    let r := core uplo n sA2 ai aj (snd st) in
    let info := snd r in
    if negb (info =? 0) then
      (plasma_request_fail request (iinfo + info) (fst st), fst r)
    else (fst st, fst r)
  else st.

(** The wrapper: copies the matrix structure and enqueues the task. *)
Definition plasma_core_omp_dpotrf_blasfeo
    (core : Z -> Z -> blasfeo_dmat -> Z -> Z -> mem -> mem * Z)
    (uplo n : Z) (sA : blasfeo_dmat) (ai aj iinfo : Z) (request : nat)
    (q : list (task_state -> task_state)) : list (task_state -> task_state) :=
  let sA2 := sA in
  q ++ [dpotrf_task core uplo n sA2 ai aj iinfo request].

End CoreDpotrf.
Arguments plasma_core_dpotrf_blasfeo {blasfeo_dmat mem}.
Arguments dpotrf_task {PT blasfeo_dmat mem}.
Arguments plasma_core_omp_dpotrf_blasfeo {PT blasfeo_dmat mem}.
End CoreDpotrf.

(** ** [compute/zsyrk.c] *)

Module Zsyrk.
Section Zsyrk.
Context `{PT : plasma_types_h}.

(** [plasma_complex64_t], with the two floating-point comparisons the
    quick return makes: [alpha == 0.0] and [beta == 1.0]. *)
Variable plasma_complex64_t : Type.
Variable eq_zero : plasma_complex64_t -> bool.
Variable eq_one : plasma_complex64_t -> bool.

(** [plasma_context_self()]: [None] is [NULL]; of the context only [nb] is
    read. *)
Variable plasma_context_self : option Z.

(** The tile-async collaborators, not part of the sources at hand: what each
    submits and does to the status words.  [call] is whatever they
    enqueue. *)
Variable call : Type.
Variable plasma_desc_check : plasma_desc_t -> Z.
Variable plasma_pzsyrk :
  Z -> Z -> plasma_complex64_t -> plasma_desc_t ->
  plasma_complex64_t -> plasma_desc_t -> nat ->
  driver_state call -> driver_state call.
Variable PLASMA_zcm2ccrb_Async :
  Z -> Z -> plasma_desc_t -> nat -> driver_state call -> driver_state call.
Variable PLASMA_zccrb2cm_Async :
  plasma_desc_t -> Z -> Z -> nat -> driver_state call -> driver_state call.

(** [plasma_desc_general_create(precision, mb, nb, lm, ln, i, j, m, n, &desc)]:
    the return value and the descriptor. *)
Variable plasma_desc_general_create :
  Z -> Z -> Z -> Z -> Z -> Z -> Z -> Z -> Z -> Z * plasma_desc_t.
(** [plasma_sequence_create]: the return value. *)
Variable plasma_sequence_create : Z.
(** The implicit synchronization closing the parallel region: the status
    words once every submitted task has run. *)
Variable synchronize : driver_state call -> async_t.

(** [plasma_request_fail] through pointers that may be [NULL]: the
    sequence pointer ([true] when it points to the sequence) and the
    request pointer.  Dereferencing [NULL] has no result. *)
Definition request_fail_at (sequence : bool) (request : option nat)
    (errorCode : Z) (s : driver_state call) : option (driver_state call) :=
  match sequence, request with
  | true, Some r => Some (request_fail r errorCode s)
  | _, _ => None
  end.

(** [A] and [C] are descriptors read through their pointers. *)
Definition plasma_omp_zsyrk (uplo trans : Z)
    (alpha : plasma_complex64_t) (A : plasma_desc_t)
    (beta : plasma_complex64_t) (C : plasma_desc_t)
    (sequence : bool) (request : option nat)
    (s : driver_state call) : option (driver_state call) :=
  (* Get PLASMA context. *)
  match plasma_context_self with
  | None => request_fail_at sequence request PlasmaErrorIllegalValue s
  | Some _ =>
    (* Check input arguments. *)
    if negb (uplo =? PlasmaUpper) && negb (uplo =? PlasmaLower) then
      request_fail_at sequence request PlasmaErrorIllegalValue s
    else if negb (trans =? PlasmaNoTrans) && negb (trans =? PlasmaTrans) then
      request_fail_at sequence request PlasmaErrorIllegalValue s
    else if negb (plasma_desc_check A =? PlasmaSuccess) then
      request_fail_at sequence request PlasmaErrorIllegalValue s
    else if negb (plasma_desc_check C =? PlasmaSuccess) then
      request_fail_at sequence request PlasmaErrorIllegalValue s
    else if negb sequence then
      request_fail_at sequence request PlasmaErrorIllegalValue s
    else
      match request with
      | None => request_fail_at sequence request PlasmaErrorIllegalValue s
      | Some r =>
        (* quick return *)
        let k := if trans =? PlasmaNoTrans then D.n A else D.m A in
        if (D.m C =? 0) || ((eq_zero alpha || (k =? 0)) && eq_one beta) then
          Some s
        else
          (* Call the parallel function. *)
          Some (plasma_pzsyrk uplo trans alpha A beta C r s)
      end
  end.

(** What [PLASMA_zsyrk] does besides returning a value. *)
Inductive event :=
| desc_general_create (precision mb nb lm ln i j m n : Z)
| desc_destroy (A : plasma_desc_t)
| sequence_create
| sequence_destroy
| parallel_region (submitted : list call).

(** [A] and [C] are the indices of the two column-major arrays.  The result
    is the return value and the log of what was done; there is no result
    when the parallel region dereferences [NULL]. *)
Definition PLASMA_zsyrk (uplo trans n k : Z)
    (alpha : plasma_complex64_t) (A lda : Z)
    (beta : plasma_complex64_t) (C ldc : Z) : option (Z * list event) :=
  (* Get PLASMA context. *)
  match plasma_context_self with
  | None => Some (PlasmaErrorNotInitialized, [])
  | Some plasma_nb =>
    (* Check input arguments. *)
    if negb (uplo =? PlasmaUpper) && negb (uplo =? PlasmaLower) then
      Some (-1, [])
    else if negb (trans =? PlasmaNoTrans) && negb (trans =? PlasmaTrans) then
      Some (-2, [])
    else
      let Am := if trans =? PlasmaNoTrans then n else k in
      let An := if trans =? PlasmaNoTrans then k else n in
      if n <? 0 then Some (-3, [])
      else if k <? 0 then Some (-4, [])
      else if lda <? imax 1 Am then Some (-7, [])
      else if ldc <? imax 1 n then Some (-10, [])
      (* quick return *)
      else if (n =? 0) || ((eq_zero alpha || (k =? 0)) && eq_one beta) then
        Some (PlasmaSuccess, [])
      else
        let nb := plasma_nb in
        (* Create tile matrices. *)
        let createA :=
          plasma_desc_general_create PlasmaComplexDouble nb nb Am An 0 0 Am An in
        let log := [desc_general_create PlasmaComplexDouble nb nb Am An 0 0 Am An] in
        if negb (fst createA =? PlasmaSuccess) then Some (fst createA, log)
        else
          let descA := snd createA in
          let createC :=
            plasma_desc_general_create PlasmaComplexDouble nb nb n n 0 0 n n in
          let log :=
            log ++ [desc_general_create PlasmaComplexDouble nb nb n n 0 0 n n] in
          if negb (fst createC =? PlasmaSuccess) then
            Some (fst createC, log ++ [desc_destroy descA])
          else
            let descC := snd createC in
            (* Create sequence. *)
            let log := log ++ [sequence_create] in
            if negb (plasma_sequence_create =? PlasmaSuccess) then
              Some (plasma_sequence_create, log)
            else
              (* Initialize request. *)
              let request := 0%nat in
              let s := {| async := sequenceInit; queue := [] |} in
              (* asynchronous block *)
              let s := PLASMA_zcm2ccrb_Async A lda descA request s in
              let s := PLASMA_zcm2ccrb_Async C ldc descC request s in
              match plasma_omp_zsyrk uplo trans alpha descA beta descC
                      true (Some request) s with
              | None => None
              | Some s =>
                let s := PLASMA_zccrb2cm_Async descC C ldc request s in
                (* implicit synchronization *)
                let status := sequence_status (synchronize s) in
                Some (status,
                      log ++ [parallel_region (queue s);
                              desc_destroy descA; desc_destroy descC;
                              sequence_destroy])
              end
  end.

(** *** Vocabulary for the statements *)

(** [n == 0 || ((alpha == 0.0 || k == 0) && beta == 1.0)] *)
Definition quick_return (n k : Z) (alpha beta : plasma_complex64_t) : bool :=
  (n =? 0) || ((eq_zero alpha || (k =? 0)) && eq_one beta).

End Zsyrk.
Arguments quick_return {plasma_complex64_t}.
Arguments desc_general_create {call}.
Arguments desc_destroy {call}.
Arguments sequence_create {call}.
Arguments sequence_destroy {call}.
Arguments parallel_region {call}.
Arguments request_fail_at {PT call}.
Arguments plasma_omp_zsyrk {PT plasma_complex64_t} eq_zero eq_one
  plasma_context_self {call} plasma_desc_check plasma_pzsyrk.
Arguments PLASMA_zsyrk {PT plasma_complex64_t} eq_zero eq_one
  plasma_context_self {call} plasma_desc_check plasma_pzsyrk
  PLASMA_zcm2ccrb_Async PLASMA_zccrb2cm_Async
  plasma_desc_general_create plasma_sequence_create synchronize.
End Zsyrk.

(** ** [compute/scamax.c] *)

Module Scamax.
Section Scamax.
Context `{PT : plasma_types_h}.

(** Enumerators of [plasma_types.h] this file uses beyond those above. *)
Variable PlasmaColumnwise : Z.
Variable PlasmaRowwise : Z.
Variable PlasmaErrorOutOfMemory : Z.
Variable PlasmaComplexFloat : Z.

(** [plasma_context_self()]: [None] is [NULL]; of the context only [nb] is
    read. *)
Variable plasma_context_self : option Z.

(** The collaborators, not part of the sources at hand.  [call] is whatever
    the asynchronous ones enqueue. *)
Variable call : Type.
Variable plasma_desc_check : plasma_desc_t -> Z.
Variable plasma_desc_general_create :
  Z -> Z -> Z -> Z -> Z -> Z -> Z -> Z -> Z -> Z * plasma_desc_t.
(** [malloc] of so many floats: the pointer, [None] for [NULL]. *)
Variable malloc : Z -> option Z.
Variable plasma_omp_cge2desc :
  Z -> Z -> plasma_desc_t -> nat -> driver_state call -> driver_state call.
Variable plasma_pscamax :
  Z -> plasma_desc_t -> Z -> Z -> nat -> driver_state call -> driver_state call.
(** The implicit synchronization closing the parallel region. *)
Variable synchronize : driver_state call -> async_t.

Definition plasma_omp_scamax (colrow : Z) (A : plasma_desc_t)
    (work values : Z) (sequence : bool) (request : option nat)
    (s : driver_state call) : option (driver_state call) :=
  (* Get PLASMA context. *)
  match plasma_context_self with
  | None => Zsyrk.request_fail_at sequence request PlasmaErrorIllegalValue s
  | Some _ =>
    (* Check input arguments. *)
    if negb (colrow =? PlasmaColumnwise) && negb (colrow =? PlasmaRowwise) then
      Zsyrk.request_fail_at sequence request PlasmaErrorIllegalValue s
    else if negb (plasma_desc_check A =? PlasmaSuccess) then
      Zsyrk.request_fail_at sequence request PlasmaErrorIllegalValue s
    else if negb sequence then
      Zsyrk.request_fail_at sequence request PlasmaErrorIllegalValue s
    else
      match request with
      | None => Zsyrk.request_fail_at sequence request PlasmaErrorIllegalValue s
      | Some r =>
        (* quick return *)
        if imin (D.m A) (D.n A) =? 0 then Some s
        else
          (* Call the parallel function. *)
          Some (plasma_pscamax colrow A work values r s)
      end
  end.

(** What [plasma_scamax] does besides returning a value. *)
Inductive event :=
| desc_general_create (precision mb nb lm ln i j m n : Z)
| malloc_floats (count : Z)
| parallel_region (submitted : list call)
| free (pointer : Z)
| desc_destroy (A : plasma_desc_t).

(** [pA] and [values] are the indices of the two arrays.  The result is
    the return value and the log of what was done; there is no result
    when an uninitialized or [NULL] pointer is used. *)
Definition plasma_scamax (colrow m n pA lda values : Z)
    : option (Z * list event) :=
  (* Get PLASMA context. *)
  match plasma_context_self with
  | None => Some (PlasmaErrorNotInitialized, [])
  | Some plasma_nb =>
    (* Check input arguments. *)
    if negb (colrow =? PlasmaColumnwise) && negb (colrow =? PlasmaRowwise) then
      Some (-1, [])
    else if m <? 0 then Some (-2, [])
    else if n <? 0 then Some (-3, [])
    else if lda <? imax 1 m then Some (-5, [])
    (* quick return *)
    else if imin n m =? 0 then Some (PlasmaSuccess, [])
    else
      (* Set tiling parameters. *)
      let nb := plasma_nb in
      (* Create tile matrices. *)
      let create :=
        plasma_desc_general_create PlasmaComplexFloat nb nb m n 0 0 m n in
      let log := [desc_general_create PlasmaComplexFloat nb nb m n 0 0 m n] in
      if negb (fst create =? PlasmaSuccess) then Some (fst create, log)
      else
        let A := snd create in
        (* Allocate workspace: a switch with two cases and no default. *)
        let count :=
          if colrow =? PlasmaColumnwise then Some (D.mt A * D.n A)
          else if colrow =? PlasmaRowwise then Some (D.m A * D.nt A)
          else None in
        match count with
        | None => None
        | Some count =>
          let log := log ++ [malloc_floats count] in
          match malloc count with
          | None => Some (PlasmaErrorOutOfMemory, log)
          | Some work =>
            (* Initialize sequence.  Initialize request. *)
            let request := 0%nat in
            let s := {| async := sequenceInit; queue := [] |} in
            (* asynchronous block *)
            let s := plasma_omp_cge2desc pA lda A request s in
            match plasma_omp_scamax colrow A work values
                    true (Some request) s with
            | None => None
            | Some s =>
              (* implicit synchronization *)
              let status := sequence_status (synchronize s) in
              Some (status,
                    log ++ [parallel_region (queue s); free work;
                            desc_destroy A])
            end
          end
        end
  end.

End Scamax.
Arguments desc_general_create {call}.
Arguments malloc_floats {call}.
Arguments parallel_region {call}.
Arguments free {call}.
Arguments desc_destroy {call}.
Arguments plasma_omp_scamax {PT} PlasmaColumnwise PlasmaRowwise
  plasma_context_self {call} plasma_desc_check plasma_pscamax.
Arguments plasma_scamax {PT} PlasmaColumnwise PlasmaRowwise
  PlasmaErrorOutOfMemory PlasmaComplexFloat plasma_context_self {call}
  plasma_desc_check plasma_desc_general_create malloc plasma_omp_cge2desc
  plasma_pscamax synchronize.
End Scamax.

(** ** [compute/zgelqs.c] *)

Module Zgelqs.
Section Zgelqs.
Context `{PT : plasma_types_h}.

(** This file spells the status codes the older way; they are parameters
    of their own.  [PlasmaNonUnit] is one more enumerator of
    [plasma_types.h]. *)
Variable PLASMA_SUCCESS : Z.
Variable PLASMA_ERR_NOT_INITIALIZED : Z.
Variable PLASMA_ERR_ILLEGAL_VALUE : Z.
Variable PLASMA_ERR_SEQUENCE_FLUSHED : Z.
Variable PlasmaNonUnit : Z.

(** [PLASMA_Complex64_t] and the constant [1.0]. *)
Variable PLASMA_Complex64_t : Type.
Variable one : PLASMA_Complex64_t.

Variable plasma_context_self : option Z.

(** [plasma_fatal_error(msg)], not part of the sources at hand: [Some tt]
    when the call returns to its caller, [None] when it ends the
    program. *)
Variable plasma_fatal_error : option unit.

(** The collaborators, not part of the sources at hand. *)
Variable call : Type.
Variable plasma_desc_check : plasma_desc_t -> Z.
(** [plasma_desc_init(dtyp, mb, nb, bsiz, lm, ln, i, j, m, n)] *)
Variable plasma_desc_init :
  Z -> Z -> Z -> Z -> Z -> Z -> Z -> Z -> Z -> Z -> plasma_desc_t.
(** [plasma_desc_mat_alloc]: the return value. *)
Variable plasma_desc_mat_alloc : plasma_desc_t -> Z.
(** [plasma_desc_submatrix(A, i, j, m, n)] *)
Variable plasma_desc_submatrix :
  plasma_desc_t -> Z -> Z -> Z -> Z -> plasma_desc_t.
Variable plasma_sequence_create : Z.
Variable PLASMA_zcm2ccrb_Async :
  Z -> Z -> plasma_desc_t -> nat -> driver_state call -> driver_state call.
Variable PLASMA_zccrb2cm_Async :
  plasma_desc_t -> Z -> Z -> nat -> driver_state call -> driver_state call.
Variable plasma_pztrsm :
  Z -> Z -> Z -> Z -> PLASMA_Complex64_t -> plasma_desc_t -> plasma_desc_t ->
  nat -> driver_state call -> driver_state call.
Variable plasma_pzunmlq :
  Z -> Z -> plasma_desc_t -> plasma_desc_t -> plasma_desc_t ->
  nat -> driver_state call -> driver_state call.
Variable synchronize : driver_state call -> async_t.

(** The descriptors are read through their pointers. *)
Definition PLASMA_zgelqs_Tile_Async (descA descT descB : plasma_desc_t)
    (sequence : bool) (request : option nat)
    (s : driver_state call) : option (driver_state call) :=
  (* Get PLASMA context. *)
  match plasma_context_self with
  | None => Zsyrk.request_fail_at sequence request PLASMA_ERR_ILLEGAL_VALUE s
  | Some _ =>
    (* Check input arguments. *)
    if negb (plasma_desc_check descA =? PLASMA_SUCCESS) then
      Zsyrk.request_fail_at sequence request PLASMA_ERR_ILLEGAL_VALUE s
    else if negb (plasma_desc_check descT =? PLASMA_SUCCESS) then
      Zsyrk.request_fail_at sequence request PLASMA_ERR_ILLEGAL_VALUE s
    else if negb (plasma_desc_check descB =? PLASMA_SUCCESS) then
      Zsyrk.request_fail_at sequence request PLASMA_ERR_ILLEGAL_VALUE s
    else if negb (D.nb descA =? D.mb descA) || negb (D.nb descB =? D.mb descB) then
      (* only square tiles supported *)
      Zsyrk.request_fail_at sequence request PLASMA_ERR_ILLEGAL_VALUE s
    else if negb sequence then
      Zsyrk.request_fail_at sequence request PLASMA_ERR_ILLEGAL_VALUE s
    else
      match request with
      | None =>
          Zsyrk.request_fail_at sequence request PLASMA_ERR_ILLEGAL_VALUE s
      | Some r =>
        (* Check sequence status. *)
        if negb (sequence_status (async s) =? PLASMA_SUCCESS) then
          Zsyrk.request_fail_at sequence request PLASMA_ERR_SEQUENCE_FLUSHED s
        else
          (* Solve L * Y = B *)
          let zone := one in
          let s := plasma_pztrsm PlasmaLeft PlasmaLower PlasmaNoTrans
                     PlasmaNonUnit zone
                     (plasma_desc_submatrix descA 0 0 (D.m descA) (D.m descA))
                     (plasma_desc_submatrix descB 0 0 (D.m descA) (D.n descB))
                     r s in
          (* Find X = Q^H * Y *)
          Some (plasma_pzunmlq PlasmaLeft Plasma_ConjTrans
                  descA descB descT r s)
      end
  end.

(** The body of the parallel region of [PLASMA_zgelqs]: each step is
    submitted only if the sequence is still in success after the one
    before.  This is the path of the master thread over the status word
    as each call leaves it: a task that fails at run time, between two
    reads of the status, is not part of it. *)
Definition zgelqs_region (A lda : Z) (descA descT : plasma_desc_t)
    (B ldb : Z) (descB : plasma_desc_t) (request : nat)
    (s : driver_state call) : option (driver_state call) :=
  (* Translate to tile layout. *)
  let s := PLASMA_zcm2ccrb_Async A lda descA request s in
  let s :=
    if sequence_status (async s) =? PLASMA_SUCCESS
    then PLASMA_zcm2ccrb_Async B ldb descB request s else s in
  (* Call the tile async function. *)
  match
    (if sequence_status (async s) =? PLASMA_SUCCESS
     then PLASMA_zgelqs_Tile_Async descA descT descB true (Some request) s
     else Some s)
  with
  | None => None
  | Some s =>
    (* Translate back to LAPACK layout. *)
    Some (if sequence_status (async s) =? PLASMA_SUCCESS
          then PLASMA_zccrb2cm_Async descB B ldb request s else s)
  end.

(** What [PLASMA_zgelqs] does besides returning a value. *)
Inductive event :=
| desc_mat_alloc (A : plasma_desc_t)
| desc_mat_free (A : plasma_desc_t)
| sequence_create
| sequence_destroy
| parallel_region (submitted : list call).

Definition PLASMA_zgelqs (m n nrhs A lda : Z) (descT : plasma_desc_t)
    (B ldb : Z) : option (Z * list event) :=
  (* Get PLASMA context. *)
  match plasma_context_self with
  | None =>
      match plasma_fatal_error with
      | None => None
      | Some _ => Some (PLASMA_ERR_NOT_INITIALIZED, [])
      end
  | Some plasma_nb =>
    (* Check input arguments *)
    if m <? 0 then Some (-1, [])
    else if (n <? 0) || (m >? n) then Some (-2, [])
    else if nrhs <? 0 then Some (-3, [])
    else if lda <? imax 1 m then Some (-5, [])
    else if ldb <? imax 1 (imax 1 n) then Some (-8, [])
    (* Quick return *)
    else if imin m (imin n nrhs) =? 0 then Some (PLASMA_SUCCESS, [])
    else
      let nb := plasma_nb in
      (* Initialize tile matrix descriptors. *)
      let descA := plasma_desc_init PlasmaComplexDouble nb nb
                     (nb * nb) lda n 0 0 m n in
      let descB := plasma_desc_init PlasmaComplexDouble nb nb
                     (nb * nb) ldb nrhs 0 0 n nrhs in
      (* Allocate matrices in tile layout. *)
      let log := [desc_mat_alloc descA] in
      if negb (plasma_desc_mat_alloc descA =? PLASMA_SUCCESS) then
        Some (plasma_desc_mat_alloc descA, log)
      else
        let log := log ++ [desc_mat_alloc descB] in
        if negb (plasma_desc_mat_alloc descB =? PLASMA_SUCCESS) then
          Some (plasma_desc_mat_alloc descB, log ++ [desc_mat_free descA])
        else
          (* Create sequence. *)
          let log := log ++ [sequence_create] in
          if negb (plasma_sequence_create =? PLASMA_SUCCESS) then
            Some (plasma_sequence_create, log)
          else
            (* Initialize request. *)
            let request := 0%nat in
            let s := {| async := {| sequence_status := PLASMA_SUCCESS;
                                    request_status := ∅ |};
                        queue := [] |} in
            match zgelqs_region A lda descA descT B ldb descB request s with
            | None => None
            | Some s =>
              (* Return status. *)
              let status := sequence_status (synchronize s) in
              Some (status,
                    log ++ [parallel_region (queue s);
                            desc_mat_free descA; desc_mat_free descB;
                            sequence_destroy])
            end
  end.

End Zgelqs.
Arguments desc_mat_alloc {call}.
Arguments desc_mat_free {call}.
Arguments sequence_create {call}.
Arguments sequence_destroy {call}.
Arguments parallel_region {call}.
Arguments PLASMA_zgelqs_Tile_Async {PT} PLASMA_SUCCESS PLASMA_ERR_ILLEGAL_VALUE
  PLASMA_ERR_SEQUENCE_FLUSHED PlasmaNonUnit {PLASMA_Complex64_t} one
  plasma_context_self {call} plasma_desc_check plasma_desc_submatrix
  plasma_pztrsm plasma_pzunmlq.
Arguments zgelqs_region {PT} PLASMA_SUCCESS PLASMA_ERR_ILLEGAL_VALUE
  PLASMA_ERR_SEQUENCE_FLUSHED PlasmaNonUnit {PLASMA_Complex64_t} one
  plasma_context_self {call} plasma_desc_check plasma_desc_submatrix
  PLASMA_zcm2ccrb_Async PLASMA_zccrb2cm_Async plasma_pztrsm plasma_pzunmlq.
Arguments PLASMA_zgelqs {PT} PLASMA_SUCCESS PLASMA_ERR_NOT_INITIALIZED
  PLASMA_ERR_ILLEGAL_VALUE PLASMA_ERR_SEQUENCE_FLUSHED PlasmaNonUnit
  {PLASMA_Complex64_t} one plasma_context_self plasma_fatal_error
  {call} plasma_desc_check
  plasma_desc_init plasma_desc_mat_alloc plasma_desc_submatrix
  plasma_sequence_create PLASMA_zcm2ccrb_Async PLASMA_zccrb2cm_Async
  plasma_pztrsm plasma_pzunmlq synchronize.
End Zgelqs.

(** ** C arrays *)

Module CArray.
Section CArray.
Variable T : Type.

(** An array is the list of its elements; reading or writing outside it
    has no result. *)
Definition array : Type := list T.
Definition load (a : array) (idx : Z) : option T :=
  if idx <? 0 then None else a !! Z.to_nat idx.
Definition store (idx : Z) (v : T) (a : array) : option array :=
  if (0 <=? idx) && (idx <? Z.of_nat (length a))
  then Some (<[Z.to_nat idx := v]> a) else None.

(** *** Vocabulary for the statements *)

(** A series of writes, and the value the last write to [p] stored. *)
Definition apply_writes (ws : list (Z * T)) (a : option array)
    : option array :=
  foldl (fun acc w => a ← acc; store (fst w) (snd w) a) a ws.
Definition last_write (p : Z) (ws : list (Z * T)) : option T :=
  foldl (fun r w => if fst w =? p then Some (snd w) else r) None ws.

(** An assignment [a[w] = f(a[r])], given as [(w, r, f)], and a series of
    them. *)
Definition assign (m : Z * Z * (T -> T)) (a : option array) : option array :=
  a ← a; v ← load a (snd (fst m)); store (fst (fst m)) (snd m v) a.
Definition apply_moves (ms : list (Z * Z * (T -> T))) (a : option array)
    : option array :=
  foldl (fun acc m => assign m acc) a ms.

End CArray.
Arguments load {T}.
Arguments store {T}.
Arguments apply_writes {T}.
Arguments last_write {T}.
Arguments assign {T}.
Arguments apply_moves {T}.
End CArray.

(** ** [test/test_clangb.c]: the arrays the test prepares *)

Module TestClangb.
Section TestClangb.
Import CArray.

(** [plasma_complex32_t] and its zero. *)
Variable plasma_complex32_t : Type.
Variable zero : plasma_complex32_t.

(** zero out elements outside the band *)
Definition zero_outside_band (m n kl ku lda : Z)
    (A : array plasma_complex32_t) : option (array plasma_complex32_t) :=
  let A :=
    for_range 0 m (fun i A =>
      for_range (i + ku + 1) n (fun j A =>
        A ← A; store (i + j * lda) zero A) A) (Some A) in
  for_range 0 n (fun j A =>
    for_range (j + kl + 1) m (fun i A =>
      A ← A; store (i + j * lda) zero A) A) A.

(** band matrix A in skewed LAPACK storage: the number of tiles in the
    upper band and in the lower band, not including the diagonal, and the
    leading dimension *)
Definition kut (ku kl nb : Z) : Z := Z.quot (ku + kl + nb - 1) nb.
Definition klt (kl nb : Z) : Z := Z.quot (kl + nb - 1) nb.
Definition ldab (ku kl nb : Z) : Z := (kut ku kl nb + klt kl nb + 1) * nb.

(** convert into LAPACK's skewed storage *)
Definition to_skewed_storage (m n kl ku lda ldab : Z)
    (A AB : array plasma_complex32_t) : option (array plasma_complex32_t) :=
  for_range 0 n (fun j AB =>
    let i_kl := imax 0 (j - ku) in
    let i_ku := imin (m - 1) (j + kl) in
    let AB :=
      for_range 0 ldab (fun i AB =>
        AB ← AB; store (i + j * ldab) zero AB) AB in
    for_range i_kl (i_ku + 1) (fun i AB =>
      AB ← AB; v ← load A (i + j * lda);
      store (kl + i - (j - ku) + j * ldab) v AB) AB) (Some AB).

(** *** Vocabulary for the statements *)

(** The writes of the two zeroing loops, and those of column [j] of the
    conversion: the column is cleared, then the band is copied. *)
Definition zeroing_writes (m n kl ku lda : Z)
    : list (Z * plasma_complex32_t) :=
  (i ← range 0 m; (fun j => (i + j * lda, zero)) <$> range (i + ku + 1) n)
  ++ (j ← range 0 n; (fun i => (i + j * lda, zero)) <$> range (j + kl + 1) m).
Definition cleared (ldab j : Z) : list (Z * plasma_complex32_t) :=
  (fun i => (i + j * ldab, zero)) <$> range 0 ldab.
Definition copied (m kl ku lda ldab : Z) (A : array plasma_complex32_t)
    (j : Z) : list (Z * plasma_complex32_t) :=
  (fun i => (kl + i - (j - ku) + j * ldab,
             default zero (load A (i + j * lda))))
    <$> range (imax 0 (j - ku)) (imin (m - 1) (j + kl) + 1).
Definition skewed_writes (m kl ku lda ldab : Z)
    (A : array plasma_complex32_t) (j : Z)
    : list (Z * plasma_complex32_t) :=
  cleared ldab j ++ copied m kl ku lda ldab A j.

End TestClangb.
Arguments zero_outside_band {plasma_complex32_t}.
Arguments to_skewed_storage {plasma_complex32_t}.
Arguments zeroing_writes {plasma_complex32_t}.
Arguments cleared {plasma_complex32_t}.
Arguments copied {plasma_complex32_t}.
Arguments skewed_writes {plasma_complex32_t}.
End TestClangb.

(** ** [test/test_spoinv.c] and [test/test_ssysv.c]: the symmetric matrix *)

Module TestSymmetric.
Section TestSymmetric.
Import CArray.

(** [float], its zero, and what the loop assigns to a diagonal element
    given its old value: [creal(A(i,i)) + n] in [test_spoinv.c],
    [creal(A(i,i))] in [test_ssysv.c]. *)
Variable scalar : Type.
Variable zero : scalar.
Variable on_diagonal : scalar -> scalar.

(** [#define A(i_, j_) A[(i_) + (size_t)lda*(j_)]] *)
Definition A_ (lda i_ j_ : Z) : Z := i_ + lda * j_.

(** It sets Aji = ( Aij ) for j < i, that is, copy lower triangle to upper
    triangle. *)
Definition make_symmetric (n lda : Z) (A : array scalar)
    : option (array scalar) :=
  for_range 0 n (fun i A =>
    let A :=
      A ← A; v ← load A (A_ lda i i); store (A_ lda i i) (on_diagonal v) A in
    for_range 0 i (fun j A =>
      A ← A; v ← load A (A_ lda i j); store (A_ lda j i) v A) A) (Some A).

(** [if (zerocol >= 0 && zerocol < n) memset(&A[zerocol*lda], 0,
    n*sizeof(float))] of [test_spoinv.c]: the [n] elements from index
    [zerocol*lda] on become zero. *)
Definition zero_column (n lda zerocol : Z) (A : array scalar)
    : option (array scalar) :=
  if (zerocol >=? 0) && (zerocol <? n)
  then for_range 0 n (fun k A =>
         A ← A; store (zerocol * lda + k) zero A) (Some A)
  else Some A.

(** *** Vocabulary for the statements *)

(** The assignments of row [i] of [make_symmetric], and all of them. *)
Definition row_moves (lda i : Z) : list (Z * Z * (scalar -> scalar)) :=
  (A_ lda i i, A_ lda i i, on_diagonal)
  :: ((fun j => (A_ lda j i, A_ lda i j, fun v => v)) <$> range 0 i).
Definition symmetric_moves (n lda : Z) : list (Z * Z * (scalar -> scalar)) :=
  i ← range 0 n; row_moves lda i.

End TestSymmetric.
Arguments A_ : simpl never.
Arguments make_symmetric {scalar}.
Arguments zero_column {scalar}.
Arguments row_moves {scalar}.
Arguments symmetric_moves {scalar}.
End TestSymmetric.

(** ** Readings of calls, sums and queues *)

(** The sum of a list of integers. *)
Definition sumZ (l : list Z) : Z := foldr Z.add 0 l.

(** The tile a triangular-add call writes (its [B] argument), and whether
    the call goes to the triangular kernel. *)
Definition dest {scalar : Type} (c : Pdtradd.call scalar) : Z :=
  match c with
  | Pdtradd.core_omp_dtradd _ _ _ _ _ _ _ _ B _ => B
  | Pdtradd.core_omp_dgeadd _ _ _ _ _ _ _ B _ => B
  end.
Definition is_dtradd {scalar : Type} (c : Pdtradd.call scalar) : bool :=
  match c with
  | Pdtradd.core_omp_dtradd _ _ _ _ _ _ _ _ _ _ => true
  | Pdtradd.core_omp_dgeadd _ _ _ _ _ _ _ _ _ => false
  end.

(** The two calls of the triangular-add walk: on the diagonal tile [(k, k)]
    and on the tile [(m, n)] off it. *)
Definition diagonal_call `{PT : plasma_types_h} `{DH : plasma_descriptor_h}
    {scalar : Type} (uplo transa : Z) (alpha : scalar) (A : plasma_desc_t)
    (beta : scalar) (B : plasma_desc_t) (k : Z) : Pdtradd.call scalar :=
  Pdtradd.core_omp_dtradd uplo transa
    (plasma_tile_mview B k) (plasma_tile_nview B k)
    alpha (plasma_tile_addr A k k) (plasma_tile_mmain A k)
    beta (plasma_tile_addr B k k) (plasma_tile_mmain B k).
Definition general_call `{PT : plasma_types_h} `{DH : plasma_descriptor_h}
    {scalar : Type} (transa : Z) (alpha : scalar) (A : plasma_desc_t)
    (beta : scalar) (B : plasma_desc_t) (m n : Z) : Pdtradd.call scalar :=
  Pdtradd.core_omp_dgeadd transa
    (plasma_tile_mview B m) (plasma_tile_nview B n)
    alpha
    (if transa =? PlasmaNoTrans
     then plasma_tile_addr A m n else plasma_tile_addr A n m)
    (if transa =? PlasmaNoTrans
     then plasma_tile_mmain A m else plasma_tile_mmain A n)
    beta (plasma_tile_addr B m n) (plasma_tile_mmain B m).

(** The calls of the lower and of the upper walk, column by column and row
    by row. *)
Definition lower_calls `{PT : plasma_types_h} `{DH : plasma_descriptor_h}
    {scalar : Type} (transa : Z) (alpha : scalar) (A : plasma_desc_t)
    (beta : scalar) (B : plasma_desc_t) : list (Pdtradd.call scalar) :=
  n ← range 0 (imin (D.mt B) (D.nt B));
  diagonal_call PlasmaLower transa alpha A beta B n
  :: ((fun m => general_call transa alpha A beta B m n)
      <$> range (n + 1) (D.mt B)).
Definition upper_calls `{PT : plasma_types_h} `{DH : plasma_descriptor_h}
    {scalar : Type} (transa : Z) (alpha : scalar) (A : plasma_desc_t)
    (beta : scalar) (B : plasma_desc_t) : list (Pdtradd.call scalar) :=
  m ← range 0 (imin (D.mt B) (D.nt B));
  diagonal_call PlasmaUpper transa alpha A beta B m
  :: ((fun n => general_call transa alpha A beta B m n)
      <$> range (m + 1) (D.nt B)).

(** The tiles of [B] a Q-application call works on, in the order of its
    arguments, and the tile of [A] holding its reflectors. *)
Definition b_tiles {W : Type} (c : Pzunmqrrh.call W) : list Z :=
  match c with
  | Pzunmqrrh.core_omp_zunmqr _ _ _ _ _ _ _ _ _ _ C _ _ => [C]
  | Pzunmqrrh.core_omp_zttmqr _ _ _ _ _ _ _ _ A1 _ A2 _ _ _ _ _ _ => [A1; A2]
  | Pzunmqrrh.core_omp_ztsmqr _ _ _ _ _ _ _ _ A1 _ A2 _ _ _ _ _ _ => [A1; A2]
  end.
Definition v_tile {W : Type} (c : Pzunmqrrh.call W) : Z :=
  match c with
  | Pzunmqrrh.core_omp_zunmqr _ _ _ _ _ _ A _ _ _ _ _ _ => A
  | Pzunmqrrh.core_omp_zttmqr _ _ _ _ _ _ _ _ _ _ _ _ V _ _ _ _ => V
  | Pzunmqrrh.core_omp_ztsmqr _ _ _ _ _ _ _ _ _ _ _ _ V _ _ _ _ => V
  end.

(** The extents a layout call passes. *)
Definition call_rows (c : Layout.call) : Z :=
  match c with
  | Layout.plasma_core_omp_dpack_blasfeo _ _ m _ _ _ _ _ => m
  | Layout.plasma_core_omp_dunpack_blasfeo _ _ m _ _ _ _ _ => m
  end.
Definition call_cols (c : Layout.call) : Z :=
  match c with
  | Layout.plasma_core_omp_dpack_blasfeo _ _ _ n _ _ _ _ => n
  | Layout.plasma_core_omp_dunpack_blasfeo _ _ _ n _ _ _ _ => n
  end.

(** Running task bodies one after the other, in the order of the list.
    The run time runs the tasks of a queue in the order of their
    submission only where their [depend] clauses name the same storage;
    statements on a queue in submission order carry [same_matrix], below,
    as a hypothesis, the others range over every order of the tasks. *)
Definition run_tasks {S : Type} (q : list (S -> S)) (st : S) : S :=
  foldl (fun acc t => t acc) st q.

(** The arguments of one call of [plasma_core_omp_dpotrf_blasfeo], with the
    kernel linked in at the time, and the queue a series of such calls
    builds. *)
Record dpotrf_call (blasfeo_dmat mem : Type) := {
  dc_core : Z -> Z -> blasfeo_dmat -> Z -> Z -> mem -> mem * Z;
  dc_uplo : Z;
  dc_n : Z;
  dc_sA : blasfeo_dmat;
  dc_ai : Z;
  dc_aj : Z;
  dc_iinfo : Z;
  dc_request : nat
}.
Arguments dc_core {blasfeo_dmat mem}.
Arguments dc_uplo {blasfeo_dmat mem}.
Arguments dc_n {blasfeo_dmat mem}.
Arguments dc_sA {blasfeo_dmat mem}.
Arguments dc_ai {blasfeo_dmat mem}.
Arguments dc_aj {blasfeo_dmat mem}.
Arguments dc_iinfo {blasfeo_dmat mem}.
Arguments dc_request {blasfeo_dmat mem}.

(** The task body one such call enqueues. *)
Definition task_of `{PT : plasma_types_h} {blasfeo_dmat mem : Type}
    (c : dpotrf_call blasfeo_dmat mem)
    : CoreDpotrf.task_state mem -> CoreDpotrf.task_state mem :=
  CoreDpotrf.dpotrf_task (dc_core c) (dc_uplo c) (dc_n c) (dc_sA c)
    (dc_ai c) (dc_aj c) (dc_iinfo c) (dc_request c).

Definition submit_dpotrf `{PT : plasma_types_h} {blasfeo_dmat mem : Type}
    (calls : list (dpotrf_call blasfeo_dmat mem))
    : list (CoreDpotrf.task_state mem -> CoreDpotrf.task_state mem) :=
  foldl (fun q c =>
           CoreDpotrf.plasma_core_omp_dpotrf_blasfeo (dc_core c)
             (dc_uplo c) (dc_n c) (dc_sA c) (dc_ai c) (dc_aj c)
             (dc_iinfo c) (dc_request c) q)
        [] calls.

(** The task of a call names the storage of its matrix in its clause
    [depend(inout:A[0:sda*n])], with [A = sA->pA] and [sda = sA->cn].
    Calls on one matrix [sA] with one [n] name the same storage, and their
    tasks run one after the other in the order of their submission; tasks
    on different matrices are not ordered. *)
Definition same_matrix {blasfeo_dmat mem : Type}
    (calls : list (dpotrf_call blasfeo_dmat mem)) : Prop :=
  forall c c', c ∈ calls -> c' ∈ calls ->
    dc_sA c = dc_sA c' /\ dc_n c = dc_n c'.

(** The descriptors a log of [PLASMA_zsyrk] shows destroyed, and those it
    shows created, [create] telling which creations succeeded. *)
Definition destroyed {call : Type} (log : list (Zsyrk.event call))
    : list plasma_desc_t :=
  e ← log;
  match e with Zsyrk.desc_destroy d => [d] | _ => [] end.
Definition created_ok `{PT : plasma_types_h} {call : Type}
    (create : Z -> Z -> Z -> Z -> Z -> Z -> Z -> Z -> Z -> Z * plasma_desc_t)
    (log : list (Zsyrk.event call)) : list plasma_desc_t :=
  e ← log;
  match e with
  | Zsyrk.desc_general_create precision mb nb lm ln i j m n =>
      let r := create precision mb nb lm ln i j m n in
      if fst r =? PlasmaSuccess then [snd r] else []
  | _ => []
  end.

(** The checks of [PLASMA_zsyrk], together: PLASMA initialized and every
    argument legal. *)
Definition zsyrk_arguments_ok `{PT : plasma_types_h}
    (plasma_context_self : option Z) (uplo trans n k lda ldc : Z) : Prop :=
  is_Some plasma_context_self /\
  (uplo = PlasmaUpper \/ uplo = PlasmaLower) /\
  (trans = PlasmaNoTrans \/ trans = PlasmaTrans) /\
  0 <= n /\ 0 <= k /\
  imax 1 (if trans =? PlasmaNoTrans then n else k) <= lda /\
  imax 1 n <= ldc.

(** The checks of [plasma_scamax], together. *)
Definition scamax_arguments_ok (PlasmaColumnwise PlasmaRowwise : Z)
    (plasma_context_self : option Z) (colrow m n lda : Z) : Prop :=
  is_Some plasma_context_self /\
  (colrow = PlasmaColumnwise \/ colrow = PlasmaRowwise) /\
  0 <= m /\ 0 <= n /\ imax 1 m <= lda.

(** ** Data for evaluating statements *)

(** Accessors for a matrix of full [mb]-by-[nb] tiles, each tile contiguous,
    the tiles in column-major order. *)
Definition sample_descriptor : plasma_descriptor_h :=
  {| plasma_tile_addr := fun A m n => D.mb A * D.nb A * (m + D.mt A * n);
     plasma_tile_mview := fun A _ => D.mb A;
     plasma_tile_nview := fun A _ => D.nb A;
     plasma_tile_mmain := fun A _ => D.mb A;
     plasma_tile_nmain := fun A _ => D.nb A |}.

(** A [gm]-by-[gn] matrix of [nb]-by-[nb] tiles, no offset. *)
Definition sample_desc (type nb mt nt : Z) : plasma_desc_t :=
  {| D.type := type; D.mb := nb; D.nb := nb; D.i := 0; D.j := 0;
     D.m := nb * mt; D.n := nb * nt; D.mt := mt; D.nt := nt |}.

(** Concrete sequences, descriptors, operation lists, kernels and
    collaborators. *)
Section SampleData.
#[local] Existing Instance sample_types.
#[local] Existing Instance sample_descriptor.

(** A sequence in success with nothing submitted, and a failed one. *)
Definition fresh {call : Type} : driver_state call :=
  {| async := sequenceInit; queue := [] |}.
Definition failed : async_t :=
  {| sequence_status := PlasmaErrorIllegalValue; request_status := ∅ |}.

Definition three_failures : list (nat * Z) :=
  [(1%nat, -5); (2%nat, -7); (3%nat, -9)].

Definition B33 : plasma_desc_t := sample_desc PlasmaLower 2 3 3.

Definition one_GE : Z -> Z -> list Pzunmqrrh.operation :=
  fun _ _ => [ {| Pzunmqrrh.op_kernel := PlasmaGEKernel; Pzunmqrrh.op_j := 0;
                  Pzunmqrrh.op_k := 0; Pzunmqrrh.op_kpiv := 0 |} ].

Definition op (kernel j k kpiv : Z) : Pzunmqrrh.operation :=
  {| Pzunmqrrh.op_kernel := kernel; Pzunmqrrh.op_j := j;
     Pzunmqrrh.op_k := k; Pzunmqrrh.op_kpiv := kpiv |}.

(** A 2-by-2 grid of 2-by-2 tiles for [A] and [B]; [T] has twice the tile
    columns. *)
Definition A22 : plasma_desc_t := sample_desc PlasmaGeneral 2 2 2.
Definition T24 : plasma_desc_t := sample_desc PlasmaGeneral 2 2 4.

(** A planner's list for the grid, and lists with a record of kind 99. *)
Definition tree_ops : list Pzunmqrrh.operation :=
  [op PlasmaGEKernel 0 0 0; op PlasmaGEKernel 0 1 1; op PlasmaTTKernel 0 1 0].
Definition bad_then_GE : list Pzunmqrrh.operation :=
  [op 99 0 0 0; op PlasmaGEKernel 0 1 1].

Definition run_unmqrrh (ops : list Pzunmqrrh.operation) (side trans : Z)
    : driver_state (Pzunmqrrh.call unit) :=
  Pzunmqrrh.plasma_pzunmqrrh (fun _ _ => ops) side trans A22 T24 A22 tt 7%nat fresh.

Definition L22 : plasma_desc_t := sample_desc PlasmaLower 2 2 2.
Definition G12 : plasma_desc_t := sample_desc PlasmaGeneral 2 1 2.

(** A kernel that reports [info = 3], and BLASFEO's routine as a counter of
    its calls. *)
Definition core_reports_3 (uplo n : Z) (sA : unit) (ai aj : Z) (mu : Z) : Z * Z :=
  (mu + 1, 3).
Definition blasfeo_counts (n : Z) (sC : unit) (ci cj : Z) (sD : unit) (di dj : Z)
    (mu : Z) : Z :=
  mu + 1.

(** Scalars as integers; collaborators that each submit one task and
    succeed. *)
Definition submit_one : driver_state unit -> driver_state unit := dispatch tt.
Definition created (precision mb nb lm ln i j m n : Z) : Z * plasma_desc_t :=
  (PlasmaSuccess,
   {| D.type := PlasmaGeneral; D.mb := mb; D.nb := nb; D.i := i; D.j := j;
      D.m := m; D.n := n; D.mt := Z.quot (m + mb - 1) mb;
      D.nt := Z.quot (n + nb - 1) nb |}).

Definition sample_PLASMA_zsyrk :=
  Zsyrk.PLASMA_zsyrk (fun z => z =? 0) (fun z => z =? 1) (Some 2)
    (fun _ => PlasmaSuccess) (fun _ _ _ _ _ _ _ => submit_one)
    (fun _ _ _ _ => submit_one) (fun _ _ _ _ => submit_one)
    created PlasmaSuccess async.
Definition sample_plasma_omp_zsyrk :=
  Zsyrk.plasma_omp_zsyrk (fun z => z =? 0) (fun z => z =? 1) (Some 2)
    (fun _ => PlasmaSuccess) (fun _ _ _ _ _ _ _ => submit_one).

End SampleData.

(** Further data: rectangular grids, a view that starts inside its first
    tile, Cholesky calls, and collaborators for [plasma_scamax] and
    [PLASMA_zgelqs]. *)
Section SampleRuns.
#[local] Existing Instance sample_types.
#[local] Existing Instance sample_descriptor.

Definition B23 : plasma_desc_t := sample_desc PlasmaUpper 2 2 3.
Definition L32 : plasma_desc_t := sample_desc PlasmaLower 2 3 2.
Definition offset_view : plasma_desc_t :=
  {| D.type := PlasmaGeneral; D.mb := 2; D.nb := 2; D.i := 1; D.j := 1;
     D.m := 4; D.n := 3; D.mt := 3; D.nt := 2 |}.

(** Tiles that are not square. *)
Definition tall_tiles : plasma_desc_t :=
  {| D.type := PlasmaGeneral; D.mb := 3; D.nb := 2; D.i := 0; D.j := 0;
     D.m := 6; D.n := 4; D.mt := 2; D.nt := 2 |}.

(** One call whose kernel reports [info = 3] and one with the kernel of the
    repository. *)
Definition failing_call : dpotrf_call unit Z :=
  {| dc_core := core_reports_3; dc_uplo := PlasmaLower; dc_n := 2;
     dc_sA := tt; dc_ai := 0; dc_aj := 0; dc_iinfo := 10;
     dc_request := 7%nat |}.
Definition plain_call : dpotrf_call unit Z :=
  {| dc_core := CoreDpotrf.plasma_core_dpotrf_blasfeo blasfeo_counts;
     dc_uplo := PlasmaLower; dc_n := 2;
     dc_sA := tt; dc_ai := 0; dc_aj := 0; dc_iinfo := 20;
     dc_request := 5%nat |}.

(** [plasma_scamax] with [PlasmaColumnwise = 301], [PlasmaRowwise = 302],
    tiles of size 2, over the allocator given. *)
Definition sample_plasma_scamax (malloc : Z -> option Z) :=
  Scamax.plasma_scamax 301 302 (-104) 3 (Some 2) (fun _ => PlasmaSuccess)
    created malloc (fun _ _ _ _ => submit_one) (fun _ _ _ _ _ => submit_one)
    async.
Definition sample_plasma_omp_scamax :=
  Scamax.plasma_omp_scamax 301 302 (Some 2) (fun _ => PlasmaSuccess)
    (fun _ _ _ _ _ => submit_one).

(** [PLASMA_zgelqs] with [PLASMA_SUCCESS = 0], scalars as integers, over
    the context, the outcome of [plasma_fatal_error] and the first
    translation given; then with tiles of size 2 and a
    [plasma_fatal_error] that returns. *)
Definition sample_desc_init (dtyp mb nb bsiz lm ln i j m n : Z)
    : plasma_desc_t :=
  snd (created dtyp mb nb lm ln i j m n).
Definition sample_PLASMA_zgelqs_in (plasma_context_self : option Z)
    (plasma_fatal_error : option unit)
    (translate : driver_state unit -> driver_state unit) :=
  Zgelqs.PLASMA_zgelqs 0 (-101) (-102) (-104) 131 1 plasma_context_self
    plasma_fatal_error (fun _ => 0)
    sample_desc_init (fun _ => 0) (fun A _ _ _ _ => A) 0
    (fun _ _ _ _ => translate) (fun _ _ _ _ => submit_one)
    (fun _ _ _ _ _ _ _ _ => submit_one) (fun _ _ _ _ _ _ => submit_one)
    async.
Definition sample_PLASMA_zgelqs
    (translate : driver_state unit -> driver_state unit) :=
  sample_PLASMA_zgelqs_in (Some 2) (Some tt) translate.
Definition sample_PLASMA_zgelqs_Tile_Async :=
  Zgelqs.PLASMA_zgelqs_Tile_Async 0 (-102) (-104) 131 1 (Some 2) (fun _ => 0)
    (fun A _ _ _ _ => A)
    (fun _ _ _ _ _ _ _ _ => submit_one) (fun _ _ _ _ _ _ => submit_one).
Definition sample_zgelqs_region
    (translate : driver_state unit -> driver_state unit) :=
  Zgelqs.zgelqs_region 0 (-102) (-104) 131 1 (Some 2) (fun _ => 0)
    (fun A _ _ _ _ => A)
    (fun _ _ _ _ => translate) (fun _ _ _ _ => submit_one)
    (fun _ _ _ _ _ _ _ _ => submit_one) (fun _ _ _ _ _ _ => submit_one).

(** [PLASMA_zsyrk] as above, over the outcome of creating the sequence. *)
Definition sample_PLASMA_zsyrk_with (plasma_sequence_create : Z) :=
  Zsyrk.PLASMA_zsyrk (fun z => z =? 0) (fun z => z =? 1) (Some 2)
    (fun _ => PlasmaSuccess) (fun _ _ _ _ _ _ _ => submit_one)
    (fun _ _ _ _ => submit_one) (fun _ _ _ _ => submit_one)
    created plasma_sequence_create async.

(** A translation that fails the sequence instead of submitting. *)
Definition translation_fails : driver_state unit -> driver_state unit :=
  request_fail 0%nat (-102).

(** A 3-by-3 matrix with its elements numbered column by column, and an
    array for its band storage. *)
Definition numbered : CArray.array Z := [1; 2; 3; 4; 5; 6; 7; 8; 9].
Definition unset : CArray.array Z := replicate 18 (-1).

End SampleRuns.

(** * Verification *)

(** ** Loops and queues *)

Lemma for_loop_foldl {S : Type} (body : Z -> S -> S) (hi : Z) :
  forall (fuel : nat) (v : Z) (s : S),
    fuel = Z.to_nat (hi - v) ->
    for_loop fuel v hi body s
    = foldl (fun acc k => body k acc) s (seqZ v (hi - v)).
Proof.
  induction fuel as [|fuel IH]; intros v s Hf; simpl.
  - rewrite seqZ_nil by lia. reflexivity.
  - destruct (Z.ltb_spec v hi) as [Hlt|Hge]; [|lia].
    rewrite (seqZ_cons v (hi - v)) by lia. simpl.
    rewrite IH by lia. f_equal. f_equal. lia.
Qed.

Lemma for_range_foldl {S : Type} (body : Z -> S -> S) (lo hi : Z) (s : S) :
  for_range lo hi body s = foldl (fun acc k => body k acc) s (seqZ lo (hi - lo)).
Proof. unfold for_range. apply for_loop_foldl. reflexivity. Qed.

(** The entry test of a driver, on a failed sequence and on one in
    success. *)
Ltac entry_failed Hs :=
  match goal with
  | |- context [sequence_status (async ?s) =? PlasmaSuccess] =>
      destruct (Z.eqb_spec (sequence_status (async s)) PlasmaSuccess);
      [congruence | reflexivity]
  end.
Ltac entry_success Hs :=
  rewrite Hs, ?Z.eqb_refl; simpl negb; cbv iota.

Lemma emit_nil {call : Type} (s : driver_state call) : emit [] s = s.
Proof. destruct s as [a q]. unfold emit. simpl. rewrite app_nil_r. reflexivity. Qed.

Lemma emit_emit {call : Type} (l1 l2 : list call) (s : driver_state call) :
  emit l2 (emit l1 s) = emit (l1 ++ l2) s.
Proof. unfold emit. simpl. rewrite app_assoc. reflexivity. Qed.

Lemma dispatch_emit {call : Type} (c : call) (s : driver_state call) :
  dispatch c s = emit [c] s.
Proof. reflexivity. Qed.

Lemma new_calls_emit {call : Type} (l : list call) (s : driver_state call) :
  new_calls s (emit l s) = l.
Proof. unfold new_calls, emit. simpl. apply drop_app_length. Qed.

Lemma new_calls_same {call : Type} (s s' : driver_state call) :
  queue s' = queue s -> new_calls s s' = [].
Proof. intros E. unfold new_calls. rewrite E. apply drop_all. Qed.

Lemma foldl_emit {call : Type} (g : Z -> list call)
    (body : Z -> driver_state call -> driver_state call) (l : list Z) :
  (forall k s, body k s = emit (g k) s) ->
  forall s, foldl (fun acc k => body k acc) s l = emit (l ≫= g) s.
Proof.
  intros Hb. induction l as [|k l IH]; intros s; simpl.
  - symmetry. apply emit_nil.
  - rewrite IH, Hb, emit_emit. reflexivity.
Qed.

(** A loop whose body submits the batch [g k] submits the batches in
    order. *)
Lemma for_range_emit {call : Type} (g : Z -> list call)
    (body : Z -> driver_state call -> driver_state call) (lo hi : Z)
    (s : driver_state call) :
  (forall k s, body k s = emit (g k) s) ->
  for_range lo hi body s = emit (range lo hi ≫= g) s.
Proof.
  intros Hb. rewrite for_range_foldl. apply foldl_emit. exact Hb.
Qed.

(** A loop whose body submits one call. *)
Lemma for_range_dispatch {call : Type} (f : Z -> call)
    (body : Z -> driver_state call -> driver_state call) (lo hi : Z)
    (s : driver_state call) :
  (forall k s, body k s = dispatch (f k) s) ->
  for_range lo hi body s = emit (f <$> range lo hi) s.
Proof.
  intros Hb. rewrite (for_range_emit (fun k => [f k])) by exact Hb.
  reflexivity.
Qed.

(** ** Sequence and request status *)

Section AsyncFacts.
Context `{PT : plasma_types_h}.

Lemma request_fail_sticky (r : nat) (c : Z) (a : async_t) :
  sequence_status a <> PlasmaSuccess ->
  sequence_status (plasma_request_fail r c a) = sequence_status a.
Proof.
  intros H. simpl. destruct (Z.eqb_spec (sequence_status a) PlasmaSuccess); congruence.
Qed.

Lemma request_fail_first (r : nat) (c : Z) (a : async_t) :
  sequence_status a = PlasmaSuccess ->
  sequence_status (plasma_request_fail r c a) = c.
Proof. intros H. simpl. rewrite H, Z.eqb_refl. reflexivity. Qed.

Lemma request_fail_request (r : nat) (c : Z) (a : async_t) :
  request_status (plasma_request_fail r c a) !! r = Some c.
Proof. simpl. apply lookup_insert_eq. Qed.

Lemma requestFail_all_cons (r : nat) (c : Z) (calls : list (nat * Z)) (a : async_t) :
  requestFail_all ((r, c) :: calls) a
  = requestFail_all calls (plasma_request_fail r c a).
Proof. reflexivity. Qed.

Lemma requestFail_all_sticky (calls : list (nat * Z)) :
  forall a, sequence_status a <> PlasmaSuccess ->
    sequence_status (requestFail_all calls a) = sequence_status a.
Proof.
  induction calls as [|[r c] calls IH]; intros a H; [reflexivity|].
  rewrite requestFail_all_cons, IH.
  - apply request_fail_sticky. exact H.
  - rewrite request_fail_sticky by exact H. exact H.
Qed.

(** C1. [requestFail] records the code on its request.  On a sequence
    that is still in success it moves the sequence status to the code; on
    a sequence that has failed it leaves the sequence status alone.  Hence
    any finite collection of calls with error codes, in whatever order they
    take effect, leaves a sequence that started in success with the code
    of exactly one of the calls (the first to take effect), which is not
    success; with distinct codes that call is the only one carrying it.
    Further calls never change the status again. *)
Theorem requestFail_first_failure_wins (calls : list (nat * Z)) (a : async_t) :
  (forall rc, rc ∈ calls -> snd rc <> PlasmaSuccess) ->
  (forall r c, request_status (plasma_request_fail r c a) !! r = Some c) /\
  (forall r c, sequence_status a = PlasmaSuccess ->
     sequence_status (plasma_request_fail r c a) = c) /\
  (sequence_status a <> PlasmaSuccess ->
     sequence_status (requestFail_all calls a) = sequence_status a) /\
  (sequence_status a = PlasmaSuccess -> calls <> [] ->
     sequence_status (requestFail_all calls a) <> PlasmaSuccess /\
     (exists r, calls !! 0%nat = Some (r, sequence_status (requestFail_all calls a))) /\
     (NoDup (snd <$> calls) ->
      forall i rc, calls !! i = Some rc ->
        snd rc = sequence_status (requestFail_all calls a) -> i = 0%nat) /\
     (forall more, (forall rc, rc ∈ more -> snd rc <> PlasmaSuccess) ->
        sequence_status (requestFail_all more (requestFail_all calls a))
        = sequence_status (requestFail_all calls a))).
Proof.
  intros Hcodes. split; [|split; [|split]].
  - intros r c. apply request_fail_request.
  - intros r c. apply request_fail_first.
  - apply requestFail_all_sticky.
  - intros Ha Hne. destruct calls as [|[r c] calls]; [congruence|].
    assert (Hc : c <> PlasmaSuccess).
    { apply (Hcodes (r, c)). left. }
    assert (Hfinal : sequence_status (requestFail_all ((r, c) :: calls) a) = c).
    { rewrite requestFail_all_cons, (requestFail_all_sticky calls).
      - apply request_fail_first. exact Ha.
      - rewrite request_fail_first by exact Ha. exact Hc. }
    rewrite Hfinal. split; [exact Hc|]. split; [|split].
    + exists r. reflexivity.
    + intros Hnd i rc Hi Hrc. destruct i as [|i]; [reflexivity|].
      exfalso. simpl in Hnd. apply NoDup_cons in Hnd as [Hnotin _].
      apply Hnotin. simpl in Hi. rewrite <- Hrc.
      apply list_elem_of_fmap. exists rc. split; [reflexivity|].
      apply list_elem_of_lookup. exists i. exact Hi.
    + intros more _. rewrite requestFail_all_sticky; rewrite Hfinal; [reflexivity|exact Hc].
Qed.

End AsyncFacts.

(** ** The triangular-add walk *)

Section PdtraddFacts.
Context `{PT : plasma_types_h} `{DH : plasma_descriptor_h}.
Context {scalar : Type}.
Import Pdtradd.

(** C5. For [uplo = PlasmaLower], on a sequence in success, the driver
    submits, for each column [n = 0 .. min(B.mt, B.nt) - 1] in turn, one
    [core_omp_dtradd] on the diagonal pair [A(n,n)], [B(n,n)], then one
    [core_omp_dgeadd] for every row [m] with [n < m < B.mt], writing
    [B(m,n)]; the source of the general add is [A(m,n)] with the leading
    dimension of [A]'s row-tile [m] when [transa = PlasmaNoTrans], and the
    transposed address [A(n,m)] with the leading dimension of [A]'s row-tile
    [n] otherwise.  Nothing else is submitted. *)
Theorem pdtradd_lower_walk (transa : Z) (alpha beta : scalar)
    (A B : plasma_desc_t) (s : driver_state (call scalar)) :
  sequence_status (async s) = PlasmaSuccess ->
  plasma_pdtradd PlasmaLower transa alpha A beta B s
  = emit (n ← range 0 (imin (D.mt B) (D.nt B));
          core_omp_dtradd PlasmaLower transa
            (plasma_tile_mview B n) (plasma_tile_nview B n)
            alpha (plasma_tile_addr A n n) (plasma_tile_mmain A n)
            beta (plasma_tile_addr B n n) (plasma_tile_mmain B n)
          :: ((fun m =>
                 core_omp_dgeadd transa
                   (plasma_tile_mview B m) (plasma_tile_nview B n)
                   alpha
                   (if transa =? PlasmaNoTrans
                    then plasma_tile_addr A m n else plasma_tile_addr A n m)
                   (if transa =? PlasmaNoTrans
                    then plasma_tile_mmain A m else plasma_tile_mmain A n)
                   beta (plasma_tile_addr B m n) (plasma_tile_mmain B m))
              <$> range (n + 1) (D.mt B))) s.
Proof.
  intros Hs. unfold plasma_pdtradd.
  entry_success Hs.
  destruct (transa =? PlasmaNoTrans) eqn:Et.
  - apply for_range_emit. intros n s'. cbv zeta.
    erewrite for_range_dispatch by (intros; reflexivity).
    rewrite dispatch_emit, emit_emit. reflexivity.
  - apply for_range_emit. intros n s'. cbv zeta.
    erewrite for_range_dispatch by (intros; reflexivity).
    rewrite dispatch_emit, emit_emit. reflexivity.
Qed.

Lemma pdtradd_failed (uplo transa : Z) (alpha beta : scalar)
    (A B : plasma_desc_t) (s : driver_state (call scalar)) :
  sequence_status (async s) <> PlasmaSuccess ->
  plasma_pdtradd uplo transa alpha A beta B s = s.
Proof.
  intros Hs. unfold plasma_pdtradd. entry_failed Hs.
Qed.

End PdtraddFacts.

(** ** The tree-reduction Q-application walk *)

Section PzunmqrrhFacts.
Context `{PT : plasma_types_h} `{DH : plasma_descriptor_h}.
Context {plasma_workspace_t : Type}.
Import Pzunmqrrh.

Implicit Types (A T B : plasma_desc_t) (op : operation) (ops : list operation).
Implicit Types (s : driver_state (call plasma_workspace_t)).

Lemma foldl_ext_in {X Y : Type} (f g : Y -> X -> Y) (l : list X) :
  (forall y x, x ∈ l -> f y x = g y x) ->
  forall y, foldl f y l = foldl g y l.
Proof.
  induction l as [|x l IH]; intros H y; simpl; [reflexivity|].
  rewrite H by left. apply IH. intros y' x' Hx'. apply H. right. exact Hx'.
Qed.

Lemma foldl_seqZ_nat {Y : Type} (f : Y -> Z -> Y) (n : nat) (y : Y) :
  foldl f y (seqZ 0 (Z.of_nat n))
  = foldl (fun acc i => f acc (Z.of_nat i)) y (seq 0 n).
Proof.
  unfold seqZ. rewrite Nat2Z.id. generalize 0%nat as b. revert y.
  induction n as [|n IH]; intros y b; simpl; [reflexivity|].
  rewrite IH. f_equal. f_equal. lia.
Qed.

Lemma consume_from (body : operation -> driver_state (call plasma_workspace_t)
                           -> driver_state (call plasma_workspace_t)) :
  forall l2 l1 s,
    foldl (fun acc i => operation_at (l1 ++ l2) (Z.of_nat i) body acc) s
      (seq (length l1) (length l2))
    = foldl (fun acc op => body op acc) s l2.
Proof.
  induction l2 as [|x l2 IH]; intros l1 s; simpl; [reflexivity|].
  unfold operation_at at 2. rewrite Nat2Z.id, list_lookup_middle by reflexivity.
  specialize (IH (l1 ++ [x]) (body x s)).
  rewrite <- app_assoc, length_app in IH. simpl in IH.
  rewrite Nat.add_1_r in IH. exact IH.
Qed.

(** Index [iop] for [iop = 0 .. noperations-1] reads the list front to
    back. *)
Lemma consume_forward body ops s :
  foldl (fun acc iop => operation_at ops iop body acc) s
    (seqZ 0 (Z.of_nat (length ops)))
  = foldl (fun acc op => body op acc) s ops.
Proof.
  rewrite foldl_seqZ_nat. apply (consume_from body ops [] s).
Qed.

(** Index [noperations - 1 - iop] reads it back to front. *)
Lemma consume_backward body ops s :
  foldl (fun acc iop =>
           operation_at ops (Z.of_nat (length ops) - 1 - iop) body acc) s
    (seqZ 0 (Z.of_nat (length ops)))
  = foldl (fun acc op => body op acc) s (reverse ops).
Proof.
  rewrite <- (consume_forward body (reverse ops)), length_reverse.
  apply foldl_ext_in. intros acc iop Hin.
  apply elem_of_seqZ in Hin. unfold operation_at.
  rewrite (reverse_lookup ops (Z.to_nat iop)) by lia.
  replace (Z.to_nat (Z.of_nat (length ops) - 1 - iop))
    with (length ops - Datatypes.S (Z.to_nat iop))%nat by lia.
  reflexivity.
Qed.

(** On a sequence in success the driver is a fold of the loop body over
    the operation list, taken in traversal order. *)
Lemma pzunmqrrh_fold (planner : Z -> Z -> list operation) (side trans : Z)
    A T B (work : plasma_workspace_t) (request : nat) s :
  sequence_status (async s) = PlasmaSuccess ->
  plasma_pzunmqrrh planner side trans A T B work request s
  = foldl (fun acc op => operation_body side trans A T B work request op acc) s
      (traversal side trans (planner (D.mt A) (D.nt A))).
Proof.
  intros Hs. unfold plasma_pzunmqrrh, traversal, operation_body.
  entry_success Hs. cbv zeta.
  destruct (side =? PlasmaLeft); destruct (trans =? Plasma_ConjTrans);
    rewrite for_range_foldl, Z.sub_0_r;
    first [apply consume_forward | apply consume_backward].
Qed.

(** One record: the queue grows by the record's calls, whatever the status
    words hold; the status words change only for a kind the driver does not
    know. *)
Lemma operation_body_step (side trans : Z) A T B
    (work : plasma_workspace_t) (request : nat) op s :
  operation_body side trans A T B work request op s
  = {| async := if recognized (op_kernel op) then async s
                else plasma_request_fail request PlasmaErrorIllegalValue (async s);
       queue := queue s ++ operation_calls side trans A T B work op |}.
Proof.
  unfold operation_calls, operation_body, recognized,
    left_operation, right_operation.
  destruct (side =? PlasmaLeft); cbv zeta;
    destruct (op_kernel op =? PlasmaGEKernel);
    [| destruct (op_kernel op =? PlasmaTTKernel);
       [| destruct (op_kernel op =? PlasmaTSKernel)] | |
       destruct (op_kernel op =? PlasmaTTKernel);
       [| destruct (op_kernel op =? PlasmaTSKernel)]];
    simpl orb; cbv iota;
    try (erewrite !for_range_dispatch by (intros; reflexivity); reflexivity);
    unfold request_fail; simpl; rewrite app_nil_r; reflexivity.
Qed.

Lemma operation_calls_unrecognized (side trans : Z) A T B
    (work : plasma_workspace_t) op :
  recognized (op_kernel op) = false ->
  operation_calls side trans A T B work op = [].
Proof.
  unfold operation_calls, operation_body, recognized,
    left_operation, right_operation.
  intros H. apply orb_false_elim in H as [H H3].
  apply orb_false_elim in H as [H1 H2].
  rewrite H1, H2, H3. destruct (side =? PlasmaLeft); reflexivity.
Qed.

Lemma fold_operation_body_queue (side trans : Z) A T B
    (work : plasma_workspace_t) (request : nat) (l : list operation) :
  forall s,
    queue (foldl (fun acc op =>
                    operation_body side trans A T B work request op acc) s l)
    = queue s ++ (op ← l; operation_calls side trans A T B work op).
Proof.
  induction l as [|op l IH]; intros s; simpl.
  - rewrite app_nil_r. reflexivity.
  - rewrite IH, operation_body_step. simpl. rewrite app_assoc. reflexivity.
Qed.

Lemma operation_calls_length (side trans : Z) A T B
    (work : plasma_workspace_t) op :
  recognized (op_kernel op) = true ->
  length (operation_calls side trans A T B work op)
  = Z.to_nat (if side =? PlasmaLeft then D.nt B else D.mt B).
Proof.
  unfold operation_calls, operation_body, recognized,
    left_operation, right_operation.
  intros H. destruct (side =? PlasmaLeft); cbv zeta;
    destruct (op_kernel op =? PlasmaGEKernel);
    [| destruct (op_kernel op =? PlasmaTTKernel);
       [| destruct (op_kernel op =? PlasmaTSKernel); [|discriminate H]] | |
       destruct (op_kernel op =? PlasmaTTKernel);
       [| destruct (op_kernel op =? PlasmaTSKernel); [|discriminate H]]];
    erewrite !for_range_dispatch by (intros; reflexivity);
    simpl; rewrite length_fmap; unfold range; rewrite length_seqZ;
    f_equal; lia.
Qed.

Lemma operation_calls_GE (side trans : Z) A T B (work : plasma_workspace_t) op :
  op_kernel op = PlasmaGEKernel ->
  Forall (fun c => is_zunmqr c = true /\
                   aux_tile c = plasma_tile_addr T (op_k op) (op_j op))
    (operation_calls side trans A T B work op).
Proof.
  intros H. unfold operation_calls, operation_body, left_operation, right_operation.
  rewrite H, Z.eqb_refl. cbv zeta iota.
  destruct (side =? PlasmaLeft);
    erewrite !for_range_dispatch by (intros; reflexivity);
    simpl; apply Forall_fmap, Forall_forall; intros; split; reflexivity.
Qed.

Lemma operation_calls_TT (side trans : Z) A T B (work : plasma_workspace_t) op :
  op_kernel op = PlasmaTTKernel ->
  Forall (fun c => is_zttmqr c = true /\
                   aux_tile c = T2 T (op_k op) (op_j op))
    (operation_calls side trans A T B work op).
Proof.
  intros H. unfold operation_calls, operation_body, left_operation, right_operation.
  rewrite H, Z.eqb_refl.
  destruct (Z.eqb_spec PlasmaTTKernel PlasmaGEKernel) as [E|_];
    [exfalso; apply GE_ne_TT; congruence|].
  cbv zeta iota.
  destruct (side =? PlasmaLeft);
    erewrite !for_range_dispatch by (intros; reflexivity);
    simpl; apply Forall_fmap, Forall_forall; intros; split; reflexivity.
Qed.

Lemma operation_calls_TS (side trans : Z) A T B (work : plasma_workspace_t) op :
  op_kernel op = PlasmaTSKernel ->
  Forall (fun c => is_ztsmqr c = true /\
                   aux_tile c = T2 T (op_k op) (op_j op))
    (operation_calls side trans A T B work op).
Proof.
  intros H. unfold operation_calls, operation_body, left_operation, right_operation.
  rewrite H, Z.eqb_refl.
  destruct (Z.eqb_spec PlasmaTSKernel PlasmaGEKernel) as [E|_];
    [exfalso; apply GE_ne_TS; congruence|].
  destruct (Z.eqb_spec PlasmaTSKernel PlasmaTTKernel) as [E|_];
    [exfalso; apply TT_ne_TS; congruence|].
  cbv zeta iota.
  destruct (side =? PlasmaLeft);
    erewrite !for_range_dispatch by (intros; reflexivity);
    simpl; apply Forall_fmap, Forall_forall; intros; split; reflexivity.
Qed.

(** The status words along the walk. *)
Lemma fold_operation_body_failed (side trans : Z) A T B
    (work : plasma_workspace_t) (request : nat) (l : list operation) :
  forall s,
    sequence_status (async s) <> PlasmaSuccess ->
    sequence_status
      (async (foldl (fun acc op =>
                       operation_body side trans A T B work request op acc) s l))
    = sequence_status (async s).
Proof.
  induction l as [|op l IH]; intros s Hs; simpl; [reflexivity|].
  assert (E : sequence_status
                (async (operation_body side trans A T B work request op s))
              = sequence_status (async s)).
  { rewrite operation_body_step. cbn [async].
    destruct (recognized (op_kernel op)); [reflexivity|].
    apply request_fail_sticky. exact Hs. }
  rewrite IH; rewrite E; [reflexivity|exact Hs].
Qed.

Lemma fold_operation_body_unrecognized (side trans : Z) A T B
    (work : plasma_workspace_t) (request : nat) (l : list operation) op :
  op ∈ l -> recognized (op_kernel op) = false ->
  forall s,
    sequence_status (async s) = PlasmaSuccess ->
    sequence_status
      (async (foldl (fun acc op =>
                       operation_body side trans A T B work request op acc) s l))
    = PlasmaErrorIllegalValue.
Proof.
  intros Hin Hbad. induction l as [|x l IH]; intros s Hs; [inversion Hin|].
  simpl. destruct (recognized (op_kernel x)) eqn:Ex.
  - assert (Hl : op ∈ l).
    { apply elem_of_cons in Hin as [->|Hl]; [congruence|exact Hl]. }
    apply (IH Hl). rewrite operation_body_step. cbn [async].
    rewrite Ex. exact Hs.
  - assert (E : sequence_status
                  (async (operation_body side trans A T B work request x s))
                = PlasmaErrorIllegalValue).
    { rewrite operation_body_step. cbn [async]. rewrite Ex.
      apply request_fail_first. exact Hs. }
    rewrite fold_operation_body_failed; rewrite E;
      [reflexivity|apply IllegalValue_is_error].
Qed.

Lemma fold_operation_body_request_kept (side trans : Z) A T B
    (work : plasma_workspace_t) (request : nat) (l : list operation) :
  forall s,
    request_status (async s) !! request = Some PlasmaErrorIllegalValue ->
    request_status
      (async (foldl (fun acc op =>
                       operation_body side trans A T B work request op acc) s l))
    !! request = Some PlasmaErrorIllegalValue.
Proof.
  induction l as [|op l IH]; intros s Hs; simpl; [exact Hs|].
  apply IH. rewrite operation_body_step. cbn [async].
  destruct (recognized (op_kernel op)); [exact Hs|].
  apply request_fail_request.
Qed.

Lemma fold_operation_body_request (side trans : Z) A T B
    (work : plasma_workspace_t) (request : nat) (l : list operation) op :
  op ∈ l -> recognized (op_kernel op) = false ->
  forall s,
    request_status
      (async (foldl (fun acc op =>
                       operation_body side trans A T B work request op acc) s l))
    !! request = Some PlasmaErrorIllegalValue.
Proof.
  intros Hin Hbad. induction l as [|x l IH]; intros s; [inversion Hin|].
  simpl. destruct (recognized (op_kernel x)) eqn:Ex.
  - apply IH. apply elem_of_cons in Hin as [->|Hl]; [congruence|exact Hl].
  - apply fold_operation_body_request_kept.
    rewrite operation_body_step. cbn [async]. rewrite Ex.
    apply request_fail_request.
Qed.

Lemma elem_of_traversal (side trans : Z) ops op :
  op ∈ traversal side trans ops <-> op ∈ ops.
Proof.
  unfold traversal.
  destruct (side =? PlasmaLeft); destruct (trans =? Plasma_ConjTrans);
    rewrite ?elem_of_reverse; reflexivity.
Qed.

(** Entered on a failed sequence the driver records
    [PlasmaErrorSequence] on its request and returns. *)
Lemma pzunmqrrh_failed (planner : Z -> Z -> list operation) (side trans : Z)
    A T B (work : plasma_workspace_t) (request : nat) s :
  sequence_status (async s) <> PlasmaSuccess ->
  plasma_pzunmqrrh planner side trans A T B work request s
  = request_fail request PlasmaErrorSequence s.
Proof.
  intros Hs. unfold plasma_pzunmqrrh. entry_failed Hs.
Qed.

(** C6. On a sequence in success the driver consumes the operation list
    as follows: from the left with [trans = Plasma_ConjTrans], front to back
    (index [iop]); from the left with any other [trans] (no transpose), back
    to front (index [noperations-1-iop]); from the right it is the other way
    round, back to front with [Plasma_ConjTrans] and front to back
    otherwise. *)
Theorem pzunmqrrh_traversal_order (planner : Z -> Z -> list operation)
    (side trans : Z) A T B (work : plasma_workspace_t) (request : nat) s :
  sequence_status (async s) = PlasmaSuccess ->
  let ops := planner (D.mt A) (D.nt A) in
  let run := plasma_pzunmqrrh planner side trans A T B work request s in
  let left := fun acc op => left_operation side trans A T B work request op acc in
  let right := fun acc op => right_operation side trans A T B work request op acc in
  (side = PlasmaLeft -> trans = Plasma_ConjTrans -> run = foldl left s ops) /\
  (side = PlasmaLeft -> trans <> Plasma_ConjTrans ->
     run = foldl left s (reverse ops)) /\
  (side <> PlasmaLeft -> trans = Plasma_ConjTrans ->
     run = foldl right s (reverse ops)) /\
  (side <> PlasmaLeft -> trans <> Plasma_ConjTrans -> run = foldl right s ops).
Proof.
  intros Hs ops run left right. subst run.
  rewrite (pzunmqrrh_fold planner side trans A T B work request s Hs).
  fold ops. unfold traversal, operation_body.
  split; [|split; [|split]]; intros Hside Htrans.
  - subst side trans. rewrite !Z.eqb_refl. reflexivity.
  - subst side. rewrite Z.eqb_refl.
    destruct (Z.eqb_spec trans Plasma_ConjTrans); [congruence|]. reflexivity.
  - subst trans. rewrite Z.eqb_refl.
    destruct (Z.eqb_spec side PlasmaLeft); [congruence|]. reflexivity.
  - destruct (Z.eqb_spec side PlasmaLeft); [congruence|].
    destruct (Z.eqb_spec trans Plasma_ConjTrans); [congruence|]. reflexivity.
Qed.

(** C3, as the code has it.  The driver reads the sequence status on entry
    only.  Entered on a sequence in success, it is its loop body iterated
    over the operation list in traversal order, and the loop body, started
    in any state at all (the sequence failed or not, by this driver or by
    a task that ran meanwhile), submits the calls of every record it is
    given.  So the driver submits the calls of every record, whatever has
    happened to the sequence in the meantime: a record of a kind the driver
    does not know submits nothing and fails the sequence, and every record
    of kind GE, TT or TS, before or after it, submits its full row of
    calls, one per column tile of [B] from the left, one per row tile of
    [B] from the right. *)
Theorem pzunmqrrh_dispatch_ignores_failure (planner : Z -> Z -> list operation)
    (side trans : Z) A T B (work : plasma_workspace_t) (request : nat) s :
  sequence_status (async s) = PlasmaSuccess ->
  let body := fun acc op =>
    operation_body side trans A T B work request op acc in
  plasma_pzunmqrrh planner side trans A T B work request s
  = foldl body s (traversal side trans (planner (D.mt A) (D.nt A))) /\
  (forall (l : list operation) s0,
     new_calls s0 (foldl body s0 l)
     = (op ← l; operation_calls side trans A T B work op)) /\
  new_calls s (plasma_pzunmqrrh planner side trans A T B work request s)
  = (op ← traversal side trans (planner (D.mt A) (D.nt A));
     operation_calls side trans A T B work op) /\
  (forall op, recognized (op_kernel op) = true ->
     length (operation_calls side trans A T B work op)
     = Z.to_nat (if side =? PlasmaLeft then D.nt B else D.mt B)) /\
  (forall op, recognized (op_kernel op) = false ->
     operation_calls side trans A T B work op = []).
Proof.
  intros Hs body.
  assert (Hany : forall (l : list operation) s0,
            new_calls s0 (foldl body s0 l)
            = (op ← l; operation_calls side trans A T B work op)).
  { intros l s0. unfold new_calls, body. rewrite fold_operation_body_queue.
    apply drop_app_length. }
  split; [apply pzunmqrrh_fold; exact Hs|].
  split; [exact Hany|]. split; [|split].
  - rewrite pzunmqrrh_fold by exact Hs. apply Hany.
  - intros op. apply operation_calls_length.
  - intros op. apply operation_calls_unrecognized.
Qed.

(** C7, as the code has it.  The auxiliary tile is chosen by GE against
    the merges, not by TT against TS: every call of a GE record goes to
    [core_omp_zunmqr] with [T(k, j)], in the first half of [T]'s tile
    columns; every call of a TT record goes to [core_omp_zttmqr] and every
    call of a TS record to [core_omp_ztsmqr], both with [T2(k, j)], the
    tile [T.nt/2] columns further.  For the same [(k, j)] the two merges
    are handed the same auxiliary tile. *)
Theorem pzunmqrrh_aux_tile (side trans : Z) A T B (work : plasma_workspace_t)
    op (c : call plasma_workspace_t) :
  c ∈ operation_calls side trans A T B work op ->
  (op_kernel op = PlasmaGEKernel ->
     is_zunmqr c = true /\
     aux_tile c = plasma_tile_addr T (op_k op) (op_j op)) /\
  (op_kernel op = PlasmaTTKernel ->
     is_zttmqr c = true /\
     aux_tile c = plasma_tile_addr T (op_k op) (op_j op + Z.quot (D.nt T) 2)) /\
  (op_kernel op = PlasmaTSKernel ->
     is_ztsmqr c = true /\
     aux_tile c = plasma_tile_addr T (op_k op) (op_j op + Z.quot (D.nt T) 2)).
Proof.
  intros Hc. split; [|split]; intros Hk;
    [ pose proof (operation_calls_GE side trans A T B work op Hk) as F
    | pose proof (operation_calls_TT side trans A T B work op Hk) as F
    | pose proof (operation_calls_TS side trans A T B work op Hk) as F ];
    rewrite Forall_forall in F; exact (F c Hc).
Qed.

(** C8, as the code has it.  A record whose kind is none of GE, TT, TS
    makes the driver call [requestFail] with [PlasmaErrorIllegalValue],
    the code used for bad arguments, and submit nothing for the record.
    The request then holds that code, and so does a sequence that was in
    success; a walk entered in success over a list with such a record
    ends with both holding [PlasmaErrorIllegalValue]. *)
Theorem pzunmqrrh_unrecognized_kind (planner : Z -> Z -> list operation)
    (side trans : Z) A T B (work : plasma_workspace_t) (request : nat) op s :
  recognized (op_kernel op) = false ->
  let s' := operation_body side trans A T B work request op s in
  s' = request_fail request PlasmaErrorIllegalValue s /\
  new_calls s s' = [] /\
  request_status (async s') !! request = Some PlasmaErrorIllegalValue /\
  (sequence_status (async s) = PlasmaSuccess ->
     sequence_status (async s') = PlasmaErrorIllegalValue) /\
  (sequence_status (async s) = PlasmaSuccess ->
   op ∈ planner (D.mt A) (D.nt A) ->
   let final := plasma_pzunmqrrh planner side trans A T B work request s in
   sequence_status (async final) = PlasmaErrorIllegalValue /\
   request_status (async final) !! request = Some PlasmaErrorIllegalValue).
Proof.
  intros Hbad s'.
  assert (E : s' = request_fail request PlasmaErrorIllegalValue s).
  { subst s'. rewrite operation_body_step, Hbad.
    rewrite operation_calls_unrecognized by exact Hbad.
    unfold request_fail. rewrite app_nil_r. reflexivity. }
  split; [exact E|]. rewrite E. split; [|split; [|split]].
  - apply new_calls_same. reflexivity.
  - apply request_fail_request.
  - apply request_fail_first.
  - intros Hs Hin final. subst final.
    rewrite pzunmqrrh_fold by exact Hs.
    apply (elem_of_traversal side trans) in Hin. split.
    + apply (fold_operation_body_unrecognized _ _ _ _ _ _ _ _ op); assumption.
    + apply (fold_operation_body_request _ _ _ _ _ _ _ _ op); assumption.
Qed.

End PzunmqrrhFacts.

(** ** The layout walks *)

Section LayoutFacts.
Context `{PT : plasma_types_h} `{DH : plasma_descriptor_h}.
Import Layout.

Implicit Types (A : plasma_desc_t) (s : driver_state call).

Lemma elem_of_walk_tiles A (m n : Z) :
  (m, n) ∈ walk_tiles A <->
  0 <= m < D.mt A /\
  (if D.type A =? PlasmaUpper then m <= n < D.nt A else 0 <= n <= m).
Proof.
  unfold walk_tiles. rewrite list_elem_of_bind. split.
  - intros (m' & Hn & Hm). apply elem_of_seqZ in Hm.
    apply list_elem_of_bind in Hn as (n' & Hmn & Hn).
    apply elem_of_seqZ in Hn. apply list_elem_of_singleton in Hmn.
    injection Hmn as -> ->.
    destruct (D.type A =? PlasmaUpper); lia.
  - intros [Hm Hn]. exists m. split; [|apply elem_of_seqZ; lia].
    apply list_elem_of_bind. exists n. split; [left|].
    apply elem_of_seqZ. destruct (D.type A =? PlasmaUpper); lia.
Qed.

Lemma fmap_bind_singleton {X Y W : Type} (f : X -> Y -> W) (g : X -> list Y)
    (l : list X) :
  (l ≫= fun x => f x <$> g x) = (fun t => f (fst t) (snd t)) <$> (x ← l; y ← g x; [(x, y)]).
Proof.
  induction l as [|x l IH]; [reflexivity|].
  rewrite !bind_cons, fmap_app, <- IH. f_equal.
  induction (g x) as [|y k IHk]; [reflexivity|]. simpl. f_equal. exact IHk.
Qed.

(** The pack walk: one call per tile of [walk_tiles], in order. *)
Lemma pdtr2desc_walk (pA lda : Z) A s :
  sequence_status (async s) = PlasmaSuccess ->
  plasma_pdtr2desc_blasfeo pA lda A s
  = emit (pack_call pA lda A <$> walk_tiles A) s.
Proof.
  intros Hs. unfold plasma_pdtr2desc_blasfeo.
  entry_success Hs.
  erewrite for_range_emit; cycle 1.
  { intros m s'. cbv zeta.
    erewrite for_range_dispatch by (intros; reflexivity). reflexivity. }
  f_equal. unfold range, walk_tiles. rewrite Z.sub_0_r.
  apply (fmap_bind_singleton
           (fun m n => pack_call pA lda A (m, n))).
Qed.

(** The unpack walk: the same tiles in the same order. *)
Lemma pddesc2tr_walk (pA lda : Z) A s :
  sequence_status (async s) = PlasmaSuccess ->
  plasma_pddesc2tr_blasfeo A pA lda s
  = emit (unpack_call pA lda A <$> walk_tiles A) s.
Proof.
  intros Hs. unfold plasma_pddesc2tr_blasfeo.
  entry_success Hs.
  erewrite for_range_emit; cycle 1.
  { intros m s'. cbv zeta.
    erewrite for_range_dispatch by (intros; reflexivity). reflexivity. }
  f_equal. unfold range, walk_tiles. rewrite Z.sub_0_r.
  apply (fmap_bind_singleton
           (fun m n => unpack_call pA lda A (m, n))).
Qed.

Lemma pdtr2desc_failed (pA lda : Z) A s :
  sequence_status (async s) <> PlasmaSuccess ->
  plasma_pdtr2desc_blasfeo pA lda A s = s.
Proof.
  intros Hs. unfold plasma_pdtr2desc_blasfeo. entry_failed Hs.
Qed.

Lemma pddesc2tr_failed (pA lda : Z) A s :
  sequence_status (async s) <> PlasmaSuccess ->
  plasma_pddesc2tr_blasfeo A pA lda s = s.
Proof.
  intros Hs. unfold plasma_pddesc2tr_blasfeo. entry_failed Hs.
Qed.


End LayoutFacts.

(** ** The guarded task of the Cholesky tile kernel *)

Section CoreDpotrfFacts.
Context `{PT : plasma_types_h}.
Context {blasfeo_dmat mem : Type}.
Import CoreDpotrf.

(** The repository's own kernel reports [info = 0] whatever BLASFEO did. *)
Lemma plasma_core_dpotrf_blasfeo_info
    (blasfeo_dpotrf_l :
       Z -> blasfeo_dmat -> Z -> Z -> blasfeo_dmat -> Z -> Z -> mem -> mem)
    (uplo n : Z) (sA : blasfeo_dmat) (ai aj : Z) (mu : mem) :
  snd (plasma_core_dpotrf_blasfeo blasfeo_dpotrf_l uplo n sA ai aj mu) = 0.
Proof. reflexivity. Qed.

(** C4. The wrapper enqueues one task.  Run on a failed sequence the task
    changes neither the memory nor the status words.  Run on a sequence in
    success it leaves the memory as the kernel left it; if the kernel
    returned [info = 0] the status words are unchanged, and if it returned
    [info <> 0] the task calls [requestFail] with [iinfo + info], which
    both the request and the sequence then hold, so that the caller gets
    [info] back by subtracting [iinfo]. *)
Theorem dpotrf_task_guarded
    (core : Z -> Z -> blasfeo_dmat -> Z -> Z -> mem -> mem * Z)
    (uplo n : Z) (sA : blasfeo_dmat) (ai aj iinfo : Z) (request : nat)
    (a : async_t) (mu : mem) :
  let task := dpotrf_task core uplo n sA ai aj iinfo request in
  let info := snd (core uplo n sA ai aj mu) in
  (forall q, plasma_core_omp_dpotrf_blasfeo core uplo n sA ai aj iinfo request q
             = q ++ [task]) /\
  (sequence_status a <> PlasmaSuccess -> task (a, mu) = (a, mu)) /\
  (sequence_status a = PlasmaSuccess ->
     snd (task (a, mu)) = fst (core uplo n sA ai aj mu) /\
     (info = 0 -> fst (task (a, mu)) = a) /\
     (info <> 0 ->
        fst (task (a, mu)) = plasma_request_fail request (iinfo + info) a /\
        request_status (fst (task (a, mu))) !! request = Some (iinfo + info) /\
        sequence_status (fst (task (a, mu))) = iinfo + info /\
        sequence_status (fst (task (a, mu))) - iinfo = info)).
Proof.
  intros task info. split; [reflexivity|]. split.
  - intros Hs. subst task. unfold dpotrf_task. cbn [fst snd].
    destruct (Z.eqb_spec (sequence_status a) PlasmaSuccess); [congruence|].
    reflexivity.
  - intros Hs. subst task. unfold dpotrf_task. cbn [fst snd].
    rewrite Hs, Z.eqb_refl. fold info.
    destruct (Z.eqb_spec info 0) as [E0|N0]; simpl negb; cbv iota; cbn [fst snd].
    + split; [reflexivity|]. split; [reflexivity|]. intros; contradiction.
    + split; [reflexivity|]. split; [intros; contradiction|]. intros _.
      split; [reflexivity|]. split; [apply request_fail_request|].
      rewrite request_fail_first by exact Hs. split; [reflexivity|lia].
Qed.

End CoreDpotrfFacts.

(** ** The quick return of the symmetric rank-k update *)

Section ZsyrkFacts.
Context `{PT : plasma_types_h}.
Context {plasma_complex64_t call : Type}.
Context (eq_zero eq_one : plasma_complex64_t -> bool).
Context (plasma_context_self : option Z).
Context (plasma_desc_check : plasma_desc_t -> Z).
Context (plasma_pzsyrk :
  Z -> Z -> plasma_complex64_t -> plasma_desc_t ->
  plasma_complex64_t -> plasma_desc_t -> nat ->
  driver_state call -> driver_state call).
Context (PLASMA_zcm2ccrb_Async :
  Z -> Z -> plasma_desc_t -> nat -> driver_state call -> driver_state call).
Context (PLASMA_zccrb2cm_Async :
  plasma_desc_t -> Z -> Z -> nat -> driver_state call -> driver_state call).
Context (plasma_desc_general_create :
  Z -> Z -> Z -> Z -> Z -> Z -> Z -> Z -> Z -> Z * plasma_desc_t).
Context (plasma_sequence_create : Z).
Context (synchronize : driver_state call -> async_t).
Import Zsyrk.

(** C10. With PLASMA initialized and arguments that pass the checks,
    [PLASMA_zsyrk] returns [PlasmaSuccess] with nothing done (no
    descriptor or sequence created, no parallel region entered) whenever
    [n == 0], or [alpha == 0.0 || k == 0] and [beta == 1.0].
    [plasma_omp_zsyrk], once its own checks pass, returns under the same
    condition, read off the descriptors ([C->m] for [n]; [A->n] or [A->m]
    for [k]), with the queue and the status words untouched. *)
Theorem zsyrk_quick_return (uplo trans n k : Z)
    (alpha beta : plasma_complex64_t) (A lda C ldc : Z)
    (dA dC : plasma_desc_t) (request : nat) (s : driver_state call) :
  is_Some plasma_context_self ->
  uplo = PlasmaUpper \/ uplo = PlasmaLower ->
  trans = PlasmaNoTrans \/ trans = PlasmaTrans ->
  (0 <= n -> 0 <= k ->
   imax 1 (if trans =? PlasmaNoTrans then n else k) <= lda ->
   imax 1 n <= ldc ->
   quick_return eq_zero eq_one n k alpha beta = true ->
   PLASMA_zsyrk eq_zero eq_one plasma_context_self plasma_desc_check
     plasma_pzsyrk PLASMA_zcm2ccrb_Async PLASMA_zccrb2cm_Async
     plasma_desc_general_create plasma_sequence_create synchronize
     uplo trans n k alpha A lda beta C ldc
   = Some (PlasmaSuccess, [])) /\
  (plasma_desc_check dA = PlasmaSuccess ->
   plasma_desc_check dC = PlasmaSuccess ->
   quick_return eq_zero eq_one (D.m dC) (if trans =? PlasmaNoTrans then D.n dA else D.m dA)
     alpha beta = true ->
   plasma_omp_zsyrk eq_zero eq_one plasma_context_self plasma_desc_check
     plasma_pzsyrk uplo trans alpha dA beta dC true (Some request) s
   = Some s).
Proof.
  intros [nb Hctx] Huplo Htrans.
  assert (Eu : negb (uplo =? PlasmaUpper) && negb (uplo =? PlasmaLower) = false).
  { destruct Huplo as [-> | ->]; rewrite Z.eqb_refl; simpl;
      [reflexivity|apply andb_false_r]. }
  assert (Et : negb (trans =? PlasmaNoTrans) && negb (trans =? PlasmaTrans) = false).
  { destruct Htrans as [-> | ->]; rewrite Z.eqb_refl; simpl;
      [reflexivity|apply andb_false_r]. }
  split.
  - intros Hn Hk Hlda Hldc Hq. unfold PLASMA_zsyrk, quick_return in *.
    rewrite Hctx, Eu, Et. cbv zeta.
    destruct (Z.ltb_spec n 0); [lia|].
    destruct (Z.ltb_spec k 0); [lia|].
    destruct (Z.ltb_spec lda (imax 1 (if trans =? PlasmaNoTrans then n else k)));
      [lia|].
    destruct (Z.ltb_spec ldc (imax 1 n)); [lia|].
    rewrite Hq. reflexivity.
  - intros HA HC Hq. unfold plasma_omp_zsyrk, quick_return in *.
    rewrite Hctx, Eu, Et, HA, HC, Z.eqb_refl. simpl negb. cbv iota zeta.
    rewrite Hq. reflexivity.
Qed.

End ZsyrkFacts.

(** ** Entry on a failed sequence *)

Section FailedEntry.
Context `{PT : plasma_types_h} `{DH : plasma_descriptor_h}.

(** C2. Each of the four drivers reads the sequence status first.  On a
    failed sequence it returns at once: it submits no kernel call, so
    running what it submitted leaves any tile storage as it was, and the
    sequence status is what it was.  [plasma_pdtradd] and the two layout
    walks change nothing at all; [plasma_pzunmqrrh] records
    [PlasmaErrorSequence] on its request before it returns. *)
Theorem failed_sequence_dispatches_nothing (a : async_t) :
  sequence_status a <> PlasmaSuccess ->
  (forall (scalar : Type) (uplo transa : Z) (alpha beta : scalar)
          (A B : plasma_desc_t) (q : list (Pdtradd.call scalar)),
     let s := {| async := a; queue := q |} in
     let s' := Pdtradd.plasma_pdtradd uplo transa alpha A beta B s in
     s' = s /\ new_calls s s' = [] /\
     forall (mem : Type) (exec : Pdtradd.call scalar -> mem -> mem) (mu : mem),
       run_queue exec (new_calls s s') mu = mu) /\
  (forall (planner : Z -> Z -> list Pzunmqrrh.operation) (W : Type)
          (side trans : Z) (A T B : plasma_desc_t) (work : W) (request : nat)
          (q : list (Pzunmqrrh.call W)),
     let s := {| async := a; queue := q |} in
     let s' := Pzunmqrrh.plasma_pzunmqrrh planner side trans A T B work request s in
     s' = request_fail request PlasmaErrorSequence s /\
     queue s' = q /\ new_calls s s' = [] /\
     sequence_status (async s') = sequence_status a /\
     forall (mem : Type) (exec : Pzunmqrrh.call W -> mem -> mem) (mu : mem),
       run_queue exec (new_calls s s') mu = mu) /\
  (forall (pA lda : Z) (A : plasma_desc_t) (q : list Layout.call),
     let s := {| async := a; queue := q |} in
     let s' := Layout.plasma_pdtr2desc_blasfeo pA lda A s in
     s' = s /\ new_calls s s' = [] /\
     forall (mem : Type) (exec : Layout.call -> mem -> mem) (mu : mem),
       run_queue exec (new_calls s s') mu = mu) /\
  (forall (pA lda : Z) (A : plasma_desc_t) (q : list Layout.call),
     let s := {| async := a; queue := q |} in
     let s' := Layout.plasma_pddesc2tr_blasfeo A pA lda s in
     s' = s /\ new_calls s s' = [] /\
     forall (mem : Type) (exec : Layout.call -> mem -> mem) (mu : mem),
       run_queue exec (new_calls s s') mu = mu).
Proof.
  intros Ha. split; [|split; [|split]].
  - intros scalar uplo transa alpha beta A B q s s'.
    assert (E : s' = s) by (apply pdtradd_failed; exact Ha).
    rewrite E. rewrite new_calls_same by reflexivity. repeat split.
  - intros planner W side trans A T B work request q s s'.
    assert (E : s' = request_fail request PlasmaErrorSequence s)
      by (apply pzunmqrrh_failed; exact Ha).
    rewrite E. rewrite new_calls_same by reflexivity.
    split; [reflexivity|]. split; [reflexivity|]. split; [reflexivity|].
    split; [|reflexivity]. apply request_fail_sticky. exact Ha.
  - intros pA lda A q s s'.
    assert (E : s' = s) by (apply pdtr2desc_failed; exact Ha).
    rewrite E. rewrite new_calls_same by reflexivity. repeat split.
  - intros pA lda A q s s'.
    assert (E : s' = s) by (apply pddesc2tr_failed; exact Ha).
    rewrite E. rewrite new_calls_same by reflexivity. repeat split.
Qed.

End FailedEntry.

(** * The statements on concrete data *)

Section Samples.
#[local] Existing Instance sample_types.
#[local] Existing Instance sample_descriptor.
Import Pzunmqrrh Layout.

(** *** Status *)

Lemma requestFail_first_failure_wins_witness :
  sequence_status (requestFail_all three_failures sequenceInit) <> PlasmaSuccess /\
  (exists r, three_failures !! 0%nat
             = Some (r, sequence_status (requestFail_all three_failures sequenceInit))) /\
  sequence_status (requestFail_all three_failures failed) = PlasmaErrorIllegalValue.
Proof.
  assert (Hcodes : forall rc, rc ∈ three_failures -> snd rc <> PlasmaSuccess).
  { intros rc Hrc. unfold three_failures in Hrc.
    repeat (apply elem_of_cons in Hrc as [->|Hrc]); try discriminate.
    inversion Hrc. }
  destruct (requestFail_first_failure_wins three_failures sequenceInit Hcodes)
    as (_ & _ & _ & Hwin).
  destruct (Hwin eq_refl ltac:(discriminate)) as (Hne & Hex & _).
  destruct (requestFail_first_failure_wins three_failures failed Hcodes)
    as (_ & _ & Hsticky & _).
  split; [exact Hne|]. split; [exact Hex|].
  apply Hsticky. discriminate.
Defined.

Example requestFail_three :
  sequence_status (requestFail_all three_failures sequenceInit) = -5
  /\ request_status (requestFail_all three_failures sequenceInit) !! 3%nat = Some (-9).
Proof. split; reflexivity. Qed.

(** *** The triangular add on a grid of 3-by-3 tiles *)

Lemma pdtradd_lower_walk_witness :
  queue (Pdtradd.plasma_pdtradd PlasmaLower PlasmaTrans 2 B33 1 B33 fresh)
  = [ Pdtradd.core_omp_dtradd 122 112 2 2 2 0 2 1 0 2;
      Pdtradd.core_omp_dgeadd 112 2 2 2 12 2 1 4 2;
      Pdtradd.core_omp_dgeadd 112 2 2 2 24 2 1 8 2;
      Pdtradd.core_omp_dtradd 122 112 2 2 2 16 2 1 16 2;
      Pdtradd.core_omp_dgeadd 112 2 2 2 28 2 1 20 2;
      Pdtradd.core_omp_dtradd 122 112 2 2 2 32 2 1 32 2 ].
Proof.
  rewrite (pdtradd_lower_walk PlasmaTrans 2 1 B33 B33 fresh eq_refl).
  reflexivity.
Defined.

Example pdtradd_lower_notrans :
  queue (Pdtradd.plasma_pdtradd PlasmaLower PlasmaNoTrans 2 B33 1 B33 fresh)
  = [ Pdtradd.core_omp_dtradd 122 111 2 2 2 0 2 1 0 2;
      Pdtradd.core_omp_dgeadd 111 2 2 2 4 2 1 4 2;
      Pdtradd.core_omp_dgeadd 111 2 2 2 8 2 1 8 2;
      Pdtradd.core_omp_dtradd 122 111 2 2 2 16 2 1 16 2;
      Pdtradd.core_omp_dgeadd 111 2 2 2 20 2 1 20 2;
      Pdtradd.core_omp_dtradd 122 111 2 2 2 32 2 1 32 2 ].
Proof. vm_compute. reflexivity. Qed.

(** *** Entry on a failed sequence *)

Lemma failed_sequence_dispatches_nothing_witness :
  let s1 : driver_state (Pdtradd.call Z) := {| async := failed; queue := [] |} in
  let s2 : driver_state (Pzunmqrrh.call unit) := {| async := failed; queue := [] |} in
  let s3 : driver_state Layout.call := {| async := failed; queue := [] |} in
  Pdtradd.plasma_pdtradd PlasmaLower PlasmaNoTrans 2 B33 1 B33 s1 = s1 /\
  queue (Pzunmqrrh.plasma_pzunmqrrh one_GE PlasmaLeft Plasma_ConjTrans
           B33 B33 B33 tt 7%nat s2) = [] /\
  Layout.plasma_pdtr2desc_blasfeo 0 6 B33 s3 = s3 /\
  Layout.plasma_pddesc2tr_blasfeo B33 0 6 s3 = s3.
Proof.
  assert (Hfailed : sequence_status failed <> PlasmaSuccess) by discriminate.
  destruct (failed_sequence_dispatches_nothing failed Hfailed)
    as (H1 & H2 & H3 & H4).
  intros s1 s2 s3. split; [|split; [|split]].
  - exact (proj1 (H1 Z PlasmaLower PlasmaNoTrans 2 1 B33 B33 [])).
  - exact (proj1 (proj2 (H2 one_GE unit PlasmaLeft Plasma_ConjTrans
                           B33 B33 B33 tt 7%nat []))).
  - exact (proj1 (H3 0 6 B33 [])).
  - exact (proj1 (H4 0 6 B33 [])).
Defined.

(** *** The Q-application walk *)

Lemma pzunmqrrh_traversal_order_witness :
  let left := fun acc o =>
    Pzunmqrrh.left_operation PlasmaLeft Plasma_ConjTrans A22 T24 A22 tt 7%nat o acc in
  let left' := fun acc o =>
    Pzunmqrrh.left_operation PlasmaLeft PlasmaNoTrans A22 T24 A22 tt 7%nat o acc in
  let right := fun acc o =>
    Pzunmqrrh.right_operation PlasmaRight Plasma_ConjTrans A22 T24 A22 tt 7%nat o acc in
  let right' := fun acc o =>
    Pzunmqrrh.right_operation PlasmaRight PlasmaNoTrans A22 T24 A22 tt 7%nat o acc in
  run_unmqrrh tree_ops PlasmaLeft Plasma_ConjTrans = foldl left fresh tree_ops /\
  run_unmqrrh tree_ops PlasmaLeft PlasmaNoTrans = foldl left' fresh (reverse tree_ops) /\
  run_unmqrrh tree_ops PlasmaRight Plasma_ConjTrans = foldl right fresh (reverse tree_ops) /\
  run_unmqrrh tree_ops PlasmaRight PlasmaNoTrans = foldl right' fresh tree_ops.
Proof.
  intros left left' right right'. unfold run_unmqrrh.
  pose proof (pzunmqrrh_traversal_order (fun _ _ => tree_ops)
                PlasmaLeft Plasma_ConjTrans A22 T24 A22 tt 7%nat fresh eq_refl)
    as (H1 & _).
  pose proof (pzunmqrrh_traversal_order (fun _ _ => tree_ops)
                PlasmaLeft PlasmaNoTrans A22 T24 A22 tt 7%nat fresh eq_refl)
    as (_ & H2 & _).
  pose proof (pzunmqrrh_traversal_order (fun _ _ => tree_ops)
                PlasmaRight Plasma_ConjTrans A22 T24 A22 tt 7%nat fresh eq_refl)
    as (_ & _ & H3 & _).
  pose proof (pzunmqrrh_traversal_order (fun _ _ => tree_ops)
                PlasmaRight PlasmaNoTrans A22 T24 A22 tt 7%nat fresh eq_refl)
    as (_ & _ & _ & H4).
  split; [exact (H1 eq_refl eq_refl)|].
  split; [exact (H2 eq_refl ltac:(discriminate))|].
  split; [exact (H3 ltac:(discriminate) eq_refl)|].
  exact (H4 ltac:(discriminate) ltac:(discriminate)).
Defined.

(** From the left without transpose the TT record comes first, then the
    GE records from the last to the first. *)
Example pzunmqrrh_left_notrans_order :
  Pzunmqrrh.aux_tile <$> queue (run_unmqrrh tree_ops PlasmaLeft PlasmaNoTrans)
  = [20; 20; 4; 4; 0; 0]
  /\ Pzunmqrrh.aux_tile <$> queue (run_unmqrrh tree_ops PlasmaLeft Plasma_ConjTrans)
  = [0; 0; 4; 4; 20; 20].
Proof. split; vm_compute; reflexivity. Qed.

(** C3 fails on the code: the record of kind 99 fails the sequence, and
    the GE record after it still has its two calls submitted. *)
Lemma mid_walk_failure_counterexample :
  let stopped := run_unmqrrh [op 99 0 0 0] PlasmaLeft Plasma_ConjTrans in
  let went_on := run_unmqrrh bad_then_GE PlasmaLeft Plasma_ConjTrans in
  sequence_status (async stopped) <> PlasmaSuccess /\
  queue stopped = [] /\
  sequence_status (async went_on) <> PlasmaSuccess /\
  queue went_on
  = [ Pzunmqrrh.core_omp_zunmqr 141 113 2 2 2 2 4 2 4 2 4 2 tt;
      Pzunmqrrh.core_omp_zunmqr 141 113 2 2 2 2 4 2 4 2 12 2 tt ] /\
  ~ (forall later,
       new_calls (run_unmqrrh [op 99 0 0 0] PlasmaLeft Plasma_ConjTrans)
         (run_unmqrrh (op 99 0 0 0 :: later) PlasmaLeft Plasma_ConjTrans) = []).
Proof.
  intros stopped went_on.
  split; [discriminate|]. split; [reflexivity|].
  split; [discriminate|]. split; [reflexivity|].
  intros H. specialize (H [op PlasmaGEKernel 0 1 1]). discriminate H.
Qed.

Lemma pzunmqrrh_dispatch_ignores_failure_witness :
  new_calls fresh (run_unmqrrh bad_then_GE PlasmaLeft Plasma_ConjTrans)
  = operation_calls PlasmaLeft Plasma_ConjTrans A22 T24 A22 tt (op 99 0 0 0)
    ++ operation_calls PlasmaLeft Plasma_ConjTrans A22 T24 A22 tt
         (op PlasmaGEKernel 0 1 1) /\
  length (operation_calls PlasmaLeft Plasma_ConjTrans A22 T24 A22 tt
            (op PlasmaGEKernel 0 1 1)) = 2%nat /\
  operation_calls PlasmaLeft Plasma_ConjTrans A22 T24 A22 tt (op 99 0 0 0) = [] /\
  length (new_calls {| async := failed; queue := [] |}
            (operation_body PlasmaLeft Plasma_ConjTrans A22 T24 A22 tt 7%nat
               (op PlasmaGEKernel 0 1 1) {| async := failed; queue := [] |}))
  = 2%nat.
Proof.
  destruct (pzunmqrrh_dispatch_ignores_failure (fun _ _ => bad_then_GE)
              PlasmaLeft Plasma_ConjTrans A22 T24 A22 tt 7%nat fresh eq_refl)
    as (_ & Hany & Hq & Hfull & Hnone).
  split; [|split; [|split]].
  - unfold run_unmqrrh. rewrite Hq. reflexivity.
  - exact (Hfull (op PlasmaGEKernel 0 1 1) eq_refl).
  - exact (Hnone (op 99 0 0 0) eq_refl).
  - exact (f_equal length
             (Hany [op PlasmaGEKernel 0 1 1] {| async := failed; queue := [] |})).
Defined.

(** C7 fails on the code: for the same [(k, j)] the TT merge and the TS
    merge are handed the same auxiliary tile. *)
Lemma aux_tile_TT_TS_counterexample :
  let tt_calls := queue (run_unmqrrh [op PlasmaTTKernel 0 1 0] PlasmaLeft Plasma_ConjTrans) in
  let ts_calls := queue (run_unmqrrh [op PlasmaTSKernel 0 1 0] PlasmaLeft Plasma_ConjTrans) in
  Pzunmqrrh.aux_tile <$> tt_calls = [20; 20] /\
  Pzunmqrrh.aux_tile <$> ts_calls = [20; 20] /\
  ~ (forall c c', c ∈ tt_calls -> c' ∈ ts_calls ->
       Pzunmqrrh.aux_tile c <> Pzunmqrrh.aux_tile c').
Proof.
  intros tt_calls ts_calls. split; [reflexivity|]. split; [reflexivity|].
  intros H.
  apply (H (Pzunmqrrh.core_omp_zttmqr 141 113 2 2 2 2 2 2 0 2 4 2 4 2 20 2 tt)
           (Pzunmqrrh.core_omp_ztsmqr 141 113 2 2 2 2 2 2 0 2 4 2 4 2 20 2 tt)).
  - left.
  - left.
  - reflexivity.
Qed.

Lemma pzunmqrrh_aux_tile_witness :
  let c := Pzunmqrrh.core_omp_zttmqr 141 113 2 2 2 2 2 2 0 2 4 2 4 2 20 2 tt in
  let c' := Pzunmqrrh.core_omp_ztsmqr 141 113 2 2 2 2 2 2 0 2 4 2 4 2 20 2 tt in
  let g := Pzunmqrrh.core_omp_zunmqr 141 113 2 2 2 2 4 2 4 2 4 2 tt in
  Pzunmqrrh.aux_tile c = plasma_tile_addr T24 1 (0 + Z.quot (D.nt T24) 2) /\
  Pzunmqrrh.aux_tile c' = plasma_tile_addr T24 1 (0 + Z.quot (D.nt T24) 2) /\
  Pzunmqrrh.aux_tile g = plasma_tile_addr T24 1 0.
Proof.
  intros c c' g. split; [|split].
  - assert (Hc : c ∈ operation_calls PlasmaLeft Plasma_ConjTrans A22 T24 A22 tt
                       (op PlasmaTTKernel 0 1 0)) by left.
    exact (proj2 (proj1 (proj2 (pzunmqrrh_aux_tile _ _ _ _ _ _ _ _ Hc)) eq_refl)).
  - assert (Hc : c' ∈ operation_calls PlasmaLeft Plasma_ConjTrans A22 T24 A22 tt
                        (op PlasmaTSKernel 0 1 0)) by left.
    exact (proj2 (proj2 (proj2 (pzunmqrrh_aux_tile _ _ _ _ _ _ _ _ Hc)) eq_refl)).
  - assert (Hc : g ∈ operation_calls PlasmaLeft Plasma_ConjTrans A22 T24 A22 tt
                       (op PlasmaGEKernel 0 1 1)) by left.
    exact (proj2 (proj1 (pzunmqrrh_aux_tile _ _ _ _ _ _ _ _ Hc) eq_refl)).
Defined.

(** C8 fails on the code: the code the sequence and the request end up
    with is [PlasmaErrorIllegalValue], not a code distinct from it. *)
Lemma illegal_kernel_code_counterexample :
  let final := run_unmqrrh [op 99 0 0 0] PlasmaLeft Plasma_ConjTrans in
  sequence_status (async final) = PlasmaErrorIllegalValue /\
  request_status (async final) !! 7%nat = Some PlasmaErrorIllegalValue /\
  ~ (exists IllegalKernel, IllegalKernel <> PlasmaErrorIllegalValue /\
       sequence_status (async final) = IllegalKernel).
Proof.
  intros final. split; [reflexivity|]. split; [reflexivity|].
  intros (c & Hc & E). apply Hc. rewrite <- E. reflexivity.
Qed.

Lemma pzunmqrrh_unrecognized_kind_witness :
  let final := run_unmqrrh bad_then_GE PlasmaLeft Plasma_ConjTrans in
  operation_body PlasmaLeft Plasma_ConjTrans A22 T24 A22 tt 7%nat (op 99 0 0 0) fresh
  = request_fail 7%nat PlasmaErrorIllegalValue fresh /\
  sequence_status (async final) = PlasmaErrorIllegalValue /\
  request_status (async final) !! 7%nat = Some PlasmaErrorIllegalValue.
Proof.
  intros final.
  assert (Hbad : recognized (Pzunmqrrh.op_kernel (op 99 0 0 0)) = false)
    by reflexivity.
  destruct (pzunmqrrh_unrecognized_kind (fun _ _ => bad_then_GE)
              PlasmaLeft Plasma_ConjTrans A22 T24 A22 tt 7%nat (op 99 0 0 0)
              fresh Hbad) as (Hstep & _ & _ & _ & Hwalk).
  split; [exact Hstep|].
  apply (Hwalk eq_refl). left.
Defined.

(** *** The layout walks *)



(** The two walks on a lower matrix of 2-by-2 tiles. *)
Example layout_walks_L22 :
  queue (Layout.plasma_pdtr2desc_blasfeo 0 4 L22 fresh)
  = [ Layout.plasma_core_omp_dpack_blasfeo 123 111 2 2 0 4 0 2;
      Layout.plasma_core_omp_dpack_blasfeo 123 111 2 2 2 4 4 2;
      Layout.plasma_core_omp_dpack_blasfeo 123 111 2 2 10 4 12 2 ] /\
  queue (Layout.plasma_pddesc2tr_blasfeo L22 0 4 fresh)
  = [ Layout.plasma_core_omp_dunpack_blasfeo 123 111 2 2 0 2 0 4;
      Layout.plasma_core_omp_dunpack_blasfeo 123 111 2 2 4 2 2 4;
      Layout.plasma_core_omp_dunpack_blasfeo 123 111 2 2 12 2 10 4 ].
Proof. split; vm_compute; reflexivity. Qed.

(** *** The guarded Cholesky task *)

Lemma dpotrf_task_guarded_witness :
  let task := CoreDpotrf.dpotrf_task core_reports_3 PlasmaLower 2 tt 0 0 10 7%nat in
  task (failed, 5) = (failed, 5) /\
  snd (task (sequenceInit, 5)) = 6 /\
  sequence_status (fst (task (sequenceInit, 5))) = 13 /\
  request_status (fst (task (sequenceInit, 5))) !! 7%nat = Some 13 /\
  fst (CoreDpotrf.dpotrf_task (CoreDpotrf.plasma_core_dpotrf_blasfeo blasfeo_counts)
         PlasmaLower 2 tt 0 0 10 7%nat (sequenceInit, 5)) = sequenceInit.
Proof.
  intros task.
  destruct (dpotrf_task_guarded core_reports_3 PlasmaLower 2 tt 0 0 10 7%nat failed 5)
    as (_ & Hskip & _).
  destruct (dpotrf_task_guarded core_reports_3 PlasmaLower 2 tt 0 0 10 7%nat
              sequenceInit 5) as (_ & _ & Hrun).
  destruct (Hrun eq_refl) as (Hmem & _ & Hfail).
  destruct (Hfail ltac:(discriminate)) as (_ & Hreq & Hseq & _).
  destruct (dpotrf_task_guarded
              (CoreDpotrf.plasma_core_dpotrf_blasfeo blasfeo_counts)
              PlasmaLower 2 tt 0 0 10 7%nat sequenceInit 5) as (_ & _ & Hrun0).
  destruct (Hrun0 eq_refl) as (_ & Hzero & _).
  split; [exact (Hskip ltac:(discriminate))|].
  split; [exact Hmem|]. split; [exact Hseq|]. split; [exact Hreq|].
  exact (Hzero eq_refl).
Defined.

(** *** The quick return *)

Lemma zsyrk_quick_return_witness :
  sample_PLASMA_zsyrk PlasmaUpper PlasmaNoTrans 4 0 5 0 4 1 100 4
  = Some (PlasmaSuccess, []) /\
  sample_plasma_omp_zsyrk PlasmaUpper PlasmaNoTrans 0
    (sample_desc PlasmaGeneral 2 2 2) 1 (sample_desc PlasmaGeneral 2 2 2)
    true (Some 7%nat) fresh
  = Some fresh.
Proof.
  destruct (zsyrk_quick_return (fun z => z =? 0) (fun z => z =? 1) (Some 2)
              (fun _ => PlasmaSuccess) (fun _ _ _ _ _ _ _ => submit_one)
              (fun _ _ _ _ => submit_one) (fun _ _ _ _ => submit_one)
              created PlasmaSuccess async
              PlasmaUpper PlasmaNoTrans 4 0 5 1 0 4 100 4
              (sample_desc PlasmaGeneral 2 2 2) (sample_desc PlasmaGeneral 2 2 2)
              7%nat fresh
              (mk_is_Some _ _ eq_refl) (or_introl eq_refl) (or_introl eq_refl))
    as [Hsync _].
  destruct (zsyrk_quick_return (fun z => z =? 0) (fun z => z =? 1) (Some 2)
              (fun _ => PlasmaSuccess) (fun _ _ _ _ _ _ _ => submit_one)
              (fun _ _ _ _ => submit_one) (fun _ _ _ _ => submit_one)
              created PlasmaSuccess async
              PlasmaUpper PlasmaNoTrans 4 0 0 1 0 4 100 4
              (sample_desc PlasmaGeneral 2 2 2) (sample_desc PlasmaGeneral 2 2 2)
              7%nat fresh
              (mk_is_Some _ _ eq_refl) (or_introl eq_refl) (or_introl eq_refl))
    as [_ Hasync].
  split.
  - apply Hsync; [lia|lia|vm_compute; discriminate|vm_compute; discriminate|reflexivity].
  - apply Hasync; reflexivity.
Defined.

(** Off the quick return the routine does its work. *)
Example zsyrk_full_run :
  sample_PLASMA_zsyrk PlasmaUpper PlasmaNoTrans 4 2 5 0 4 1 100 4
  = Some (PlasmaSuccess,
          [ Zsyrk.desc_general_create 4 2 2 4 2 0 0 4 2;
            Zsyrk.desc_general_create 4 2 2 4 4 0 0 4 4;
            Zsyrk.sequence_create;
            Zsyrk.parallel_region [tt; tt; tt; tt];
            Zsyrk.desc_destroy (snd (created 4 2 2 4 2 0 0 4 2));
            Zsyrk.desc_destroy (snd (created 4 2 2 4 4 0 0 4 4));
            Zsyrk.sequence_destroy ]).
Proof. vm_compute. reflexivity. Qed.

End Samples.

(** * Further properties of the drivers *)

(** ** Ranges and sums *)

Lemma elem_of_range (lo hi v : Z) : v ∈ range lo hi <-> lo <= v < hi.
Proof. unfold range. rewrite elem_of_seqZ. lia. Qed.

Lemma range_nil (lo hi : Z) : hi <= lo -> range lo hi = [].
Proof. intros H. unfold range. apply seqZ_nil. lia. Qed.

Lemma range_cons (lo hi : Z) : lo < hi -> range lo hi = lo :: range (lo + 1) hi.
Proof.
  intros H. unfold range. rewrite (seqZ_cons lo) by lia.
  do 2 f_equal; lia.
Qed.

Lemma range_snoc (lo hi : Z) : lo <= hi -> range lo (hi + 1) = range lo hi ++ [hi].
Proof.
  intros H. unfold range.
  replace (hi + 1 - lo) with ((hi - lo) + 1) by lia.
  rewrite seqZ_app by lia.
  replace (lo + (hi - lo)) with hi by lia. reflexivity.
Qed.

Lemma length_range (lo hi : Z) : length (range lo hi) = Z.to_nat (hi - lo).
Proof. unfold range. apply length_seqZ. Qed.

Lemma imin_spec (a b : Z) : imin a b = Z.min a b.
Proof. unfold imin. destruct (Z.ltb_spec a b); lia. Qed.

Lemma imax_spec (a b : Z) : imax a b = Z.max a b.
Proof. unfold imax. rewrite Z.gtb_ltb. destruct (Z.ltb_spec b a); lia. Qed.

Lemma length_bind_range {X : Type} (f : Z -> list X) (g : Z -> Z) :
  (forall k, 0 <= k -> Z.of_nat (length (f k)) = g k) ->
  forall K : nat,
    Z.of_nat (length (range 0 (Z.of_nat K) ≫= f))
    = sumZ (g <$> range 0 (Z.of_nat K)).
Proof.
  intros Hf. induction K as [|K IH]; [reflexivity|].
  rewrite Nat2Z.inj_succ, <- Z.add_1_r, range_snoc by lia.
  rewrite bind_app, length_app, Nat2Z.inj_add, IH, fmap_app.
  unfold sumZ. rewrite foldr_app. simpl.
  rewrite app_nil_r, Hf by lia.
  generalize (g <$> range 0 (Z.of_nat K)). intros l.
  induction l as [|x l IHl]; simpl; lia.
Qed.

Lemma one_of_two (x a b : Z) :
  negb (x =? a) && negb (x =? b) = false <-> x = a \/ x = b.
Proof.
  destruct (Z.eqb_spec x a); destruct (Z.eqb_spec x b); simpl;
    intuition congruence.
Qed.

(** ** The triangular add, both triangles *)

Section PdtraddMore.
Context `{PT : plasma_types_h} `{DH : plasma_descriptor_h}.
Context {scalar : Type}.
Import Pdtradd.

Implicit Types (A B : plasma_desc_t) (s : driver_state (call scalar)).
Implicit Types (alpha beta : scalar).

Lemma pdtradd_lower_emit (transa : Z) alpha A beta B s :
  sequence_status (async s) = PlasmaSuccess ->
  plasma_pdtradd PlasmaLower transa alpha A beta B s
  = emit (lower_calls transa alpha A beta B) s.
Proof.
  intros Hs. unfold plasma_pdtradd, lower_calls, diagonal_call, general_call.
  entry_success Hs.
  destruct (transa =? PlasmaNoTrans) eqn:Et;
    apply for_range_emit; intros n s'; cbv zeta;
    erewrite for_range_dispatch by (intros; reflexivity);
    rewrite dispatch_emit, emit_emit; reflexivity.
Qed.

Lemma pdtradd_upper_emit (transa : Z) alpha A beta B s :
  PlasmaUpper <> PlasmaLower ->
  sequence_status (async s) = PlasmaSuccess ->
  plasma_pdtradd PlasmaUpper transa alpha A beta B s
  = emit (upper_calls transa alpha A beta B) s.
Proof.
  intros Hne Hs. unfold plasma_pdtradd, upper_calls, diagonal_call, general_call.
  rewrite Hs, (Z.eqb_refl PlasmaSuccess). simpl negb. cbv iota.
  destruct (Z.eqb_spec PlasmaUpper PlasmaLower) as [E|_]; [contradiction|].
  rewrite Z.eqb_refl.
  destruct (transa =? PlasmaNoTrans) eqn:Et;
    apply for_range_emit; intros m s'; cbv zeta;
    erewrite for_range_dispatch by (intros; reflexivity);
    rewrite dispatch_emit, emit_emit; reflexivity.
Qed.

Lemma pdtradd_other (uplo transa : Z) alpha A beta B s :
  uplo <> PlasmaLower -> uplo <> PlasmaUpper ->
  plasma_pdtradd uplo transa alpha A beta B s = s.
Proof.
  intros HL HU. unfold plasma_pdtradd.
  destruct (negb (sequence_status (async s) =? PlasmaSuccess)); [reflexivity|].
  destruct (Z.eqb_spec uplo PlasmaLower); [contradiction|].
  destruct (Z.eqb_spec uplo PlasmaUpper); [contradiction|]. reflexivity.
Qed.

(** Whatever its arguments and the state it is entered in, the driver only
    appends to the queue. *)
Lemma pdtradd_appends (uplo transa : Z) alpha A beta B s :
  exists l, plasma_pdtradd uplo transa alpha A beta B s = emit l s.
Proof.
  destruct (Z.eq_dec (sequence_status (async s)) PlasmaSuccess) as [Hs|Hs].
  - destruct (Z.eq_dec uplo PlasmaLower) as [->|HL].
    { eexists. apply pdtradd_lower_emit. exact Hs. }
    destruct (Z.eq_dec uplo PlasmaUpper) as [->|HU].
    { eexists. apply pdtradd_upper_emit; [congruence|exact Hs]. }
    exists []. rewrite emit_nil. apply pdtradd_other; assumption.
  - exists []. rewrite emit_nil. apply pdtradd_failed. exact Hs.
Qed.

(** X1. For [uplo = PlasmaUpper], on a sequence in success, the driver submits,
    for each row [m = 0 .. min(B.mt, B.nt) - 1] in turn, one
    [core_omp_dtradd] on the diagonal pair [A(m,m)], [B(m,m)], then one
    [core_omp_dgeadd] for every column [n] with [m < n < B.nt], writing
    [B(m,n)] with the leading dimension of [B]'s row-tile [m]; the source
    is [A(m,n)] with the leading dimension of [A]'s row-tile [m] when
    [transa = PlasmaNoTrans], and [A(n,m)] with that of row-tile [n]
    otherwise. *)
Theorem pdtradd_upper_walk (transa : Z) alpha A beta B s :
  PlasmaUpper <> PlasmaLower ->
  sequence_status (async s) = PlasmaSuccess ->
  plasma_pdtradd PlasmaUpper transa alpha A beta B s
  = emit (m ← range 0 (imin (D.mt B) (D.nt B));
          core_omp_dtradd PlasmaUpper transa
            (plasma_tile_mview B m) (plasma_tile_nview B m)
            alpha (plasma_tile_addr A m m) (plasma_tile_mmain A m)
            beta (plasma_tile_addr B m m) (plasma_tile_mmain B m)
          :: ((fun n =>
                 core_omp_dgeadd transa
                   (plasma_tile_mview B m) (plasma_tile_nview B n)
                   alpha
                   (if transa =? PlasmaNoTrans
                    then plasma_tile_addr A m n else plasma_tile_addr A n m)
                   (if transa =? PlasmaNoTrans
                    then plasma_tile_mmain A m else plasma_tile_mmain A n)
                   beta (plasma_tile_addr B m n) (plasma_tile_mmain B m))
              <$> range (m + 1) (D.nt B))) s.
Proof. intros Hne Hs. apply pdtradd_upper_emit; assumption. Qed.

(** X2. The driver never fails a sequence and never takes back a submitted
    call: in every state and for every argument the status words are left
    alone and the queue it was given is a prefix of the queue it leaves.
    A [uplo] that is neither [PlasmaLower] nor [PlasmaUpper] is not an
    error: the driver returns having done nothing. *)
Theorem pdtradd_never_fails (uplo transa : Z) alpha A beta B s :
  async (plasma_pdtradd uplo transa alpha A beta B s) = async s /\
  queue (plasma_pdtradd uplo transa alpha A beta B s)
  = queue s ++ new_calls s (plasma_pdtradd uplo transa alpha A beta B s) /\
  (uplo <> PlasmaLower -> uplo <> PlasmaUpper ->
   plasma_pdtradd uplo transa alpha A beta B s = s).
Proof.
  destruct (pdtradd_appends uplo transa alpha A beta B s) as [l E].
  rewrite E, new_calls_emit. split; [reflexivity|]. split; [reflexivity|].
  intros HL HU. rewrite <- E. apply pdtradd_other; assumption.
Qed.

Lemma elem_of_lower_calls (transa : Z) alpha A beta B (c : call scalar) :
  c ∈ lower_calls transa alpha A beta B <->
  exists m n, 0 <= n <= m /\ m < D.mt B /\ n < D.nt B /\
    c = if m =? n then diagonal_call PlasmaLower transa alpha A beta B n
        else general_call transa alpha A beta B m n.
Proof.
  unfold lower_calls. rewrite list_elem_of_bind. split.
  - intros (n & Hc & Hn). apply elem_of_range in Hn. rewrite imin_spec in Hn.
    apply elem_of_cons in Hc as [->|Hc].
    + exists n, n. rewrite Z.eqb_refl. repeat split; lia.
    + apply list_elem_of_fmap in Hc as (m & -> & Hm). apply elem_of_range in Hm.
      exists m, n. destruct (Z.eqb_spec m n); [lia|]. repeat split; lia.
  - intros (m & n & Hmn & Hm & Hn & ->). exists n.
    split; [|apply elem_of_range; rewrite imin_spec; lia].
    destruct (Z.eqb_spec m n) as [->|Hne]; [left|right].
    apply list_elem_of_fmap. exists m. split; [reflexivity|].
    apply elem_of_range. lia.
Qed.

Lemma elem_of_upper_calls (transa : Z) alpha A beta B (c : call scalar) :
  c ∈ upper_calls transa alpha A beta B <->
  exists m n, 0 <= m <= n /\ m < D.mt B /\ n < D.nt B /\
    c = if m =? n then diagonal_call PlasmaUpper transa alpha A beta B m
        else general_call transa alpha A beta B m n.
Proof.
  unfold upper_calls. rewrite list_elem_of_bind. split.
  - intros (m & Hc & Hm). apply elem_of_range in Hm. rewrite imin_spec in Hm.
    apply elem_of_cons in Hc as [->|Hc].
    + exists m, m. rewrite Z.eqb_refl. repeat split; lia.
    + apply list_elem_of_fmap in Hc as (n & -> & Hn). apply elem_of_range in Hn.
      exists m, n. destruct (Z.eqb_spec m n); [lia|]. repeat split; lia.
  - intros (m & n & Hmn & Hm & Hn & ->). exists m.
    split; [|apply elem_of_range; rewrite imin_spec; lia].
    destruct (Z.eqb_spec m n) as [->|Hne]; [left|right].
    apply list_elem_of_fmap. exists n. split; [reflexivity|].
    apply elem_of_range. lia.
Qed.

(** X3. The tiles written are the stored triangle of the [B] grid, no more
    and no less.  On a sequence in success, for [PlasmaLower] every call
    writes a tile [B(m,n)] on or below the diagonal inside the grid, and
    every such tile is written by some call, by the triangular kernel
    exactly when it is on the diagonal; for [PlasmaUpper] the same holds on
    or above the diagonal. *)
Theorem pdtradd_writes_stored_triangle (transa : Z) alpha A beta B s :
  PlasmaUpper <> PlasmaLower ->
  sequence_status (async s) = PlasmaSuccess ->
  let lower := new_calls s (plasma_pdtradd PlasmaLower transa alpha A beta B s) in
  let upper := new_calls s (plasma_pdtradd PlasmaUpper transa alpha A beta B s) in
  (forall c, c ∈ lower ->
     exists m n, 0 <= n <= m /\ m < D.mt B /\ n < D.nt B /\
       dest c = plasma_tile_addr B m n /\ is_dtradd c = (m =? n)) /\
  (forall m n, 0 <= n <= m -> m < D.mt B -> n < D.nt B ->
     exists c, c ∈ lower /\
       dest c = plasma_tile_addr B m n /\ is_dtradd c = (m =? n)) /\
  (forall c, c ∈ upper ->
     exists m n, 0 <= m <= n /\ m < D.mt B /\ n < D.nt B /\
       dest c = plasma_tile_addr B m n /\ is_dtradd c = (m =? n)) /\
  (forall m n, 0 <= m <= n -> m < D.mt B -> n < D.nt B ->
     exists c, c ∈ upper /\
       dest c = plasma_tile_addr B m n /\ is_dtradd c = (m =? n)).
Proof.
  intros Hne Hs lower upper.
  assert (EL : lower = lower_calls transa alpha A beta B).
  { subst lower. rewrite pdtradd_lower_emit by exact Hs. apply new_calls_emit. }
  assert (EU : upper = upper_calls transa alpha A beta B).
  { subst upper. rewrite pdtradd_upper_emit by assumption. apply new_calls_emit. }
  rewrite EL, EU. split; [|split; [|split]].
  - intros c Hc. apply elem_of_lower_calls in Hc as (m & n & H1 & H2 & H3 & ->).
    exists m, n. repeat split; try lia;
      destruct (Z.eqb_spec m n) as [->|]; reflexivity.
  - intros m n H1 H2 H3. eexists. split.
    + apply elem_of_lower_calls. exists m, n. repeat split; try lia.
    + destruct (Z.eqb_spec m n) as [->|]; split; reflexivity.
  - intros c Hc. apply elem_of_upper_calls in Hc as (m & n & H1 & H2 & H3 & ->).
    exists m, n. repeat split; try lia;
      destruct (Z.eqb_spec m n) as [->|]; reflexivity.
  - intros m n H1 H2 H3. eexists. split.
    + apply elem_of_upper_calls. exists m, n. repeat split; try lia.
    + destruct (Z.eqb_spec m n) as [->|]; split; reflexivity.
Qed.

Lemma triangle_sum (d : Z) (K : nat) :
  Z.of_nat K <= d ->
  2 * sumZ ((fun k => 1 + Z.max 0 (d - (k + 1))) <$> range 0 (Z.of_nat K))
  = Z.of_nat K * (2 * d - Z.of_nat K + 1).
Proof.
  induction K as [|K IH]; intros HK; [reflexivity|].
  rewrite Nat2Z.inj_succ, <- Z.add_1_r, range_snoc by lia.
  rewrite fmap_app. unfold sumZ in *. rewrite foldr_app. simpl.
  assert (Hadd : forall (l : list Z) (x : Z),
            foldr Z.add x l = foldr Z.add 0 l + x).
  { intros l x. induction l as [|y l IHl]; simpl; lia. }
  rewrite Hadd. specialize (IH ltac:(lia)). nia.
Qed.

Lemma length_lower_calls (transa : Z) alpha A beta B :
  0 <= D.mt B -> 0 <= D.nt B ->
  2 * Z.of_nat (length (lower_calls transa alpha A beta B))
  = Z.min (D.mt B) (D.nt B)
    * (2 * D.mt B - Z.min (D.mt B) (D.nt B) + 1).
Proof.
  intros Hm Hn. unfold lower_calls. rewrite imin_spec.
  rewrite <- (Z2Nat.id (Z.min (D.mt B) (D.nt B))) by lia.
  rewrite (length_bind_range _ (fun k => 1 + Z.max 0 (D.mt B - (k + 1)))).
  - apply triangle_sum. lia.
  - intros k Hk. simpl. rewrite length_fmap, length_range. lia.
Qed.

Lemma length_upper_calls (transa : Z) alpha A beta B :
  0 <= D.mt B -> 0 <= D.nt B ->
  2 * Z.of_nat (length (upper_calls transa alpha A beta B))
  = Z.min (D.mt B) (D.nt B)
    * (2 * D.nt B - Z.min (D.mt B) (D.nt B) + 1).
Proof.
  intros Hm Hn. unfold upper_calls. rewrite imin_spec.
  rewrite <- (Z2Nat.id (Z.min (D.mt B) (D.nt B))) by lia.
  rewrite (length_bind_range _ (fun k => 1 + Z.max 0 (D.nt B - (k + 1)))).
  - apply triangle_sum. lia.
  - intros k Hk. simpl. rewrite length_fmap, length_range. lia.
Qed.

(** X4. How many tasks a triangular add submits.  With [k = min(B.mt, B.nt)]
    on a grid with no negative dimension, the lower walk submits
    [k (2 B.mt - k + 1) / 2] calls and the upper walk
    [k (2 B.nt - k + 1) / 2]; on a square grid of [N] by [N] tiles both
    submit [N (N + 1) / 2]. *)
Theorem pdtradd_call_count (transa : Z) alpha A beta B s :
  PlasmaUpper <> PlasmaLower ->
  sequence_status (async s) = PlasmaSuccess ->
  0 <= D.mt B -> 0 <= D.nt B ->
  let k := Z.min (D.mt B) (D.nt B) in
  2 * Z.of_nat (length (new_calls s
                  (plasma_pdtradd PlasmaLower transa alpha A beta B s)))
  = k * (2 * D.mt B - k + 1) /\
  2 * Z.of_nat (length (new_calls s
                  (plasma_pdtradd PlasmaUpper transa alpha A beta B s)))
  = k * (2 * D.nt B - k + 1).
Proof.
  intros Hne Hs Hm Hn k. split.
  - rewrite pdtradd_lower_emit by exact Hs. rewrite new_calls_emit.
    apply length_lower_calls; assumption.
  - rewrite pdtradd_upper_emit by assumption. rewrite new_calls_emit.
    apply length_upper_calls; assumption.
Qed.

End PdtraddMore.

(** ** The Q-application walk: known kinds and footprint *)

Section PzunmqrrhMore.
Context `{PT : plasma_types_h} `{DH : plasma_descriptor_h}.
Context {plasma_workspace_t : Type}.
Import Pzunmqrrh.

Implicit Types (A T B : plasma_desc_t) (op : operation) (ops : list operation).
Implicit Types (s : driver_state (call plasma_workspace_t)).

Lemma fold_operation_body_known (side trans : Z) A T B
    (work : plasma_workspace_t) (request : nat) (l : list operation) :
  Forall (fun op => recognized (op_kernel op) = true) l ->
  forall s,
    async (foldl (fun acc op =>
                    operation_body side trans A T B work request op acc) s l)
    = async s.
Proof.
  induction 1 as [|op l Hop _ IH]; intros s; simpl; [reflexivity|].
  rewrite IH, operation_body_step. cbn [async]. rewrite Hop. reflexivity.
Qed.

Lemma length_bind_same {X Y : Type} (f : X -> list Y) (n : nat) (l : list X) :
  Forall (fun x => length (f x) = n) l ->
  length (l ≫= f) = (length l * n)%nat.
Proof.
  induction 1 as [|x l Hx _ IH]; [reflexivity|].
  rewrite bind_cons, length_app, Hx, IH. simpl. lia.
Qed.

Lemma Forall_traversal (P : operation -> Prop) (side trans : Z) ops :
  Forall P ops -> Forall P (traversal side trans ops).
Proof.
  intros H. unfold traversal.
  destruct (side =? PlasmaLeft); destruct (trans =? Plasma_ConjTrans);
    try exact H; apply Forall_reverse; exact H.
Qed.

Lemma length_traversal (side trans : Z) ops :
  length (traversal side trans ops) = length ops.
Proof.
  unfold traversal.
  destruct (side =? PlasmaLeft); destruct (trans =? Plasma_ConjTrans);
    rewrite ?length_reverse; reflexivity.
Qed.

(** X5. When every record of the operation list has a kind the driver knows,
    the driver, entered on a sequence in success, leaves the status words
    alone and submits one call per record and per column tile of [B] from
    the left, per row tile of [B] from the right: nothing for an empty
    list or an empty grid. *)
Theorem pzunmqrrh_known_kinds (planner : Z -> Z -> list operation)
    (side trans : Z) A T B (work : plasma_workspace_t) (request : nat) s :
  sequence_status (async s) = PlasmaSuccess ->
  Forall (fun op => recognized (op_kernel op) = true)
    (planner (D.mt A) (D.nt A)) ->
  let s' := plasma_pzunmqrrh planner side trans A T B work request s in
  async s' = async s /\
  length (new_calls s s')
  = (length (planner (D.mt A) (D.nt A))
     * Z.to_nat (if (side =? PlasmaLeft)%Z then D.nt B else D.mt B))%nat.
Proof.
  intros Hs Hknown s'. subst s'. rewrite pzunmqrrh_fold by exact Hs.
  split.
  - apply fold_operation_body_known. apply Forall_traversal. exact Hknown.
  - unfold new_calls. rewrite fold_operation_body_queue, drop_app_length.
    rewrite (length_bind_same _
               (Z.to_nat (if side =? PlasmaLeft then D.nt B else D.mt B))).
    + rewrite length_traversal. reflexivity.
    + apply Forall_traversal. eapply Forall_impl; [exact Hknown|].
      intros op Hop. apply operation_calls_length. exact Hop.
Qed.


End PzunmqrrhMore.

(** ** The layout walks: extents and number of copies *)

Section LayoutMore.
Context `{PT : plasma_types_h} `{DH : plasma_descriptor_h}.
Import Layout.

Implicit Types (A : plasma_desc_t) (s : driver_state call).

Lemma sumZ_app (l k : list Z) : sumZ (l ++ k) = sumZ l + sumZ k.
Proof. unfold sumZ. induction l as [|x l IH]; simpl; lia. Qed.

Lemma sumZ_same (f : Z -> Z) (c lo hi : Z) :
  lo <= hi ->
  (forall k, lo <= k < hi -> f k = c) ->
  sumZ (f <$> range lo hi) = (hi - lo) * c.
Proof.
  intros Hle Hf.
  replace hi with (lo + Z.of_nat (Z.to_nat (hi - lo))) in * by lia.
  generalize dependent (Z.to_nat (hi - lo)). intros K _ Hf.
  induction K as [|K IH]; [rewrite range_nil by lia; simpl; lia|].
  rewrite Nat2Z.inj_succ.
  replace (lo + Z.succ (Z.of_nat K)) with (lo + Z.of_nat K + 1) by lia.
  rewrite range_snoc, fmap_app, sumZ_app by lia.
  rewrite IH by (intros; apply Hf; lia).
  simpl. rewrite Hf by lia. lia.
Qed.

Lemma int32_small (z : Z) :
  -2147483648 <= z < 2147483648 -> int32 z = z.
Proof. intros H. unfold int32. rewrite Z.mod_small by lia. lia. Qed.

Lemma fmap_range_ext (f g : Z -> Z) (lo hi : Z) :
  (forall k, lo <= k < hi -> f k = g k) ->
  f <$> range lo hi = g <$> range lo hi.
Proof.
  intros H. apply list_eq. intros i. rewrite !list_lookup_fmap.
  destruct (range lo hi !! i) as [k|] eqn:E; [|reflexivity].
  simpl. f_equal. apply H, elem_of_range.
  apply (list_elem_of_lookup_2 _ i). exact E.
Qed.

(** The frame arithmetic behind the bounds: the pieces into which tiles of
    size [b] cut the interval of [len] positions starting at [off]. *)
Lemma frame_partition (b off len cnt : Z) :
  0 < b -> 0 <= off -> 0 < len ->
  cnt = Z.quot (off + len - 1) b - Z.quot off b + 1 ->
  let lo := fun k => if k =? 0 then Z.rem off b else 0 in
  let hi := fun k =>
    if k =? cnt - 1 then Z.rem (off + len - 1) b + 1 else b in
  0 < cnt /\
  sumZ ((fun k => hi k - lo k) <$> range 0 cnt) = len /\
  (forall k, 0 <= k < cnt -> 0 < hi k - lo k <= b /\ hi k - lo k <= len).
Proof.
  intros Hb Hoff Hlen Hcnt lo hi.
  rewrite !Z.quot_div_nonneg in Hcnt by lia.
  assert (Elo : forall k, lo k = if k =? 0 then off mod b else 0).
  { intros k. unfold lo. rewrite Z.rem_mod_nonneg by lia. reflexivity. }
  assert (Ehi : forall k, hi k
                = if k =? cnt - 1 then (off + len - 1) mod b + 1 else b).
  { intros k. unfold hi. rewrite Z.rem_mod_nonneg by lia. reflexivity. }
  pose proof (Z.div_mod off b ltac:(lia)) as D0.
  pose proof (Z.div_mod (off + len - 1) b ltac:(lia)) as D1.
  pose proof (Z.mod_pos_bound off b Hb) as B0.
  pose proof (Z.mod_pos_bound (off + len - 1) b Hb) as B1.
  assert (Hq : off / b <= (off + len - 1) / b)
    by (apply Z.div_le_mono; lia).
  set (q0 := off / b) in *. set (q1 := (off + len - 1) / b) in *.
  set (r0 := off mod b) in *. set (r1 := (off + len - 1) mod b) in *.
  split; [lia|]. split.
  - destruct (Z.eq_dec cnt 1) as [E1|N1].
    + rewrite E1. change (range 0 1) with [0]. simpl.
      rewrite Elo, Ehi, E1. simpl. nia.
    + rewrite (range_cons 0 cnt) by lia.
      replace cnt with ((cnt - 1) + 1) at 1 by lia.
      rewrite range_snoc by lia.
      rewrite fmap_cons, fmap_app. unfold sumZ at 1. simpl.
      fold (sumZ (((fun k => hi k - lo k) <$> range (0 + 1) (cnt - 1))
                  ++ [hi (cnt - 1) - lo (cnt - 1)])).
      rewrite sumZ_app, (sumZ_same _ b) by
        (try lia; intros k Hk; rewrite Elo, Ehi;
         destruct (Z.eqb_spec k 0); destruct (Z.eqb_spec k (cnt - 1)); lia).
      simpl. rewrite !Elo, !Ehi, Z.eqb_refl.
      destruct (Z.eqb_spec 0 (cnt - 1)); [lia|].
      destruct (Z.eqb_spec (cnt - 1) 0); [lia|]. simpl.
      rewrite Z.eqb_refl. nia.
  - intros k Hk. rewrite Elo, Ehi.
    destruct (Z.eqb_spec k 0); destruct (Z.eqb_spec k (cnt - 1)); nia.
Qed.

(** The rows passed for the tiles of one tile column. *)
Lemma tile_rows_frame A :
  0 < D.mb A -> 0 <= D.i A -> 0 < D.m A -> D.i A + D.m A < 2147483648 ->
  D.mt A = Z.quot (D.i A + D.m A - 1) (D.mb A) - Z.quot (D.i A) (D.mb A) + 1 ->
  0 < D.mt A /\
  sumZ (tile_rows A <$> range 0 (D.mt A)) = D.m A /\
  (forall m, 0 <= m < D.mt A -> 0 < tile_rows A m <= D.mb A).
Proof.
  intros Hmb Hi Hm Hint Hmt.
  destruct (frame_partition (D.mb A) (D.i A) (D.m A) (D.mt A) Hmb Hi Hm Hmt)
    as (Hpos & Hsum & Hbound).
  assert (E : forall m, 0 <= m < D.mt A ->
            tile_rows A m
            = (if m =? D.mt A - 1
               then Z.rem (D.i A + D.m A - 1) (D.mb A) + 1 else D.mb A)
              - (if m =? 0 then Z.rem (D.i A) (D.mb A) else 0)).
  { intros m Hin. specialize (Hbound m Hin). unfold tile_rows, y2, y1.
    rewrite (int32_small (D.i A + D.m A - 1)) by lia.
    apply int32_small. lia. }
  split; [exact Hpos|]. split.
  - rewrite <- Hsum. f_equal. apply fmap_range_ext. exact E.
  - intros m Hin. rewrite (E m Hin). apply Hbound. exact Hin.
Qed.

(** The columns passed for the tiles of one tile row. *)
Lemma tile_cols_frame A :
  0 < D.nb A -> 0 <= D.j A -> 0 < D.n A -> D.j A + D.n A < 2147483648 ->
  D.nt A = Z.quot (D.j A + D.n A - 1) (D.nb A) - Z.quot (D.j A) (D.nb A) + 1 ->
  0 < D.nt A /\
  sumZ (tile_cols A <$> range 0 (D.nt A)) = D.n A /\
  (forall n, 0 <= n < D.nt A -> 0 < tile_cols A n <= D.nb A).
Proof.
  intros Hnb Hj Hn Hint Hnt.
  destruct (frame_partition (D.nb A) (D.j A) (D.n A) (D.nt A) Hnb Hj Hn Hnt)
    as (Hpos & Hsum & Hbound).
  assert (E : forall n, 0 <= n < D.nt A ->
            tile_cols A n
            = (if n =? D.nt A - 1
               then Z.rem (D.j A + D.n A - 1) (D.nb A) + 1 else D.nb A)
              - (if n =? 0 then Z.rem (D.j A) (D.nb A) else 0)).
  { intros n Hin. specialize (Hbound n Hin). unfold tile_cols, x2, x1.
    rewrite (int32_small (D.j A + D.n A - 1)) by lia.
    apply int32_small. lia. }
  split; [exact Hpos|]. split.
  - rewrite <- Hsum. f_equal. apply fmap_range_ext. exact E.
  - intros n Hin. rewrite (E n Hin). apply Hbound. exact Hin.
Qed.

Lemma filter_all {X : Type} (P : X -> Prop) `{forall x, Decision (P x)}
    (l : list X) :
  (forall x, x ∈ l -> P x) -> filter P l = l.
Proof.
  induction l as [|x l IH]; intros Hl; [reflexivity|].
  rewrite filter_cons_True by (apply Hl; left).
  f_equal. apply IH. intros y Hy. apply Hl. right. exact Hy.
Qed.

Lemma filter_none {X : Type} (P : X -> Prop) `{forall x, Decision (P x)}
    (l : list X) :
  (forall x, x ∈ l -> ~ P x) -> filter P l = [].
Proof.
  induction l as [|x l IH]; intros Hl; [reflexivity|].
  rewrite filter_cons_False by (apply Hl; left).
  apply IH. intros y Hy. apply Hl. right. exact Hy.
Qed.

Lemma bind_pair_singleton (m lo hi : Z) :
  (range lo hi ≫= fun n => [(m, n)]) = (fun n => (m, n)) <$> range lo hi.
Proof.
  unfold range. generalize (seqZ lo (hi - lo)). intros l.
  induction l as [|x l IH]; [reflexivity|].
  rewrite bind_cons, fmap_cons, IH. reflexivity.
Qed.

(** The tiles of tile column 0 a walk passes when [A.type] is not
    [PlasmaUpper]: all of them, top to bottom. *)
Lemma walk_tiles_column_0 A :
  (D.type A =? PlasmaUpper) = false -> 0 <= D.mt A ->
  filter (fun t => snd t = 0) (walk_tiles A)
  = (fun m => (m, 0)) <$> range 0 (D.mt A).
Proof.
  intros Ht Hmt. unfold walk_tiles. rewrite Ht.
  replace (seqZ 0 (D.mt A)) with (range 0 (D.mt A))
    by (unfold range; rewrite Z.sub_0_r; reflexivity).
  rewrite <- (Z2Nat.id (D.mt A)) by lia.
  generalize (Z.to_nat (D.mt A)). intros K.
  induction K as [|K IH]; [reflexivity|].
  rewrite Nat2Z.inj_succ, <- Z.add_1_r, range_snoc by lia.
  rewrite bind_app, filter_app, fmap_app, IH. f_equal.
  simpl. rewrite app_nil_r.
  change (seqZ 0 (Z.of_nat K + 1 - 0)) with (range 0 (Z.of_nat K + 1)).
  rewrite bind_pair_singleton, range_cons by lia.
  rewrite fmap_cons, filter_cons_True by reflexivity.
  f_equal. apply filter_none.
  intros t Hin. apply list_elem_of_fmap in Hin as (n & -> & Hn).
  apply elem_of_range in Hn. simpl. lia.
Qed.

(** The tiles of tile row 0 a walk passes when [A.type] is [PlasmaUpper]:
    all of them, left to right. *)
Lemma walk_tiles_row_0 A :
  (D.type A =? PlasmaUpper) = true -> 0 < D.mt A ->
  filter (fun t => fst t = 0) (walk_tiles A)
  = (fun n => (0, n)) <$> range 0 (D.nt A).
Proof.
  intros Ht Hmt. unfold walk_tiles. rewrite Ht.
  replace (seqZ 0 (D.mt A)) with (range 0 (D.mt A))
    by (unfold range; rewrite Z.sub_0_r; reflexivity).
  rewrite range_cons, bind_cons, filter_app by lia.
  change (seqZ 0 (D.nt A - 0)) with (range 0 (D.nt A)).
  rewrite bind_pair_singleton.
  rewrite filter_all, filter_none; [apply app_nil_r| |].
  - intros t Hin. apply list_elem_of_bind in Hin as (m & Hin & Hm).
    apply elem_of_range in Hm.
    apply list_elem_of_bind in Hin as (n & Hin & _).
    apply list_elem_of_singleton in Hin. subst t. simpl. lia.
  - intros t Hin. apply list_elem_of_fmap in Hin as (n & -> & _). reflexivity.
Qed.

(** X7. The extents the layout walks pass.  Both walks pass, for every
    tile they visit, the same extents [y2 - y1] by [x2 - x1].  Take a
    descriptor whose tile grid is the one its offsets and sizes call for,
    [mt = (i+m-1)/mb - i/mb + 1] rows and [nt = (j+n-1)/nb - j/nb + 1]
    columns of tiles, with [i + m] and [j + n] in the range of an [int].
    When [A.type] is not [PlasmaUpper] the walks visit every tile of tile
    column 0, and the rows passed for these tiles add up to [A.m]; when
    [A.type] is [PlasmaUpper] they visit every tile of tile row 0, and the
    columns passed for these tiles add up to [A.n].  For every visited
    tile inside the grid the extents are positive and at most the tile
    size.  The visited tiles do not cover the grid: a walk that is not
    [PlasmaUpper] leaves out tile [(0, 1)] whenever the grid has a second
    tile column. *)
Theorem layout_walk_extents (pA lda : Z) A s :
  sequence_status (async s) = PlasmaSuccess ->
  0 < D.mb A -> 0 <= D.i A -> 0 < D.m A -> D.i A + D.m A < 2147483648 ->
  D.mt A = Z.quot (D.i A + D.m A - 1) (D.mb A) - Z.quot (D.i A) (D.mb A) + 1 ->
  0 < D.nb A -> 0 <= D.j A -> 0 < D.n A -> D.j A + D.n A < 2147483648 ->
  D.nt A = Z.quot (D.j A + D.n A - 1) (D.nb A) - Z.quot (D.j A) (D.nb A) + 1 ->
  let to_tiled := new_calls s (plasma_pdtr2desc_blasfeo pA lda A s) in
  let from_tiled := new_calls s (plasma_pddesc2tr_blasfeo A pA lda s) in
  let column_0 := filter (fun t => snd t = 0) (walk_tiles A) in
  let row_0 := filter (fun t => fst t = 0) (walk_tiles A) in
  to_tiled = pack_call pA lda A <$> walk_tiles A /\
  from_tiled = unpack_call pA lda A <$> walk_tiles A /\
  call_rows <$> from_tiled = call_rows <$> to_tiled /\
  call_cols <$> from_tiled = call_cols <$> to_tiled /\
  (D.type A <> PlasmaUpper ->
   column_0 = (fun m => (m, 0)) <$> range 0 (D.mt A) /\
   sumZ (call_rows <$> (pack_call pA lda A <$> column_0)) = D.m A /\
   (1 < D.nt A -> (0, 1) ∉ walk_tiles A)) /\
  (D.type A = PlasmaUpper ->
   row_0 = (fun n => (0, n)) <$> range 0 (D.nt A) /\
   sumZ (call_cols <$> (pack_call pA lda A <$> row_0)) = D.n A) /\
  (forall m n, (m, n) ∈ walk_tiles A -> n < D.nt A ->
     0 < call_rows (pack_call pA lda A (m, n)) <= D.mb A /\
     0 < call_cols (pack_call pA lda A (m, n)) <= D.nb A).
Proof.
  intros Hs Hmb Hi Hm Hmi Hmt Hnb Hj Hn Hnj Hnt
         to_tiled from_tiled column_0 row_0.
  subst to_tiled from_tiled column_0 row_0.
  rewrite pdtr2desc_walk, pddesc2tr_walk by exact Hs.
  rewrite !new_calls_emit.
  destruct (tile_rows_frame A Hmb Hi Hm Hmi Hmt) as (Pmt & Srow & Brow).
  destruct (tile_cols_frame A Hnb Hj Hn Hnj Hnt) as (Pnt & Scol & Bcol).
  split; [reflexivity|]. split; [reflexivity|].
  split; [rewrite <- !list_fmap_compose; reflexivity|].
  split; [rewrite <- !list_fmap_compose; reflexivity|].
  split; [|split].
  - intros Htype.
    assert (Et : (D.type A =? PlasmaUpper) = false).
    { destruct (Z.eqb_spec (D.type A) PlasmaUpper); [contradiction|reflexivity]. }
    rewrite walk_tiles_column_0 by (try exact Et; lia).
    split; [reflexivity|]. split.
    + rewrite <- !list_fmap_compose. exact Srow.
    + intros _ Hin. apply elem_of_walk_tiles in Hin. rewrite Et in Hin. lia.
  - intros Htype.
    assert (Et : (D.type A =? PlasmaUpper) = true)
      by (apply Z.eqb_eq; exact Htype).
    rewrite walk_tiles_row_0 by (try exact Et; lia).
    split; [reflexivity|].
    rewrite <- !list_fmap_compose. exact Scol.
  - intros m n Hin Hlt. apply elem_of_walk_tiles in Hin.
    simpl. split; [apply Brow; lia|apply Bcol].
    destruct (D.type A =? PlasmaUpper); lia.
Qed.

Lemma length_walk_tiles_lower A :
  (D.type A =? PlasmaUpper) = false -> 0 <= D.mt A ->
  2 * Z.of_nat (length (walk_tiles A)) = D.mt A * (D.mt A + 1).
Proof.
  intros Ht Hmt. unfold walk_tiles. rewrite Ht.
  rewrite <- (Z2Nat.id (D.mt A)) by lia.
  generalize (Z.to_nat (D.mt A)). intros K.
  replace (seqZ 0 (Z.of_nat K)) with (range 0 (Z.of_nat K))
    by (unfold range; rewrite Z.sub_0_r; reflexivity).
  rewrite (length_bind_range _ (fun k => k + 1)).
  - induction K as [|K IH]; [reflexivity|].
    rewrite Nat2Z.inj_succ, <- Z.add_1_r, range_snoc, fmap_app, sumZ_app by lia.
    simpl. nia.
  - intros k Hk.
    transitivity (Z.of_nat (length (seqZ 0 (k + 1 - 0)))).
    + f_equal. generalize (seqZ 0 (k + 1 - 0)). intros l.
      induction l as [|x l IHl]; simpl; [reflexivity|]. f_equal. exact IHl.
    + rewrite length_seqZ. lia.
Qed.

(** X8. How many tiles the layout walks copy, for a descriptor that is not
    [PlasmaUpper]: [mt (mt + 1) / 2], whatever [A.nt] is.  The column
    index of a copy runs up to the row index, not up to [A.nt]: with fewer
    tile columns than tile rows the walks also address the tile in row
    [mt - 1] and column [nt], outside the grid. *)
Theorem layout_lower_walk_count (pA lda : Z) A s :
  sequence_status (async s) = PlasmaSuccess ->
  D.type A <> PlasmaUpper ->
  0 <= D.mt A ->
  let to_tiled := new_calls s (plasma_pdtr2desc_blasfeo pA lda A s) in
  let from_tiled := new_calls s (plasma_pddesc2tr_blasfeo A pA lda s) in
  2 * Z.of_nat (length to_tiled) = D.mt A * (D.mt A + 1) /\
  2 * Z.of_nat (length from_tiled) = D.mt A * (D.mt A + 1) /\
  (0 <= D.nt A < D.mt A ->
   pack_call pA lda A (D.mt A - 1, D.nt A) ∈ to_tiled /\
   unpack_call pA lda A (D.mt A - 1, D.nt A) ∈ from_tiled).
Proof.
  intros Hs Ht Hmt to_tiled from_tiled. subst to_tiled from_tiled.
  rewrite pdtr2desc_walk, pddesc2tr_walk by exact Hs.
  rewrite !new_calls_emit, !length_fmap.
  assert (Et : (D.type A =? PlasmaUpper) = false).
  { destruct (Z.eqb_spec (D.type A) PlasmaUpper); [contradiction|reflexivity]. }
  split; [apply length_walk_tiles_lower; assumption|].
  split; [apply length_walk_tiles_lower; assumption|].
  intros Hnt.
  assert (Hin : (D.mt A - 1, D.nt A) ∈ walk_tiles A).
  { apply elem_of_walk_tiles. rewrite Et. lia. }
  split; apply list_elem_of_fmap; eexists; (split; [reflexivity|exact Hin]).
Qed.

End LayoutMore.

(** ** Queues of Cholesky tasks *)

Section CoreDpotrfMore.
Context `{PT : plasma_types_h}.
Context {blasfeo_dmat mem : Type}.
Import CoreDpotrf.

Implicit Types (calls : list (dpotrf_call blasfeo_dmat mem)).
Implicit Types (st : task_state mem).

Lemma submit_dpotrf_tasks calls : submit_dpotrf calls = task_of <$> calls.
Proof.
  unfold submit_dpotrf.
  assert (G : forall q,
            foldl (fun q c =>
                     plasma_core_omp_dpotrf_blasfeo (dc_core c)
                       (dc_uplo c) (dc_n c) (dc_sA c) (dc_ai c) (dc_aj c)
                       (dc_iinfo c) (dc_request c) q) q calls
            = q ++ (task_of <$> calls)).
  { induction calls as [|c calls IH]; intros q; simpl.
    - rewrite app_nil_r. reflexivity.
    - rewrite IH. unfold plasma_core_omp_dpotrf_blasfeo.
      rewrite <- app_assoc. reflexivity. }
  apply (G []).
Qed.

Lemma task_of_failed (c : dpotrf_call blasfeo_dmat mem) st :
  sequence_status (fst st) <> PlasmaSuccess -> task_of c st = st.
Proof.
  intros H. unfold task_of, dpotrf_task.
  destruct (Z.eqb_spec (sequence_status (fst st)) PlasmaSuccess); [contradiction|].
  reflexivity.
Qed.

Lemma run_tasks_app {S : Type} (q1 q2 : list (S -> S)) (x : S) :
  run_tasks (q1 ++ q2) x = run_tasks q2 (run_tasks q1 x).
Proof. unfold run_tasks. apply foldl_app. Qed.

Lemma run_tasks_cons {S : Type} (t : S -> S) (q : list (S -> S)) (x : S) :
  run_tasks (t :: q) x = run_tasks q (t x).
Proof. reflexivity. Qed.

Lemma run_tasks_failed calls st :
  sequence_status (fst st) <> PlasmaSuccess ->
  run_tasks (task_of <$> calls) st = st.
Proof.
  intros H. unfold run_tasks.
  induction calls as [|c calls IH]; simpl; [reflexivity|].
  rewrite task_of_failed by exact H. exact IH.
Qed.

(** X9. With the kernel as this file defines it the task never reports a
    failure: whatever BLASFEO's routine did, and whatever [uplo], [iinfo]
    and the request are, the status words are left alone.  On a sequence in
    success the memory is what [blasfeo_dpotrf_l], the lower-triangular
    routine, leaves when it factors the block at [(ai, aj)] of [sA] in
    place; [uplo] plays no part. *)
Theorem dpotrf_repository_kernel
    (blasfeo_dpotrf_l :
       Z -> blasfeo_dmat -> Z -> Z -> blasfeo_dmat -> Z -> Z -> mem -> mem)
    (uplo uplo' n : Z) (sA : blasfeo_dmat) (ai aj iinfo iinfo' : Z)
    (request request' : nat) (a : async_t) (mu : mem) :
  let task := dpotrf_task (plasma_core_dpotrf_blasfeo blasfeo_dpotrf_l)
                uplo n sA ai aj iinfo request in
  fst (task (a, mu)) = a /\
  snd (task (a, mu))
  = (if sequence_status a =? PlasmaSuccess
     then blasfeo_dpotrf_l n sA ai aj sA ai aj mu else mu) /\
  task (a, mu)
  = dpotrf_task (plasma_core_dpotrf_blasfeo blasfeo_dpotrf_l)
      uplo' n sA ai aj iinfo' request' (a, mu).
Proof.
  intros task. subst task. unfold dpotrf_task, plasma_core_dpotrf_blasfeo.
  cbn [fst snd]. destruct (sequence_status a =? PlasmaSuccess);
    repeat split; reflexivity.
Qed.

(** X10. A series of calls of the wrapper enqueues one task per call.  On
    a failed sequence the tasks change nothing, in whatever order they
    run.  For calls on one matrix, whose tasks run in the order of their
    submission: once the sequence has failed part of the way through the
    queue, the tasks after that point change nothing, and the state is
    the one the failure left. *)
Theorem dpotrf_queue_after_failure calls (more : list (dpotrf_call blasfeo_dmat mem)) st :
  length (submit_dpotrf calls) = length calls /\
  (forall order, order ≡ₚ submit_dpotrf calls ->
     sequence_status (fst st) <> PlasmaSuccess ->
     run_tasks order st = st) /\
  (same_matrix (calls ++ more) ->
   sequence_status (fst (run_tasks (submit_dpotrf calls) st)) <> PlasmaSuccess ->
     run_tasks (submit_dpotrf (calls ++ more)) st
     = run_tasks (submit_dpotrf calls) st).
Proof.
  rewrite !submit_dpotrf_tasks, length_fmap. split; [reflexivity|].
  split.
  - intros order Hperm Hfailed.
    assert (Hall : forall t, t ∈ order -> t st = st).
    { intros t Hin. rewrite Hperm in Hin.
      apply list_elem_of_fmap in Hin as (c & -> & _).
      apply task_of_failed. exact Hfailed. }
    clear Hperm. unfold run_tasks.
    induction order as [|t order IH]; simpl; [reflexivity|].
    rewrite Hall by left. apply IH. intros t' Hin. apply Hall. right. exact Hin.
  - intros _ H. rewrite fmap_app, run_tasks_app.
    apply run_tasks_failed. exact H.
Qed.

(** X11. The first failure names its task, for calls on one matrix, whose
    tasks run in the order of their submission.  If the tasks before a
    call leave the sequence in success, and that call's kernel then
    returns [info <> 0] with [iinfo + info] not the success code, then,
    whatever is enqueued after it, the sequence ends with status
    [iinfo + info], the call's request holds that code, and the memory is
    as that kernel left it. *)
Theorem dpotrf_first_failure_identified
    (before after : list (dpotrf_call blasfeo_dmat mem))
    (c : dpotrf_call blasfeo_dmat mem) st :
  same_matrix (before ++ c :: after) ->
  let st1 := run_tasks (submit_dpotrf before) st in
  let r := dc_core c (dc_uplo c) (dc_n c) (dc_sA c) (dc_ai c) (dc_aj c)
             (snd st1) in
  sequence_status (fst st1) = PlasmaSuccess ->
  snd r <> 0 ->
  dc_iinfo c + snd r <> PlasmaSuccess ->
  let final := run_tasks (submit_dpotrf (before ++ c :: after)) st in
  sequence_status (fst final) = dc_iinfo c + snd r /\
  request_status (fst final) !! dc_request c = Some (dc_iinfo c + snd r) /\
  snd final = fst r.
Proof.
  intros _ st1 r Hok Hinfo Hcode final. subst final.
  assert (E : task_of c st1
              = (plasma_request_fail (dc_request c) (dc_iinfo c + snd r) (fst st1),
                 fst r)).
  { unfold task_of, dpotrf_task. rewrite Hok, Z.eqb_refl. fold r.
    destruct (Z.eqb_spec (snd r) 0); [contradiction|]. reflexivity. }
  rewrite (submit_dpotrf_tasks (before ++ c :: after)), fmap_app, fmap_cons,
    run_tasks_app, run_tasks_cons, <- (submit_dpotrf_tasks before).
  change (run_tasks (submit_dpotrf before) st) with st1.
  rewrite E, run_tasks_failed.
  - cbn [fst snd]. rewrite request_fail_first by exact Hok.
    split; [reflexivity|]. split; [apply request_fail_request|reflexivity].
  - cbn [fst]. rewrite request_fail_first by exact Hok. exact Hcode.
Qed.

End CoreDpotrfMore.

(** ** The symmetric rank-k update beyond its quick return *)

Section ZsyrkMore.
Context `{PT : plasma_types_h}.
Context {plasma_complex64_t call : Type}.
Context (eq_zero eq_one : plasma_complex64_t -> bool).
Context (plasma_context_self : option Z).
Context (plasma_desc_check : plasma_desc_t -> Z).
Context (plasma_pzsyrk :
  Z -> Z -> plasma_complex64_t -> plasma_desc_t ->
  plasma_complex64_t -> plasma_desc_t -> nat ->
  driver_state call -> driver_state call).
Context (PLASMA_zcm2ccrb_Async :
  Z -> Z -> plasma_desc_t -> nat -> driver_state call -> driver_state call).
Context (PLASMA_zccrb2cm_Async :
  plasma_desc_t -> Z -> Z -> nat -> driver_state call -> driver_state call).
Context (plasma_desc_general_create :
  Z -> Z -> Z -> Z -> Z -> Z -> Z -> Z -> Z -> Z * plasma_desc_t).
Context (plasma_sequence_create : Z).
Context (synchronize : driver_state call -> async_t).
Import Zsyrk.

Implicit Types (alpha beta : plasma_complex64_t) (s : driver_state call).

(** With pointers that are not [NULL] the tile-async entry has a result,
    one of three. *)
Lemma omp_zsyrk_cases (uplo trans : Z) alpha (dA : plasma_desc_t) beta
    (dC : plasma_desc_t) (request : nat) s :
  let valid :=
    is_Some plasma_context_self /\
    (uplo = PlasmaUpper \/ uplo = PlasmaLower) /\
    (trans = PlasmaNoTrans \/ trans = PlasmaTrans) /\
    plasma_desc_check dA = PlasmaSuccess /\
    plasma_desc_check dC = PlasmaSuccess in
  let result :=
    plasma_omp_zsyrk eq_zero eq_one plasma_context_self plasma_desc_check
      plasma_pzsyrk uplo trans alpha dA beta dC true (Some request) s in
  (valid /\
   result = Some
     (if quick_return eq_zero eq_one (D.m dC)
           (if trans =? PlasmaNoTrans then D.n dA else D.m dA) alpha beta
      then s else plasma_pzsyrk uplo trans alpha dA beta dC request s)) \/
  (~ valid /\
   result = Some (request_fail request PlasmaErrorIllegalValue s)).
Proof.
  intros valid result. subst valid result.
  unfold plasma_omp_zsyrk, quick_return, request_fail_at.
  destruct plasma_context_self as [nb|];
    [|right; split; [intros ([x Hx] & _); discriminate|reflexivity]].
  destruct (negb (uplo =? PlasmaUpper) && negb (uplo =? PlasmaLower)) eqn:Eu.
  { right. split; [|reflexivity]. intros (_ & Hu & _).
    apply one_of_two in Hu. congruence. }
  destruct (negb (trans =? PlasmaNoTrans) && negb (trans =? PlasmaTrans)) eqn:Et.
  { right. split; [|reflexivity]. intros (_ & _ & Ht & _).
    apply one_of_two in Ht. congruence. }
  destruct (Z.eqb_spec (plasma_desc_check dA) PlasmaSuccess) as [EA|NA];
    simpl negb; cbv iota.
  2:{ right. split; [|reflexivity]. intros (_ & _ & _ & HA & _). contradiction. }
  destruct (Z.eqb_spec (plasma_desc_check dC) PlasmaSuccess) as [EC|NC];
    simpl negb; cbv iota.
  2:{ right. split; [|reflexivity]. intros (_ & _ & _ & _ & HC). contradiction. }
  left. apply one_of_two in Eu, Et. split.
  - split; [eexists; reflexivity|]. auto.
  - cbv zeta.
    destruct ((D.m dC =? 0)
              || (eq_zero alpha
                  || ((if trans =? PlasmaNoTrans then D.n dA else D.m dA) =? 0))
                 && eq_one beta); reflexivity.
Qed.

(** X12. The tile-async entry either passes its checks or fails them, and acts
    on nothing else.  Called with a sequence and a request, it calls the
    parallel function whenever PLASMA is initialized, [uplo] and [trans]
    are legal, both descriptors pass [plasma_desc_check] and the
    quick-return test is false, whatever the sequence status is; when one
    of the checks fails it calls [requestFail] with
    [PlasmaErrorIllegalValue] instead, submits nothing, and the request
    holds that code, as does a sequence that was in success. *)
Theorem omp_zsyrk_checks (uplo trans : Z) alpha (dA : plasma_desc_t) beta
    (dC : plasma_desc_t) (request : nat) s :
  let valid :=
    is_Some plasma_context_self /\
    (uplo = PlasmaUpper \/ uplo = PlasmaLower) /\
    (trans = PlasmaNoTrans \/ trans = PlasmaTrans) /\
    plasma_desc_check dA = PlasmaSuccess /\
    plasma_desc_check dC = PlasmaSuccess in
  let quick :=
    quick_return eq_zero eq_one (D.m dC)
      (if trans =? PlasmaNoTrans then D.n dA else D.m dA) alpha beta in
  let result :=
    plasma_omp_zsyrk eq_zero eq_one plasma_context_self plasma_desc_check
      plasma_pzsyrk uplo trans alpha dA beta dC true (Some request) s in
  (valid -> quick = false ->
     result = Some (plasma_pzsyrk uplo trans alpha dA beta dC request s)) /\
  (~ valid ->
     result = Some (request_fail request PlasmaErrorIllegalValue s) /\
     exists s', result = Some s' /\
       queue s' = queue s /\
       request_status (async s') !! request = Some PlasmaErrorIllegalValue /\
       (sequence_status (async s) = PlasmaSuccess ->
        sequence_status (async s') = PlasmaErrorIllegalValue)).
Proof.
  intros valid quick result.
  destruct (omp_zsyrk_cases uplo trans alpha dA beta dC request s)
    as [[Hv E]|[Hn E]]; fold valid in Hv || fold valid in Hn;
    fold result in E; fold quick in E.
  - split; [|intros Hn; contradiction].
    intros _ Hq. rewrite E, Hq. reflexivity.
  - split; [intros Hv; contradiction|]. intros _.
    split; [exact E|]. eexists. split; [exact E|].
    split; [reflexivity|]. split; [apply request_fail_request|].
    apply request_fail_first.
Qed.

Lemma omp_zsyrk_some (uplo trans : Z) alpha (dA : plasma_desc_t) beta
    (dC : plasma_desc_t) (request : nat) s :
  plasma_omp_zsyrk eq_zero eq_one plasma_context_self plasma_desc_check
    plasma_pzsyrk uplo trans alpha dA beta dC true (Some request) s <> None.
Proof.
  destruct (omp_zsyrk_cases uplo trans alpha dA beta dC request s)
    as [[_ E]|[_ E]]; cbv zeta in E; rewrite E; discriminate.
Qed.

(** The routine as a chain of decisions. *)
Lemma zsyrk_cases (uplo trans n k : Z) alpha (A lda : Z) beta (C ldc : Z) :
  let result :=
    PLASMA_zsyrk eq_zero eq_one plasma_context_self plasma_desc_check
      plasma_pzsyrk PLASMA_zcm2ccrb_Async PLASMA_zccrb2cm_Async
      plasma_desc_general_create plasma_sequence_create synchronize
      uplo trans n k alpha A lda beta C ldc in
  let Am := if trans =? PlasmaNoTrans then n else k in
  let An := if trans =? PlasmaNoTrans then k else n in
  (exists r, result = Some (r, []) /\
     (zsyrk_arguments_ok plasma_context_self uplo trans n k lda ldc ->
      quick_return eq_zero eq_one n k alpha beta = true)) \/
  (zsyrk_arguments_ok plasma_context_self uplo trans n k lda ldc /\
   quick_return eq_zero eq_one n k alpha beta = false /\
   exists nb, plasma_context_self = Some nb /\
     let cA := plasma_desc_general_create PlasmaComplexDouble nb nb Am An 0 0 Am An in
     let cC := plasma_desc_general_create PlasmaComplexDouble nb nb n n 0 0 n n in
     let eA := desc_general_create PlasmaComplexDouble nb nb Am An 0 0 Am An in
     let eC := desc_general_create PlasmaComplexDouble nb nb n n 0 0 n n in
     (fst cA <> PlasmaSuccess /\ result = Some (fst cA, [eA])) \/
     (fst cA = PlasmaSuccess /\ fst cC <> PlasmaSuccess /\
      result = Some (fst cC, [eA; eC; desc_destroy (snd cA)])) \/
     (fst cA = PlasmaSuccess /\ fst cC = PlasmaSuccess /\
      plasma_sequence_create <> PlasmaSuccess /\
      result = Some (plasma_sequence_create, [eA; eC; sequence_create])) \/
     (fst cA = PlasmaSuccess /\ fst cC = PlasmaSuccess /\
      plasma_sequence_create = PlasmaSuccess /\
      exists s2 s3,
        s2 = PLASMA_zcm2ccrb_Async C ldc (snd cC) 0%nat
               (PLASMA_zcm2ccrb_Async A lda (snd cA) 0%nat
                  {| async := sequenceInit; queue := [] |}) /\
        plasma_omp_zsyrk eq_zero eq_one plasma_context_self plasma_desc_check
          plasma_pzsyrk uplo trans alpha (snd cA) beta (snd cC)
          true (Some 0%nat) s2 = Some s3 /\
        result = Some
          (sequence_status
             (synchronize (PLASMA_zccrb2cm_Async (snd cC) C ldc 0%nat s3)),
           [eA; eC; sequence_create;
            parallel_region
              (queue (PLASMA_zccrb2cm_Async (snd cC) C ldc 0%nat s3));
            desc_destroy (snd cA); desc_destroy (snd cC);
            sequence_destroy]))).
Proof.
  intros result Am An. subst result. unfold PLASMA_zsyrk, zsyrk_arguments_ok.
  destruct plasma_context_self as [nb|] eqn:Hctx.
  2:{ left. eexists. split; [reflexivity|]. intros ([x Hx] & _). discriminate. }
  destruct (negb (uplo =? PlasmaUpper) && negb (uplo =? PlasmaLower)) eqn:Eu.
  { left. eexists. split; [reflexivity|]. intros (_ & Hu & _).
    apply one_of_two in Hu. congruence. }
  destruct (negb (trans =? PlasmaNoTrans) && negb (trans =? PlasmaTrans)) eqn:Et.
  { left. eexists. split; [reflexivity|]. intros (_ & _ & Ht & _).
    apply one_of_two in Ht. congruence. }
  cbv zeta. fold Am.
  destruct (Z.ltb_spec n 0).
  { left. eexists. split; [reflexivity|]. intros (_ & _ & _ & Hn & _). lia. }
  destruct (Z.ltb_spec k 0).
  { left. eexists. split; [reflexivity|]. intros (_ & _ & _ & _ & Hk & _). lia. }
  destruct (Z.ltb_spec lda (imax 1 Am)).
  { left. eexists. split; [reflexivity|].
    intros (_ & _ & _ & _ & _ & Hl & _). lia. }
  destruct (Z.ltb_spec ldc (imax 1 n)).
  { left. eexists. split; [reflexivity|].
    intros (_ & _ & _ & _ & _ & _ & Hl). lia. }
  fold (quick_return eq_zero eq_one n k alpha beta).
  destruct (quick_return eq_zero eq_one n k alpha beta) eqn:Eq.
  { left. eexists. split; [reflexivity|]. intros _. reflexivity. }
  right. apply one_of_two in Eu, Et.
  split; [split; [eexists; reflexivity|]; repeat split; assumption|].
  split; [reflexivity|]. exists nb. split; [reflexivity|]. cbv zeta. fold An.
  destruct (Z.eqb_spec
              (fst (plasma_desc_general_create PlasmaComplexDouble nb nb
                      Am An 0 0 Am An)) PlasmaSuccess) as [EA|NA];
    simpl negb; cbv iota; [|left; split; [exact NA|reflexivity]].
  right.
  destruct (Z.eqb_spec
              (fst (plasma_desc_general_create PlasmaComplexDouble nb nb
                      n n 0 0 n n)) PlasmaSuccess) as [EC|NC];
    simpl negb; cbv iota; [|left; split; [exact EA|]; split; [exact NC|reflexivity]].
  right.
  destruct (Z.eqb_spec plasma_sequence_create PlasmaSuccess) as [ES|NS];
    simpl negb; cbv iota;
    [|left; split; [exact EA|]; split; [exact EC|]; split; [exact NS|reflexivity]].
  right. split; [exact EA|]. split; [exact EC|]. split; [exact ES|].
  destruct (plasma_omp_zsyrk eq_zero eq_one (Some nb) plasma_desc_check
              plasma_pzsyrk uplo trans alpha _ beta _ true (Some 0%nat) _)
    as [s3|] eqn:E3.
  - eexists _, s3. split; [reflexivity|]. split; [exact E3|reflexivity].
  - exfalso. revert E3. rewrite <- Hctx. apply omp_zsyrk_some.
Qed.

(** X13. [PLASMA_zsyrk] always returns, and it checks before it builds: unless
    PLASMA is initialized, every argument is legal and the quick-return
    test is false, it has created nothing, destroyed nothing and entered no
    parallel region. *)
Theorem zsyrk_fail_fast (uplo trans n k : Z) alpha (A lda : Z) beta (C ldc : Z) :
  exists r log,
    PLASMA_zsyrk eq_zero eq_one plasma_context_self plasma_desc_check
      plasma_pzsyrk PLASMA_zcm2ccrb_Async PLASMA_zccrb2cm_Async
      plasma_desc_general_create plasma_sequence_create synchronize
      uplo trans n k alpha A lda beta C ldc = Some (r, log) /\
    (log <> [] ->
     zsyrk_arguments_ok plasma_context_self uplo trans n k lda ldc /\
     quick_return eq_zero eq_one n k alpha beta = false).
Proof.
  destruct (zsyrk_cases uplo trans n k alpha A lda beta C ldc)
    as [(r & E & _)|(Hok & Hq & nb & _ & Hrest)]; cbv zeta in *.
  - eexists _, _. split; [exact E|]. intros H. contradiction.
  - destruct Hrest as [(_ & E)|[(_ & _ & E)|[(_ & _ & _ & E)
                       |(_ & _ & _ & s2 & s3 & _ & _ & E)]]];
      eexists _, _; (split; [exact E|]); intros _; split; assumption.
Qed.

(** X14. Past its own quick return the routine always reaches the parallel
    function.  When the arguments are legal, the quick-return test is
    false, both descriptors are created with the extents asked for and
    pass [plasma_desc_check], and the sequence is created, the tile-async
    entry neither fails a check nor returns quickly: the region submits,
    in order, the translation of [A], the translation of [C], the parallel
    rank-k update and the translation of [C] back, and the routine returns
    the sequence status found after synchronization. *)
Theorem zsyrk_reaches_parallel (uplo trans n k nb : Z) alpha (A lda : Z) beta
    (C ldc : Z) :
  let Am := if trans =? PlasmaNoTrans then n else k in
  let An := if trans =? PlasmaNoTrans then k else n in
  let cA := plasma_desc_general_create PlasmaComplexDouble nb nb Am An 0 0 Am An in
  let cC := plasma_desc_general_create PlasmaComplexDouble nb nb n n 0 0 n n in
  plasma_context_self = Some nb ->
  zsyrk_arguments_ok plasma_context_self uplo trans n k lda ldc ->
  quick_return eq_zero eq_one n k alpha beta = false ->
  fst cA = PlasmaSuccess -> D.m (snd cA) = Am -> D.n (snd cA) = An ->
  fst cC = PlasmaSuccess -> D.m (snd cC) = n ->
  plasma_desc_check (snd cA) = PlasmaSuccess ->
  plasma_desc_check (snd cC) = PlasmaSuccess ->
  plasma_sequence_create = PlasmaSuccess ->
  let final :=
    PLASMA_zccrb2cm_Async (snd cC) C ldc 0%nat
      (plasma_pzsyrk uplo trans alpha (snd cA) beta (snd cC) 0%nat
         (PLASMA_zcm2ccrb_Async C ldc (snd cC) 0%nat
            (PLASMA_zcm2ccrb_Async A lda (snd cA) 0%nat
               {| async := sequenceInit; queue := [] |}))) in
  PLASMA_zsyrk eq_zero eq_one plasma_context_self plasma_desc_check
    plasma_pzsyrk PLASMA_zcm2ccrb_Async PLASMA_zccrb2cm_Async
    plasma_desc_general_create plasma_sequence_create synchronize
    uplo trans n k alpha A lda beta C ldc
  = Some (sequence_status (synchronize final),
          [desc_general_create PlasmaComplexDouble nb nb Am An 0 0 Am An;
           desc_general_create PlasmaComplexDouble nb nb n n 0 0 n n;
           sequence_create;
           parallel_region (queue final);
           desc_destroy (snd cA); desc_destroy (snd cC);
           sequence_destroy]).
Proof.
  intros Am An cA cC Hctx Hok Hq HA HAm HAn HC HCm HdA HdC Hseq final.
  destruct (zsyrk_cases uplo trans n k alpha A lda beta C ldc)
    as [(r & _ & Hquick)|(_ & _ & nb' & Hctx' & Hrest)]; cbv zeta in *.
  { rewrite (Hquick Hok) in Hq. discriminate. }
  assert (nb' = nb) by congruence. subst nb'.
  fold Am An in Hrest. fold cA cC in Hrest.
  destruct Hrest as [(N & _)|[(_ & N & _)|[(_ & _ & N & _)
                    |(_ & _ & _ & s2 & s3 & -> & E3 & E)]]];
    try contradiction.
  rewrite E.
  assert (Hs3 : s3 = plasma_pzsyrk uplo trans alpha (snd cA) beta (snd cC) 0%nat
                  (PLASMA_zcm2ccrb_Async C ldc (snd cC) 0%nat
                     (PLASMA_zcm2ccrb_Async A lda (snd cA) 0%nat
                        {| async := sequenceInit; queue := [] |}))).
  { destruct Hok as (Hsome & Hu & Ht & _).
    destruct (omp_zsyrk_cases uplo trans alpha (snd cA) beta (snd cC) 0%nat
                (PLASMA_zcm2ccrb_Async C ldc (snd cC) 0%nat
                   (PLASMA_zcm2ccrb_Async A lda (snd cA) 0%nat
                      {| async := sequenceInit; queue := [] |})))
      as [[_ E']|[Hn _]]; cbv zeta in *.
    - rewrite E3 in E'. injection E' as ->.
      assert (Hinner : quick_return eq_zero eq_one (D.m (snd cC))
                (if trans =? PlasmaNoTrans then D.n (snd cA) else D.m (snd cA))
                alpha beta = false).
      { rewrite HCm, HAn, HAm. unfold An, Am.
        destruct (trans =? PlasmaNoTrans); exact Hq. }
      rewrite Hinner. reflexivity.
    - exfalso. apply Hn. repeat split; assumption. }
  subst s3. reflexivity.
Qed.

(** X15. Who releases the descriptors.  When the sequence can be created,
    every descriptor [PLASMA_zsyrk] created is destroyed before it returns,
    once and in the order of creation, on every path.  When both
    descriptors are created and creating the sequence fails, the routine
    returns that failure with neither descriptor destroyed. *)
Theorem zsyrk_descriptor_release (uplo trans n k : Z) alpha (A lda : Z) beta
    (C ldc : Z) (r : Z) (log : list (event call)) :
  PLASMA_zsyrk eq_zero eq_one plasma_context_self plasma_desc_check
    plasma_pzsyrk PLASMA_zcm2ccrb_Async PLASMA_zccrb2cm_Async
    plasma_desc_general_create plasma_sequence_create synchronize
    uplo trans n k alpha A lda beta C ldc = Some (r, log) ->
  (plasma_sequence_create = PlasmaSuccess ->
   destroyed log = created_ok plasma_desc_general_create log) /\
  (plasma_sequence_create <> PlasmaSuccess ->
   length (created_ok plasma_desc_general_create log) = 2%nat ->
   destroyed log = [] /\ r = plasma_sequence_create).
Proof.
  intros E.
  destruct (zsyrk_cases uplo trans n k alpha A lda beta C ldc)
    as [(r' & E' & _)|(_ & _ & nb & _ & Hrest)]; cbv zeta in *.
  { rewrite E in E'. injection E' as -> ->.
    split; [reflexivity|]. intros _ H. discriminate H. }
  assert (Hno : forall x : Z, x <> PlasmaSuccess -> (x =? PlasmaSuccess) = false).
  { intros x Hx. destruct (Z.eqb_spec x PlasmaSuccess); congruence. }
  destruct Hrest as [(NA & E')|[(EA & NC & E')|[(EA & EC & NS & E')
                    |(EA & EC & ES & s2 & s3 & _ & _ & E')]]];
    rewrite E in E'; injection E' as -> ->;
    unfold created_ok, destroyed; simpl;
    rewrite ?EA, ?EC, ?Z.eqb_refl, ?(Hno _ NA), ?(Hno _ NC); simpl.
  - split; [reflexivity|]. intros _ H. discriminate H.
  - split; [reflexivity|]. intros _ H. discriminate H.
  - split; [intros; contradiction|]. intros _ _. split; reflexivity.
  - split; [reflexivity|]. intros; contradiction.
Qed.

End ZsyrkMore.

(** ** The column and row maxima, [compute/scamax.c] *)

Section ScamaxMore.
Context `{PT : plasma_types_h}.
Context (PlasmaColumnwise PlasmaRowwise : Z).
Context (PlasmaErrorOutOfMemory PlasmaComplexFloat : Z).
Context (plasma_context_self : option Z).
Context {call : Type}.
Context (plasma_desc_check : plasma_desc_t -> Z).
Context (plasma_desc_general_create :
  Z -> Z -> Z -> Z -> Z -> Z -> Z -> Z -> Z -> Z * plasma_desc_t).
Context (malloc : Z -> option Z).
Context (plasma_omp_cge2desc :
  Z -> Z -> plasma_desc_t -> nat -> driver_state call -> driver_state call).
Context (plasma_pscamax :
  Z -> plasma_desc_t -> Z -> Z -> nat -> driver_state call -> driver_state call).
Context (synchronize : driver_state call -> async_t).
Import Scamax.

Implicit Types (s : driver_state call) (A : plasma_desc_t).

(** With pointers that are not [NULL] the tile-async entry has a result,
    one of two. *)
Lemma omp_scamax_cases (colrow : Z) A (work values : Z) (request : nat) s :
  let valid :=
    is_Some plasma_context_self /\
    (colrow = PlasmaColumnwise \/ colrow = PlasmaRowwise) /\
    plasma_desc_check A = PlasmaSuccess in
  let result :=
    plasma_omp_scamax PlasmaColumnwise PlasmaRowwise plasma_context_self
      plasma_desc_check plasma_pscamax colrow A work values
      true (Some request) s in
  (valid /\
   result = Some (if imin (D.m A) (D.n A) =? 0 then s
                  else plasma_pscamax colrow A work values request s)) \/
  (~ valid /\
   result = Some (request_fail request PlasmaErrorIllegalValue s)).
Proof.
  intros valid result. subst valid result.
  unfold plasma_omp_scamax, Zsyrk.request_fail_at.
  destruct plasma_context_self as [nb|];
    [|right; split; [intros ([x Hx] & _); discriminate|reflexivity]].
  destruct (negb (colrow =? PlasmaColumnwise) && negb (colrow =? PlasmaRowwise))
    eqn:Ec.
  { right. split; [|reflexivity]. intros (_ & Hc & _).
    apply one_of_two in Hc. congruence. }
  destruct (Z.eqb_spec (plasma_desc_check A) PlasmaSuccess) as [EA|NA];
    simpl negb; cbv iota.
  2:{ right. split; [|reflexivity]. intros (_ & _ & HA). contradiction. }
  left. apply one_of_two in Ec. split.
  - split; [eexists; reflexivity|]. auto.
  - destruct (imin (D.m A) (D.n A) =? 0); reflexivity.
Qed.

(** X16. The tile-async entry tests its arguments before the size of the
    matrix.  With legal arguments and a matrix with no rows or no columns
    it returns at once: nothing is submitted and neither status word
    moves, whatever the sequence status is.  With an illegal argument it
    fails the request with [PlasmaErrorIllegalValue] and submits nothing,
    also for such an empty matrix.  With legal arguments and a matrix that
    is not empty it calls the parallel function, also on a sequence that
    has failed. *)
Theorem omp_scamax_checks (colrow : Z) A (work values : Z) (request : nat) s :
  let valid :=
    is_Some plasma_context_self /\
    (colrow = PlasmaColumnwise \/ colrow = PlasmaRowwise) /\
    plasma_desc_check A = PlasmaSuccess in
  let result :=
    plasma_omp_scamax PlasmaColumnwise PlasmaRowwise plasma_context_self
      plasma_desc_check plasma_pscamax colrow A work values
      true (Some request) s in
  (valid -> 0 <= D.m A -> 0 <= D.n A -> D.m A = 0 \/ D.n A = 0 ->
     result = Some s) /\
  (valid -> 0 < D.m A -> 0 < D.n A ->
     result = Some (plasma_pscamax colrow A work values request s)) /\
  (~ valid ->
     exists s', result = Some s' /\
       queue s' = queue s /\
       request_status (async s') !! request = Some PlasmaErrorIllegalValue /\
       (sequence_status (async s) = PlasmaSuccess ->
        sequence_status (async s') = PlasmaErrorIllegalValue)).
Proof.
  intros valid result.
  destruct (omp_scamax_cases colrow A work values request s)
    as [[Hv E]|[Hn E]]; fold valid in Hv || fold valid in Hn;
    fold result in E.
  - split; [|split; [|intros Hn; contradiction]].
    + intros _ Hm Hn' H0. rewrite E, imin_spec.
      destruct (Z.eqb_spec (Z.min (D.m A) (D.n A)) 0); [reflexivity|lia].
    + intros _ Hm Hn'. rewrite E, imin_spec.
      destruct (Z.eqb_spec (Z.min (D.m A) (D.n A)) 0); [lia|reflexivity].
  - split; [intros Hv; contradiction|]. split; [intros Hv; contradiction|].
    intros _. eexists. split; [exact E|].
    split; [reflexivity|]. split; [apply request_fail_request|].
    apply request_fail_first.
Qed.

Lemma omp_scamax_some (colrow : Z) A (work values : Z) (request : nat) s :
  plasma_omp_scamax PlasmaColumnwise PlasmaRowwise plasma_context_self
    plasma_desc_check plasma_pscamax colrow A work values
    true (Some request) s <> None.
Proof.
  destruct (omp_scamax_cases colrow A work values request s)
    as [[_ E]|[_ E]]; cbv zeta in E; rewrite E; discriminate.
Qed.

(** The routine as a chain of decisions. *)
Lemma scamax_cases (colrow m n pA lda values : Z) :
  let result :=
    plasma_scamax PlasmaColumnwise PlasmaRowwise PlasmaErrorOutOfMemory
      PlasmaComplexFloat plasma_context_self plasma_desc_check
      plasma_desc_general_create malloc plasma_omp_cge2desc plasma_pscamax
      synchronize colrow m n pA lda values in
  (exists r, result = Some (r, []) /\
     (scamax_arguments_ok PlasmaColumnwise PlasmaRowwise plasma_context_self
        colrow m n lda ->
      (m = 0 \/ n = 0) /\ r = PlasmaSuccess)) \/
  (scamax_arguments_ok PlasmaColumnwise PlasmaRowwise plasma_context_self
     colrow m n lda /\
   0 < m /\ 0 < n /\
   exists nb, plasma_context_self = Some nb /\
     let create :=
       plasma_desc_general_create PlasmaComplexFloat nb nb m n 0 0 m n in
     let A := snd create in
     let eA := desc_general_create PlasmaComplexFloat nb nb m n 0 0 m n in
     let count := if colrow =? PlasmaColumnwise then D.mt A * D.n A
                  else D.m A * D.nt A in
     (fst create <> PlasmaSuccess /\ result = Some (fst create, [eA])) \/
     (fst create = PlasmaSuccess /\ malloc count = None /\
      result = Some (PlasmaErrorOutOfMemory, [eA; malloc_floats count])) \/
     (fst create = PlasmaSuccess /\
      exists work s1,
        malloc count = Some work /\
        plasma_omp_scamax PlasmaColumnwise PlasmaRowwise plasma_context_self
          plasma_desc_check plasma_pscamax colrow A work values
          true (Some 0%nat)
          (plasma_omp_cge2desc pA lda A 0%nat
             {| async := sequenceInit; queue := [] |}) = Some s1 /\
        result = Some
          (sequence_status (synchronize s1),
           [eA; malloc_floats count; parallel_region (queue s1);
            free work; desc_destroy A]))).
Proof.
  intros result. subst result. unfold plasma_scamax, scamax_arguments_ok.
  destruct plasma_context_self as [nb|] eqn:Hctx.
  2:{ left. eexists. split; [reflexivity|]. intros ([x Hx] & _). discriminate. }
  destruct (negb (colrow =? PlasmaColumnwise) && negb (colrow =? PlasmaRowwise))
    eqn:Ec.
  { left. eexists. split; [reflexivity|]. intros (_ & Hc & _).
    apply one_of_two in Hc. congruence. }
  destruct (Z.ltb_spec m 0).
  { left. eexists. split; [reflexivity|]. intros (_ & _ & Hm & _). lia. }
  destruct (Z.ltb_spec n 0).
  { left. eexists. split; [reflexivity|]. intros (_ & _ & _ & Hn & _). lia. }
  destruct (Z.ltb_spec lda (imax 1 m)).
  { left. eexists. split; [reflexivity|]. intros (_ & _ & _ & _ & Hl). lia. }
  rewrite imin_spec.
  destruct (Z.eqb_spec (Z.min n m) 0) as [E0|N0].
  { left. eexists. split; [reflexivity|]. intros _. split; [lia|reflexivity]. }
  right. apply one_of_two in Ec.
  split; [split; [eexists; reflexivity|]; repeat split; assumption|].
  split; [lia|]. split; [lia|]. exists nb. split; [reflexivity|]. cbv zeta.
  destruct (Z.eqb_spec
              (fst (plasma_desc_general_create PlasmaComplexFloat nb nb
                      m n 0 0 m n)) PlasmaSuccess) as [EA|NA];
    simpl negb; cbv iota; [|left; split; [exact NA|reflexivity]].
  right.
  assert (Hcount :
    (if colrow =? PlasmaColumnwise
     then Some (D.mt (snd (plasma_desc_general_create PlasmaComplexFloat nb nb
                             m n 0 0 m n))
                * D.n (snd (plasma_desc_general_create PlasmaComplexFloat nb nb
                              m n 0 0 m n)))
     else if colrow =? PlasmaRowwise
          then Some (D.m (snd (plasma_desc_general_create PlasmaComplexFloat
                                 nb nb m n 0 0 m n))
                     * D.nt (snd (plasma_desc_general_create PlasmaComplexFloat
                                    nb nb m n 0 0 m n)))
          else None)
    = Some (if colrow =? PlasmaColumnwise
            then D.mt (snd (plasma_desc_general_create PlasmaComplexFloat nb nb
                              m n 0 0 m n))
                 * D.n (snd (plasma_desc_general_create PlasmaComplexFloat nb nb
                               m n 0 0 m n))
            else D.m (snd (plasma_desc_general_create PlasmaComplexFloat
                             nb nb m n 0 0 m n))
                 * D.nt (snd (plasma_desc_general_create PlasmaComplexFloat
                                nb nb m n 0 0 m n)))).
  { destruct (Z.eqb_spec colrow PlasmaColumnwise) as [|Nc]; [reflexivity|].
    destruct (Z.eqb_spec colrow PlasmaRowwise) as [|Nr]; [reflexivity|].
    destruct Ec; contradiction. }
  rewrite Hcount.
  destruct (malloc _) as [work|] eqn:Em.
  2:{ left. split; [exact EA|]. split; reflexivity. }
  right. split; [exact EA|].
  destruct (plasma_omp_scamax PlasmaColumnwise PlasmaRowwise (Some nb)
              plasma_desc_check plasma_pscamax colrow _ work values
              true (Some 0%nat) _) as [s1|] eqn:E1.
  - exists work, s1. split; [reflexivity|]. split; [exact E1|reflexivity].
  - exfalso. revert E1. rewrite <- Hctx. apply omp_scamax_some.
Qed.

(** X17. [plasma_scamax] always returns: the workspace pointer, which the
    [switch] without a default leaves unset for any other [colrow], is
    never read unset, because [colrow] has been checked by then.  It
    checks before it builds: unless PLASMA is initialized, every argument
    is legal and the matrix has at least one row and one column, it has
    created nothing, requested no memory and entered no parallel region.
    With legal arguments and [m] or [n] zero it returns [PlasmaSuccess]
    that way. *)
Theorem scamax_fail_fast (colrow m n pA lda values : Z) :
  exists r log,
    plasma_scamax PlasmaColumnwise PlasmaRowwise PlasmaErrorOutOfMemory
      PlasmaComplexFloat plasma_context_self plasma_desc_check
      plasma_desc_general_create malloc plasma_omp_cge2desc plasma_pscamax
      synchronize colrow m n pA lda values = Some (r, log) /\
    (log <> [] ->
     is_Some plasma_context_self /\
     (colrow = PlasmaColumnwise \/ colrow = PlasmaRowwise) /\
     0 < m /\ 0 < n /\ imax 1 m <= lda) /\
    (is_Some plasma_context_self ->
     colrow = PlasmaColumnwise \/ colrow = PlasmaRowwise ->
     imax 1 m <= lda ->
     (m = 0 /\ 0 <= n) \/ (n = 0 /\ 0 <= m) ->
     r = PlasmaSuccess /\ log = []).
Proof.
  destruct (scamax_cases colrow m n pA lda values)
    as [(r & E & Hq)|(Hok & Hm & Hn & nb & _ & Hrest)]; cbv zeta in *.
  - eexists _, _. split; [exact E|]. split; [intros H; contradiction|].
    intros Hc Hcr Hl H0. split; [|reflexivity].
    apply Hq. unfold scamax_arguments_ok. repeat split; try assumption; lia.
  - destruct Hok as (Hc & Hcr & _ & _ & Hl).
    destruct Hrest as [(_ & E)|[(_ & _ & E)|(_ & w & s1 & _ & _ & E)]];
      eexists _, _; (split; [exact E|]);
      (split; [intros _; repeat split; assumption|]);
      intros _ _ _ H0; lia.
Qed.

(** X18. The workspace is sized by the tile grid of the descriptor: when the
    descriptor is created, [plasma_scamax] requests one float per tile row
    and matrix column ([A.mt * A.n]) for [PlasmaColumnwise], one per matrix
    row and tile column ([A.m * A.nt]) for [PlasmaRowwise].  When that
    request fails it returns [PlasmaErrorOutOfMemory] without entering the
    parallel region, and the descriptor it has created is not destroyed. *)
Theorem scamax_out_of_memory (colrow m n pA lda values nb : Z) :
  let create :=
    plasma_desc_general_create PlasmaComplexFloat nb nb m n 0 0 m n in
  let A := snd create in
  let count := if colrow =? PlasmaColumnwise then D.mt A * D.n A
               else D.m A * D.nt A in
  plasma_context_self = Some nb ->
  colrow = PlasmaColumnwise \/ colrow = PlasmaRowwise ->
  0 < m -> 0 < n -> imax 1 m <= lda ->
  fst create = PlasmaSuccess ->
  malloc count = None ->
  plasma_scamax PlasmaColumnwise PlasmaRowwise PlasmaErrorOutOfMemory
    PlasmaComplexFloat plasma_context_self plasma_desc_check
    plasma_desc_general_create malloc plasma_omp_cge2desc plasma_pscamax
    synchronize colrow m n pA lda values
  = Some (PlasmaErrorOutOfMemory,
          [desc_general_create PlasmaComplexFloat nb nb m n 0 0 m n;
           malloc_floats count]).
Proof.
  intros create A count Hctx Hcr Hm Hn Hl Hc Hmalloc.
  destruct (scamax_cases colrow m n pA lda values)
    as [(r & _ & Hq)|(_ & _ & _ & nb' & Hctx' & Hrest)]; cbv zeta in *.
  { exfalso.
    assert (Hok : scamax_arguments_ok PlasmaColumnwise PlasmaRowwise
                    plasma_context_self colrow m n lda).
    { unfold scamax_arguments_ok. rewrite Hctx.
      split; [eexists; reflexivity|]. repeat split; try assumption; lia. }
    destruct (Hq Hok) as [[?|?] _]; lia. }
  assert (nb' = nb) by congruence. subst nb'.
  fold create in Hrest. fold A in Hrest. fold count in Hrest.
  destruct Hrest as [(N & _)|[(_ & _ & E)|(_ & w & s1 & Hw & _)]].
  - contradiction.
  - exact E.
  - rewrite Hmalloc in Hw. discriminate.
Qed.

(** X19. Past its own quick return the routine always reaches the parallel
    function.  When the arguments are legal, the matrix is not empty, the
    descriptor is created with the extents asked for and passes
    [plasma_desc_check], and the workspace is allocated, the tile-async
    entry neither fails a check nor returns quickly: the region submits
    the translation of [A] and then the parallel function on the
    workspace, after which the workspace is freed, the descriptor
    destroyed, and the sequence status found after synchronization
    returned. *)
Theorem scamax_reaches_parallel (colrow m n pA lda values nb work : Z) :
  let create :=
    plasma_desc_general_create PlasmaComplexFloat nb nb m n 0 0 m n in
  let A := snd create in
  let count := if colrow =? PlasmaColumnwise then D.mt A * D.n A
               else D.m A * D.nt A in
  plasma_context_self = Some nb ->
  colrow = PlasmaColumnwise \/ colrow = PlasmaRowwise ->
  0 < m -> 0 < n -> imax 1 m <= lda ->
  fst create = PlasmaSuccess -> D.m A = m -> D.n A = n ->
  plasma_desc_check A = PlasmaSuccess ->
  malloc count = Some work ->
  let final :=
    plasma_pscamax colrow A work values 0%nat
      (plasma_omp_cge2desc pA lda A 0%nat
         {| async := sequenceInit; queue := [] |}) in
  plasma_scamax PlasmaColumnwise PlasmaRowwise PlasmaErrorOutOfMemory
    PlasmaComplexFloat plasma_context_self plasma_desc_check
    plasma_desc_general_create malloc plasma_omp_cge2desc plasma_pscamax
    synchronize colrow m n pA lda values
  = Some (sequence_status (synchronize final),
          [desc_general_create PlasmaComplexFloat nb nb m n 0 0 m n;
           malloc_floats count; parallel_region (queue final);
           free work; desc_destroy A]).
Proof.
  intros create A count Hctx Hcr Hm Hn Hl Hc HAm HAn Hd Hmalloc final.
  destruct (scamax_cases colrow m n pA lda values)
    as [(r & _ & Hq)|(_ & _ & _ & nb' & Hctx' & Hrest)]; cbv zeta in *.
  { exfalso.
    assert (Hok : scamax_arguments_ok PlasmaColumnwise PlasmaRowwise
                    plasma_context_self colrow m n lda).
    { unfold scamax_arguments_ok. rewrite Hctx.
      split; [eexists; reflexivity|]. repeat split; try assumption; lia. }
    destruct (Hq Hok) as [[?|?] _]; lia. }
  assert (nb' = nb) by congruence. subst nb'.
  fold create in Hrest. fold A in Hrest. fold count in Hrest.
  destruct Hrest as [(N & _)|[(_ & N & _)|(_ & w & s1 & Hw & E1 & E)]].
  - contradiction.
  - rewrite Hmalloc in N. discriminate.
  - rewrite Hmalloc in Hw. injection Hw as <-. rewrite E.
    assert (Hs1 : s1 = final).
    { destruct (omp_scamax_cases colrow A work values 0%nat
                  (plasma_omp_cge2desc pA lda A 0%nat
                     {| async := sequenceInit; queue := [] |}))
        as [[_ E']|[Hno _]]; cbv zeta in *.
      - rewrite E1 in E'. injection E' as ->.
        rewrite HAm, HAn, imin_spec.
        destruct (Z.eqb_spec (Z.min m n) 0); [lia|reflexivity].
      - exfalso. apply Hno. rewrite Hctx.
        split; [eexists; reflexivity|]. split; assumption. }
    subst s1. reflexivity.
Qed.

End ScamaxMore.

(** ** The minimum-norm solve, [compute/zgelqs.c] *)

Section ZgelqsMore.
Context `{PT : plasma_types_h}.
Context (PLASMA_SUCCESS PLASMA_ERR_NOT_INITIALIZED : Z).
Context (PLASMA_ERR_ILLEGAL_VALUE : Z).
Context (PlasmaNonUnit : Z).
Context {PLASMA_Complex64_t call : Type}.
Context (one : PLASMA_Complex64_t).
Context (plasma_context_self : option Z).
Context (plasma_fatal_error : option unit).
Context (plasma_desc_check : plasma_desc_t -> Z).
Context (plasma_desc_init :
  Z -> Z -> Z -> Z -> Z -> Z -> Z -> Z -> Z -> Z -> plasma_desc_t).
Context (plasma_desc_mat_alloc : plasma_desc_t -> Z).
Context (plasma_desc_submatrix :
  plasma_desc_t -> Z -> Z -> Z -> Z -> plasma_desc_t).
Context (plasma_sequence_create : Z).
Context (PLASMA_zcm2ccrb_Async :
  Z -> Z -> plasma_desc_t -> nat -> driver_state call -> driver_state call).
Context (PLASMA_zccrb2cm_Async :
  plasma_desc_t -> Z -> Z -> nat -> driver_state call -> driver_state call).
Context (plasma_pztrsm :
  Z -> Z -> Z -> Z -> PLASMA_Complex64_t -> plasma_desc_t -> plasma_desc_t ->
  nat -> driver_state call -> driver_state call).
Context (plasma_pzunmlq :
  Z -> Z -> plasma_desc_t -> plasma_desc_t -> plasma_desc_t ->
  nat -> driver_state call -> driver_state call).
Context (synchronize : driver_state call -> async_t).
Import Zgelqs.

Implicit Types (s : driver_state call) (descA descT descB : plasma_desc_t).

(** With pointers that are not [NULL] the tile-async function has a
    result, one of three. *)
Lemma zgelqs_tile_async_cases (flushed : Z) descA descT descB
    (request : nat) s :
  let valid :=
    is_Some plasma_context_self /\
    plasma_desc_check descA = PLASMA_SUCCESS /\
    plasma_desc_check descT = PLASMA_SUCCESS /\
    plasma_desc_check descB = PLASMA_SUCCESS /\
    D.nb descA = D.mb descA /\ D.nb descB = D.mb descB in
  let result :=
    PLASMA_zgelqs_Tile_Async PLASMA_SUCCESS PLASMA_ERR_ILLEGAL_VALUE
      flushed PlasmaNonUnit one plasma_context_self plasma_desc_check
      plasma_desc_submatrix plasma_pztrsm plasma_pzunmlq
      descA descT descB true (Some request) s in
  (valid /\ sequence_status (async s) = PLASMA_SUCCESS /\
   result = Some
     (plasma_pzunmlq PlasmaLeft Plasma_ConjTrans descA descB descT request
        (plasma_pztrsm PlasmaLeft PlasmaLower PlasmaNoTrans PlasmaNonUnit one
           (plasma_desc_submatrix descA 0 0 (D.m descA) (D.m descA))
           (plasma_desc_submatrix descB 0 0 (D.m descA) (D.n descB))
           request s))) \/
  (valid /\ sequence_status (async s) <> PLASMA_SUCCESS /\
   result = Some (request_fail request flushed s)) \/
  (~ valid /\
   result = Some (request_fail request PLASMA_ERR_ILLEGAL_VALUE s)).
Proof.
  intros valid result. subst valid result.
  unfold PLASMA_zgelqs_Tile_Async, Zsyrk.request_fail_at.
  destruct plasma_context_self as [nb|];
    [|right; right; split; [intros ([x Hx] & _); discriminate|reflexivity]].
  destruct (Z.eqb_spec (plasma_desc_check descA) PLASMA_SUCCESS) as [EA|NA];
    simpl negb; cbv iota.
  2:{ right; right. split; [|reflexivity]. intros (_ & H & _). contradiction. }
  destruct (Z.eqb_spec (plasma_desc_check descT) PLASMA_SUCCESS) as [ET|NT];
    simpl negb; cbv iota.
  2:{ right; right. split; [|reflexivity]. intros (_ & _ & H & _).
      contradiction. }
  destruct (Z.eqb_spec (plasma_desc_check descB) PLASMA_SUCCESS) as [EB|NB];
    simpl negb; cbv iota.
  2:{ right; right. split; [|reflexivity]. intros (_ & _ & _ & H & _).
      contradiction. }
  destruct (Z.eqb_spec (D.nb descA) (D.mb descA)) as [SA|NSA];
    simpl negb; simpl orb; cbv iota.
  2:{ right; right. split; [|reflexivity]. intros (_ & _ & _ & _ & H & _).
      contradiction. }
  destruct (Z.eqb_spec (D.nb descB) (D.mb descB)) as [SB|NSB];
    simpl negb; cbv iota.
  2:{ right; right. split; [|reflexivity]. intros (_ & _ & _ & _ & _ & H).
      contradiction. }
  assert (Hv : is_Some (Some nb) /\ plasma_desc_check descA = PLASMA_SUCCESS /\
               plasma_desc_check descT = PLASMA_SUCCESS /\
               plasma_desc_check descB = PLASMA_SUCCESS /\
               D.nb descA = D.mb descA /\ D.nb descB = D.mb descB).
  { split; [eexists; reflexivity|]. auto. }
  destruct (Z.eqb_spec (sequence_status (async s)) PLASMA_SUCCESS) as [ES|NS];
    simpl negb; cbv iota.
  - left. split; [exact Hv|]. split; [exact ES|reflexivity].
  - right; left. split; [exact Hv|]. split; [exact NS|reflexivity].
Qed.

(** X20. Unlike the tile-async entries above, this one tests the sequence
    status, after its arguments.  Called with a sequence and a request it
    submits the triangular solve on the leading [A.m] rows of [A] and [B]
    and then the application of Q, in that order, exactly when PLASMA is
    initialized, the three descriptors pass [plasma_desc_check], the
    tiles of [A] and [B] are square and the sequence is in success.  On a
    failed sequence with legal arguments it fails the request with
    [PLASMA_ERR_SEQUENCE_FLUSHED]; with an illegal argument it fails the
    request with [PLASMA_ERR_ILLEGAL_VALUE], on a failed sequence too.  In
    both cases nothing is submitted. *)
Theorem zgelqs_tile_async_checks (flushed : Z) descA descT descB
    (request : nat) s :
  let valid :=
    is_Some plasma_context_self /\
    plasma_desc_check descA = PLASMA_SUCCESS /\
    plasma_desc_check descT = PLASMA_SUCCESS /\
    plasma_desc_check descB = PLASMA_SUCCESS /\
    D.nb descA = D.mb descA /\ D.nb descB = D.mb descB in
  let result :=
    PLASMA_zgelqs_Tile_Async PLASMA_SUCCESS PLASMA_ERR_ILLEGAL_VALUE
      flushed PlasmaNonUnit one plasma_context_self plasma_desc_check
      plasma_desc_submatrix plasma_pztrsm plasma_pzunmlq
      descA descT descB true (Some request) s in
  (valid -> sequence_status (async s) = PLASMA_SUCCESS ->
     result = Some
       (plasma_pzunmlq PlasmaLeft Plasma_ConjTrans descA descB descT request
          (plasma_pztrsm PlasmaLeft PlasmaLower PlasmaNoTrans PlasmaNonUnit one
             (plasma_desc_submatrix descA 0 0 (D.m descA) (D.m descA))
             (plasma_desc_submatrix descB 0 0 (D.m descA) (D.n descB))
             request s))) /\
  (valid -> sequence_status (async s) <> PLASMA_SUCCESS ->
     result = Some (request_fail request flushed s)) /\
  (~ valid ->
     result = Some (request_fail request PLASMA_ERR_ILLEGAL_VALUE s)) /\
  (~ (valid /\ sequence_status (async s) = PLASMA_SUCCESS) ->
     exists s', result = Some s' /\ queue s' = queue s /\
       is_Some (request_status (async s') !! request)).
Proof.
  intros valid result.
  destruct (zgelqs_tile_async_cases flushed descA descT descB request s)
    as [(Hv & Hs & E)|[(Hv & Hs & E)|(Hn & E)]];
    fold valid in Hv || fold valid in Hn; fold result in E.
  - split; [intros; exact E|]. split; [intros; contradiction|].
    split; [intros; contradiction|]. intros H. exfalso. apply H. split; assumption.
  - split; [intros; contradiction|]. split; [intros; exact E|].
    split; [intros; contradiction|]. intros _.
    eexists. split; [exact E|]. split; [reflexivity|].
    eexists. apply request_fail_request.
  - split; [intros; contradiction|]. split; [intros; contradiction|].
    split; [intros; exact E|]. intros _.
    eexists. split; [exact E|]. split; [reflexivity|].
    eexists. apply request_fail_request.
Qed.

Lemma zgelqs_tile_async_some (flushed : Z) descA descT descB
    (request : nat) s :
  PLASMA_zgelqs_Tile_Async PLASMA_SUCCESS PLASMA_ERR_ILLEGAL_VALUE
    flushed PlasmaNonUnit one plasma_context_self plasma_desc_check
    plasma_desc_submatrix plasma_pztrsm plasma_pzunmlq
    descA descT descB true (Some request) s <> None.
Proof.
  destruct (zgelqs_tile_async_cases flushed descA descT descB request s)
    as [(_ & _ & E)|[(_ & _ & E)|(_ & E)]]; cbv zeta in E; rewrite E;
    discriminate.
Qed.

(** The region, step by step. *)
Lemma zgelqs_region_steps (flushed A lda : Z) descA descT (B ldb : Z) descB
    (request : nat) s :
  let ok s := sequence_status (async s) =? PLASMA_SUCCESS in
  let s1 := PLASMA_zcm2ccrb_Async A lda descA request s in
  let s2 := if ok s1 then PLASMA_zcm2ccrb_Async B ldb descB request s1 else s1 in
  exists s3,
    (if ok s2
     then PLASMA_zgelqs_Tile_Async PLASMA_SUCCESS PLASMA_ERR_ILLEGAL_VALUE
            flushed PlasmaNonUnit one plasma_context_self plasma_desc_check
            plasma_desc_submatrix plasma_pztrsm plasma_pzunmlq
            descA descT descB true (Some request) s2
     else Some s2) = Some s3 /\
    zgelqs_region PLASMA_SUCCESS PLASMA_ERR_ILLEGAL_VALUE flushed
      PlasmaNonUnit one plasma_context_self plasma_desc_check
      plasma_desc_submatrix PLASMA_zcm2ccrb_Async PLASMA_zccrb2cm_Async
      plasma_pztrsm plasma_pzunmlq A lda descA descT B ldb descB request s
    = Some (if ok s3 then PLASMA_zccrb2cm_Async descB B ldb request s3 else s3).
Proof.
  intros ok s1 s2. unfold zgelqs_region. fold s1. fold (ok s1). fold s2.
  fold (ok s2).
  destruct (ok s2) eqn:E2.
  - destruct (PLASMA_zgelqs_Tile_Async _ _ _ _ _ _ _ _ _ _ _ _ _ _ _ s2)
      as [s3|] eqn:E3.
    + exists s3. split; reflexivity.
    + exfalso. revert E3. apply zgelqs_tile_async_some.
  - exists s2. split; reflexivity.
Qed.

(** X21. Inside [PLASMA_zgelqs] each step is submitted only while the sequence
    is in success.  The region always completes, and it stops submitting
    at the first step that leaves the sequence failed: when the
    translation of [A] does, the region ends in the state that call left;
    when the translation of [B] is the first one, in the state that one
    left; and when both translations and the tile-async function leave
    the sequence in success, the translation of [B] back is submitted
    last. *)
Theorem zgelqs_region_stops (flushed A lda : Z) descA descT (B ldb : Z) descB
    (request : nat) s :
  let region :=
    zgelqs_region PLASMA_SUCCESS PLASMA_ERR_ILLEGAL_VALUE flushed
      PlasmaNonUnit one plasma_context_self plasma_desc_check
      plasma_desc_submatrix PLASMA_zcm2ccrb_Async PLASMA_zccrb2cm_Async
      plasma_pztrsm plasma_pzunmlq A lda descA descT B ldb descB request s in
  let s1 := PLASMA_zcm2ccrb_Async A lda descA request s in
  let s2 := PLASMA_zcm2ccrb_Async B ldb descB request s1 in
  is_Some region /\
  (sequence_status (async s1) <> PLASMA_SUCCESS -> region = Some s1) /\
  (sequence_status (async s1) = PLASMA_SUCCESS ->
   sequence_status (async s2) <> PLASMA_SUCCESS -> region = Some s2) /\
  (sequence_status (async s1) = PLASMA_SUCCESS ->
   sequence_status (async s2) = PLASMA_SUCCESS ->
   forall s3,
     PLASMA_zgelqs_Tile_Async PLASMA_SUCCESS PLASMA_ERR_ILLEGAL_VALUE
       flushed PlasmaNonUnit one plasma_context_self plasma_desc_check
       plasma_desc_submatrix plasma_pztrsm plasma_pzunmlq
       descA descT descB true (Some request) s2 = Some s3 ->
     (sequence_status (async s3) <> PLASMA_SUCCESS -> region = Some s3) /\
     (sequence_status (async s3) = PLASMA_SUCCESS ->
      region = Some (PLASMA_zccrb2cm_Async descB B ldb request s3))).
Proof.
  intros region s1 s2.
  destruct (zgelqs_region_steps flushed A lda descA descT B ldb descB request s)
    as (s3 & E3 & E); cbv zeta in E3, E; fold s1 in E3; fold region in E.
  assert (Hno : forall x : Z, x <> PLASMA_SUCCESS -> (x =? PLASMA_SUCCESS) = false).
  { intros x Hx. destruct (Z.eqb_spec x PLASMA_SUCCESS); congruence. }
  split; [rewrite E; eexists; reflexivity|].
  split; [|split].
  - intros N1. rewrite (Hno _ N1) in E3. rewrite (Hno _ N1) in E3.
    injection E3 as <-. rewrite E, (Hno _ N1). reflexivity.
  - intros E1 N2. rewrite E1, Z.eqb_refl in E3. fold s2 in E3.
    rewrite (Hno _ N2) in E3. injection E3 as <-.
    rewrite E, (Hno _ N2). reflexivity.
  - intros E1 E2 s3' E3'. rewrite E1, Z.eqb_refl in E3. fold s2 in E3.
    rewrite E2, Z.eqb_refl in E3. rewrite E3' in E3. injection E3 as <-.
    split.
    + intros N3. rewrite E, (Hno _ N3). reflexivity.
    + intros E3. rewrite E, E3, Z.eqb_refl. reflexivity.
Qed.

(** X23. [PLASMA_zgelqs] checks before it builds.  Called with PLASMA
    initialized it returns, and unless [0 < m <= n], [0 < nrhs] and both
    leading dimensions are large enough, it has allocated nothing, created
    no sequence and entered no parallel region; with legal arguments and
    [m] or [nrhs] zero it returns [PLASMA_SUCCESS] that way.  Called
    without a context it calls [plasma_fatal_error] first: if that call
    returns, the routine returns [PLASMA_ERR_NOT_INITIALIZED] and has done
    nothing else; if that call does not return, neither does the
    routine. *)
Theorem zgelqs_fail_fast (flushed m n nrhs A lda : Z) descT (B ldb : Z) :
  let result :=
    PLASMA_zgelqs PLASMA_SUCCESS PLASMA_ERR_NOT_INITIALIZED
      PLASMA_ERR_ILLEGAL_VALUE flushed PlasmaNonUnit one plasma_context_self
      plasma_fatal_error
      plasma_desc_check plasma_desc_init plasma_desc_mat_alloc
      plasma_desc_submatrix plasma_sequence_create PLASMA_zcm2ccrb_Async
      PLASMA_zccrb2cm_Async plasma_pztrsm plasma_pzunmlq synchronize
      m n nrhs A lda descT B ldb in
  (is_Some plasma_context_self ->
   exists r log,
     result = Some (r, log) /\
     (log <> [] ->
      0 < m <= n /\ 0 < nrhs /\ imax 1 m <= lda /\ imax 1 n <= ldb) /\
     (0 <= m <= n -> 0 <= nrhs -> imax 1 m <= lda -> imax 1 n <= ldb ->
      m = 0 \/ nrhs = 0 ->
      r = PLASMA_SUCCESS /\ log = [])) /\
  (plasma_context_self = None -> is_Some plasma_fatal_error ->
   result = Some (PLASMA_ERR_NOT_INITIALIZED, [])) /\
  (plasma_context_self = None -> plasma_fatal_error = None ->
   result = None).
Proof.
  intros result. subst result. unfold PLASMA_zgelqs.
  destruct plasma_context_self as [nb|] eqn:Hctx.
  2:{ split; [intros [x Hx]; discriminate|].
      split; [intros _ [x ->]; reflexivity|intros _ ->; reflexivity]. }
  split; [intros _|split; intros; discriminate].
  assert (Hldb : imax 1 (imax 1 n) = imax 1 n) by (rewrite !imax_spec; lia).
  rewrite Hldb, Z.gtb_ltb, !imin_spec.
  destruct (Z.ltb_spec m 0).
  { eexists _, _. split; [reflexivity|]. split; [intros H'; contradiction|].
    intros; lia. }
  destruct (Z.ltb_spec n 0); simpl orb; cbv iota.
  { eexists _, _. split; [reflexivity|]. split; [intros H'; contradiction|].
    intros; lia. }
  destruct (Z.ltb_spec n m).
  { eexists _, _. split; [reflexivity|]. split; [intros H'; contradiction|].
    intros; lia. }
  destruct (Z.ltb_spec nrhs 0).
  { eexists _, _. split; [reflexivity|]. split; [intros H'; contradiction|].
    intros; lia. }
  destruct (Z.ltb_spec lda (imax 1 m)).
  { eexists _, _. split; [reflexivity|]. split; [intros H'; contradiction|].
    intros; lia. }
  destruct (Z.ltb_spec ldb (imax 1 n)).
  { eexists _, _. split; [reflexivity|]. split; [intros H'; contradiction|].
    intros; lia. }
  destruct (Z.eqb_spec (Z.min m (Z.min n nrhs)) 0).
  { eexists _, _. split; [reflexivity|]. split; [intros H'; contradiction|].
    intros. split; reflexivity. }
  cbv zeta.
  assert (Hfacts : 0 < m <= n /\ 0 < nrhs /\
                   imax 1 m <= lda /\ imax 1 n <= ldb) by lia.
  destruct (negb (plasma_desc_mat_alloc _ =? PLASMA_SUCCESS)).
  { eexists _, _. split; [reflexivity|]. split; [intros _; exact Hfacts|].
    intros; lia. }
  destruct (negb (plasma_desc_mat_alloc _ =? PLASMA_SUCCESS)).
  { eexists _, _. split; [reflexivity|]. split; [intros _; exact Hfacts|].
    intros; lia. }
  destruct (negb (plasma_sequence_create =? PLASMA_SUCCESS)).
  { eexists _, _. split; [reflexivity|]. split; [intros _; exact Hfacts|].
    intros; lia. }
  match goal with
  | |- context [zgelqs_region _ _ _ _ _ _ _ _ _ _ _ _ ?a ?la ?dA ?dT ?b ?lb ?dB ?r ?s] =>
      destruct (zgelqs_region_steps flushed a la dA dT b lb dB r s)
        as (s3 & _ & E)
  end.
  cbv zeta in E. rewrite <- Hctx, E.
  eexists _, _. split; [reflexivity|]. split; [intros _; exact Hfacts|].
  intros; lia.
Qed.

(** X24. A run of [PLASMA_zgelqs] in which nothing fails.  With legal
    arguments, both tile matrices allocated, the sequence created, the
    three descriptors passing [plasma_desc_check] with square tiles, and
    the sequence still in success after each translation and after the
    solve, the region submits, in order, the translation of [A], the
    translation of [B], the triangular solve, the application of Q and the
    translation of [B] back; then both tile matrices are freed, the
    sequence is destroyed, and the status found after synchronization is
    returned. *)
Theorem zgelqs_full_run (flushed m n nrhs A lda nb : Z) descT (B ldb : Z) :
  let descA :=
    plasma_desc_init PlasmaComplexDouble nb nb (nb * nb) lda n 0 0 m n in
  let descB :=
    plasma_desc_init PlasmaComplexDouble nb nb (nb * nb) ldb nrhs 0 0 n nrhs in
  let s0 : driver_state call :=
    {| async := {| sequence_status := PLASMA_SUCCESS; request_status := ∅ |};
       queue := [] |} in
  let s1 := PLASMA_zcm2ccrb_Async A lda descA 0%nat s0 in
  let s2 := PLASMA_zcm2ccrb_Async B ldb descB 0%nat s1 in
  let s3 :=
    plasma_pzunmlq PlasmaLeft Plasma_ConjTrans descA descB descT 0%nat
      (plasma_pztrsm PlasmaLeft PlasmaLower PlasmaNoTrans PlasmaNonUnit one
         (plasma_desc_submatrix descA 0 0 (D.m descA) (D.m descA))
         (plasma_desc_submatrix descB 0 0 (D.m descA) (D.n descB))
         0%nat s2) in
  let final := PLASMA_zccrb2cm_Async descB B ldb 0%nat s3 in
  plasma_context_self = Some nb ->
  0 < m <= n -> 0 < nrhs -> imax 1 m <= lda -> imax 1 n <= ldb ->
  plasma_desc_mat_alloc descA = PLASMA_SUCCESS ->
  plasma_desc_mat_alloc descB = PLASMA_SUCCESS ->
  plasma_sequence_create = PLASMA_SUCCESS ->
  plasma_desc_check descA = PLASMA_SUCCESS ->
  plasma_desc_check descT = PLASMA_SUCCESS ->
  plasma_desc_check descB = PLASMA_SUCCESS ->
  D.nb descA = D.mb descA -> D.nb descB = D.mb descB ->
  sequence_status (async s1) = PLASMA_SUCCESS ->
  sequence_status (async s2) = PLASMA_SUCCESS ->
  sequence_status (async s3) = PLASMA_SUCCESS ->
  PLASMA_zgelqs PLASMA_SUCCESS PLASMA_ERR_NOT_INITIALIZED
    PLASMA_ERR_ILLEGAL_VALUE flushed PlasmaNonUnit one plasma_context_self
    plasma_fatal_error
    plasma_desc_check plasma_desc_init plasma_desc_mat_alloc
    plasma_desc_submatrix plasma_sequence_create PLASMA_zcm2ccrb_Async
    PLASMA_zccrb2cm_Async plasma_pztrsm plasma_pzunmlq synchronize
    m n nrhs A lda descT B ldb
  = Some (sequence_status (synchronize final),
          [desc_mat_alloc descA; desc_mat_alloc descB; sequence_create;
           parallel_region (queue final);
           desc_mat_free descA; desc_mat_free descB; sequence_destroy]).
Proof.
  intros descA descB s0 s1 s2 s3 final Hctx Hm Hnrhs Hlda Hldb HaA HaB Hseq
    HcA HcT HcB HsqA HsqB E1 E2 E3.
  assert (Hregion :
    zgelqs_region PLASMA_SUCCESS PLASMA_ERR_ILLEGAL_VALUE flushed
      PlasmaNonUnit one plasma_context_self plasma_desc_check
      plasma_desc_submatrix PLASMA_zcm2ccrb_Async PLASMA_zccrb2cm_Async
      plasma_pztrsm plasma_pzunmlq A lda descA descT B ldb descB 0%nat s0
    = Some final).
  { unfold zgelqs_region. fold s1. rewrite E1, Z.eqb_refl. fold s2.
    rewrite E2, Z.eqb_refl.
    destruct (zgelqs_tile_async_cases flushed descA descT descB 0%nat s2)
      as [(_ & _ & E)|[(_ & N & _)|(Hn & _)]]; cbv zeta in *.
    - rewrite E. fold s3. rewrite E3, Z.eqb_refl. reflexivity.
    - contradiction.
    - exfalso. apply Hn. rewrite Hctx. split; [eexists; reflexivity|]. auto. }
  unfold PLASMA_zgelqs. rewrite Hctx.
  assert (Hldb' : imax 1 (imax 1 n) = imax 1 n) by (rewrite !imax_spec; lia).
  rewrite Hldb', Z.gtb_ltb, !imin_spec.
  destruct (Z.ltb_spec m 0); [lia|].
  destruct (Z.ltb_spec n 0); [lia|].
  destruct (Z.ltb_spec n m); [lia|]. simpl orb. cbv iota.
  destruct (Z.ltb_spec nrhs 0); [lia|].
  destruct (Z.ltb_spec lda (imax 1 m)); [lia|].
  destruct (Z.ltb_spec ldb (imax 1 n)); [lia|].
  destruct (Z.eqb_spec (Z.min m (Z.min n nrhs)) 0); [lia|].
  cbv zeta. fold descA descB.
  rewrite HaA, HaB, Hseq, Z.eqb_refl. simpl negb. cbv iota.
  fold s0. rewrite <- Hctx, Hregion. reflexivity.
Qed.

End ZgelqsMore.

(** ** C arrays: loops of assignments *)

Lemma for_range_ext_in {S : Type} (f g : Z -> S -> S) (lo hi : Z) (s : S) :
  (forall i x, lo <= i < hi -> f i x = g i x) ->
  for_range lo hi f s = for_range lo hi g s.
Proof.
  intros H. rewrite !for_range_foldl. apply foldl_ext_in.
  intros y x Hx. apply H. apply elem_of_seqZ in Hx. lia.
Qed.

(** Rounding up to a multiple of [nb] does not round down. *)
Lemma round_up_ge (a nb : Z) :
  0 <= a -> 0 < nb -> a <= Z.quot (a + nb - 1) nb * nb.
Proof.
  intros Ha Hnb. rewrite Z.quot_div_nonneg by lia.
  pose proof (Z.div_mod (a + nb - 1) nb ltac:(lia)) as Hdm.
  pose proof (Z.mod_pos_bound (a + nb - 1) nb Hnb) as Hmod.
  rewrite Z.mul_comm. lia.
Qed.

(** An index is one row of one column. *)
Lemma column_unique (ld r j r' j' : Z) :
  0 <= r < ld -> 0 <= r' < ld -> r + j * ld = r' + j' * ld ->
  r = r' /\ j = j'.
Proof.
  intros Hr Hr' E.
  assert (j = j') by nia. subst j'. lia.
Qed.

Lemma column_in_bounds (ld n r j : Z) :
  0 <= r < ld -> 0 <= j < n -> 0 <= r + j * ld < ld * n.
Proof. intros Hr Hj. nia. Qed.

Section CArrayFacts.
Context {T : Type}.
Import CArray.

Implicit Types (a : array T) (ws : list (Z * T)) (acc : option (array T)).

Lemma apply_writes_app ws1 ws2 acc :
  apply_writes (ws1 ++ ws2) acc = apply_writes ws2 (apply_writes ws1 acc).
Proof. apply foldl_app. Qed.

Lemma last_write_app (p : Z) ws1 ws2 :
  last_write p (ws1 ++ ws2)
  = match last_write p ws2 with
    | Some v => Some v
    | None => last_write p ws1
    end.
Proof.
  induction ws2 as [|w ws2 IH] using rev_ind.
  - rewrite app_nil_r. reflexivity.
  - rewrite app_assoc. unfold last_write in *. rewrite !foldl_snoc.
    destruct (fst w =? p); [reflexivity|exact IH].
Qed.

Lemma last_write_none (p : Z) ws :
  (forall w, w ∈ ws -> fst w <> p) -> last_write p ws = None.
Proof.
  induction ws as [|w ws IH] using rev_ind; intros H; [reflexivity|].
  unfold last_write in *. rewrite foldl_snoc.
  destruct (Z.eqb_spec (fst w) p) as [E|_].
  - exfalso. apply (H w); [apply elem_of_app; right; left|exact E].
  - apply IH. intros w' Hw'. apply H. apply elem_of_app. left. exact Hw'.
Qed.

Lemma last_write_agree (p : Z) (v : T) ws :
  (forall w, w ∈ ws -> fst w = p -> snd w = v) ->
  (exists w, w ∈ ws /\ fst w = p) ->
  last_write p ws = Some v.
Proof.
  induction ws as [|w ws IH] using rev_ind; intros Hall (w0 & Hin & Hp).
  - inversion Hin.
  - unfold last_write in *. rewrite foldl_snoc.
    destruct (Z.eqb_spec (fst w) p) as [E|N].
    + f_equal. apply Hall; [apply elem_of_app; right; left|exact E].
    + apply IH.
      * intros w' Hw'. apply Hall. apply elem_of_app. left. exact Hw'.
      * apply elem_of_app in Hin as [Hin|Hin].
        -- exists w0. split; assumption.
        -- apply list_elem_of_singleton in Hin. subst w0. contradiction.
Qed.

(** Writes inside the array all succeed; afterwards an element holds what
    was written to it last, or what it held. *)
Lemma apply_writes_spec ws :
  forall a,
    (forall w, w ∈ ws -> 0 <= fst w < Z.of_nat (length a)) ->
    exists a', apply_writes ws (Some a) = Some a' /\
      length a' = length a /\
      forall p, 0 <= p ->
        a' !! Z.to_nat p
        = match last_write p ws with
          | Some v => Some v
          | None => a !! Z.to_nat p
          end.
Proof.
  induction ws as [|w ws IH] using rev_ind; intros a Hb.
  - exists a. split; [reflexivity|]. split; [reflexivity|]. reflexivity.
  - destruct (IH a) as (a1 & E & Hl & Hv).
    { intros w' Hw'. apply Hb. apply elem_of_app. left. exact Hw'. }
    assert (Hw : 0 <= fst w < Z.of_nat (length a)).
    { apply Hb. apply elem_of_app. right. left. }
    unfold apply_writes in *. rewrite foldl_snoc, E. simpl. unfold store.
    rewrite Hl.
    destruct (Z.leb_spec 0 (fst w)); [|lia].
    destruct (Z.ltb_spec (fst w) (Z.of_nat (length a))); [|lia]. simpl.
    eexists. split; [reflexivity|]. split; [rewrite length_insert; exact Hl|].
    intros p Hp. unfold last_write. rewrite foldl_snoc.
    fold (last_write p ws).
    destruct (Z.eqb_spec (fst w) p) as [Ep|N].
    + rewrite Ep. apply list_lookup_insert_eq. lia.
    + rewrite list_lookup_insert_ne by lia. apply Hv. exact Hp.
Qed.

(** Loops of writes as series of writes. *)
Lemma for_range_writes (idx : Z -> Z) (val : Z -> T) (lo hi : Z) acc :
  for_range lo hi (fun i acc => a ← acc; store (idx i) (val i) a) acc
  = apply_writes ((fun i => (idx i, val i)) <$> range lo hi) acc.
Proof.
  rewrite for_range_foldl. unfold apply_writes, range.
  rewrite foldl_fmap. reflexivity.
Qed.

Lemma for_range_apply_writes (ws : Z -> list (Z * T)) (lo hi : Z) acc :
  for_range lo hi (fun i acc => apply_writes (ws i) acc) acc
  = apply_writes (i ← range lo hi; ws i) acc.
Proof.
  rewrite for_range_foldl. fold (range lo hi). revert acc.
  induction (range lo hi) as [|i l IH]; intros acc; [reflexivity|].
  simpl. rewrite IH. symmetry. apply apply_writes_app.
Qed.

Lemma last_write_suffix (p : Z) (v : T) ws1 ws2 :
  (forall w, w ∈ ws2 -> fst w = p -> snd w = v) ->
  (exists w, w ∈ ws2 /\ fst w = p) ->
  last_write p (ws1 ++ ws2) = Some v.
Proof.
  intros Hall Hex. rewrite last_write_app.
  rewrite (last_write_agree p v ws2 Hall Hex). reflexivity.
Qed.

Lemma range_app (lo mid hi : Z) :
  lo <= mid <= hi -> range lo hi = range lo mid ++ range mid hi.
Proof.
  intros H. unfold range.
  replace (hi - lo) with ((mid - lo) + (hi - mid)) by lia.
  rewrite seqZ_app by lia. do 2 f_equal. lia.
Qed.

Lemma bind_range_split {X : Type} (W : Z -> list X) (n j : Z) :
  0 <= j < n ->
  (k ← range 0 n; W k)
  = (k ← range 0 j; W k) ++ W j ++ (k ← range (j + 1) n; W k).
Proof.
  intros Hj. rewrite (range_app 0 j n) by lia.
  rewrite (range_cons j n) by lia.
  rewrite bind_app. reflexivity.
Qed.

Lemma load_inside (A : array T) (idx : Z) :
  0 <= idx < Z.of_nat (length A) ->
  load A idx = A !! Z.to_nat idx /\ is_Some (A !! Z.to_nat idx).
Proof.
  intros H. unfold load. destruct (Z.ltb_spec idx 0); [lia|].
  split; [reflexivity|]. apply lookup_lt_is_Some. lia.
Qed.

Lemma for_range_moves (w r : Z -> Z) (lo hi : Z) acc :
  for_range lo hi (fun j acc =>
    a ← acc; v ← load a (r j); store (w j) v a) acc
  = apply_moves ((fun j => (w j, r j, fun v : T => v)) <$> range lo hi) acc.
Proof.
  rewrite for_range_foldl. unfold apply_moves, range.
  rewrite foldl_fmap. reflexivity.
Qed.

Lemma apply_moves_app (ms1 ms2 : list (Z * Z * (T -> T))) acc :
  apply_moves (ms1 ++ ms2) acc = apply_moves ms2 (apply_moves ms1 acc).
Proof. apply foldl_app. Qed.

Lemma for_range_apply_moves (ms : Z -> list (Z * Z * (T -> T))) (lo hi : Z) acc :
  for_range lo hi (fun i acc => apply_moves (ms i) acc) acc
  = apply_moves (i ← range lo hi; ms i) acc.
Proof.
  rewrite for_range_foldl. fold (range lo hi). revert acc.
  induction (range lo hi) as [|i l IH]; intros acc; [reflexivity|].
  simpl. rewrite IH. symmetry. apply apply_moves_app.
Qed.

(** Assignments that each write a place of their own, and read no place
    another one writes, are writes of values of the array they start
    from. *)
Lemma apply_moves_once (d : T) (ms : list (Z * Z * (T -> T))) (A : array T) :
  (forall m, m ∈ ms ->
     0 <= fst (fst m) < Z.of_nat (length A) /\
     0 <= snd (fst m) < Z.of_nat (length A)) ->
  NoDup ms ->
  (forall m m', m ∈ ms -> m' ∈ ms -> fst (fst m') = snd (fst m) -> m' = m) ->
  apply_moves ms (Some A)
  = apply_writes
      ((fun m => (fst (fst m),
                  snd m (default d (A !! Z.to_nat (snd (fst m)))))) <$> ms)
      (Some A).
Proof.
  induction ms as [|m ms IH] using rev_ind; intros Hb Hnd Hsep; [reflexivity|].
  apply NoDup_app in Hnd as (Hnd & Hfresh & _).
  rewrite fmap_app, apply_moves_app, apply_writes_app, IH; cycle 1.
  { intros m' Hm'. apply Hb. apply elem_of_app. left. exact Hm'. }
  { exact Hnd. }
  { intros m1 m2 H1 H2. apply Hsep; apply elem_of_app; left; assumption. }
  set (W := (fun m => (fst (fst m),
                       snd m (default d (A !! Z.to_nat (snd (fst m))))))
              <$> ms).
  destruct (apply_writes_spec W A) as (a1 & E & Hl & Hv).
  { intros w Hw. apply list_elem_of_fmap in Hw as (m' & -> & Hm'). simpl.
    apply Hb. apply elem_of_app. left. exact Hm'. }
  rewrite E. destruct (Hb m) as [Hw Hr]; [apply elem_of_app; right; left|].
  destruct (load_inside A (snd (fst m)) Hr) as [_ [v Hlook]].
  assert (Hread : load a1 (snd (fst m)) = Some v).
  { unfold load. destruct (Z.ltb_spec (snd (fst m)) 0); [lia|].
    rewrite Hv by lia. rewrite last_write_none; [exact Hlook|].
    intros w Hin Ew. apply list_elem_of_fmap in Hin as (m' & -> & Hm').
    simpl in Ew. apply (Hfresh m' Hm').
    rewrite (Hsep m m'); [left| | |exact Ew].
    - apply elem_of_app. right. left.
    - apply elem_of_app. left. exact Hm'. }
  simpl. unfold assign. simpl. rewrite Hread, Hlook. reflexivity.
Qed.

End CArrayFacts.

(** ** The band storage of [test/test_clangb.c] *)

Section TestClangbFacts.
Context {T : Type} (zero : T).
Import CArray TestClangb.

Implicit Types (a : array T) (ws : list (Z * T)) (acc : option (array T)).

(** *** Clearing outside the band *)

Lemma nest_writes (idx : Z -> Z -> Z) (lo hi : Z) (lo' hi' : Z -> Z) acc :
  for_range lo hi (fun i acc =>
    for_range (lo' i) (hi' i) (fun j acc =>
      a ← acc; store (idx i j) zero a) acc) acc
  = apply_writes
      (i ← range lo hi; (fun j => (idx i j, zero)) <$> range (lo' i) (hi' i))
      acc.
Proof.
  rewrite <- for_range_apply_writes.
  apply for_range_ext_in. intros i x _.
  apply (for_range_writes (idx i) (fun _ => zero)).
Qed.

Lemma zero_outside_band_writes (m n kl ku lda : Z) (A : array T) :
  zero_outside_band zero m n kl ku lda A
  = apply_writes (zeroing_writes zero m n kl ku lda) (Some A).
Proof.
  unfold zero_outside_band, zeroing_writes. rewrite apply_writes_app.
  rewrite <- (nest_writes (fun i j => i + j * lda) 0 m
                (fun i => i + ku + 1) (fun _ => n) (Some A)).
  rewrite <- (nest_writes (fun j i => i + j * lda) 0 n
                (fun j => j + kl + 1) (fun _ => m)).
  reflexivity.
Qed.

Lemma elem_of_zeroing_writes (m n kl ku lda : Z) (w : Z * T) :
  0 <= kl -> 0 <= ku ->
  w ∈ zeroing_writes zero m n kl ku lda <->
  exists i j, w = (i + j * lda, zero) /\
    0 <= i < m /\ 0 <= j < n /\ (i + ku < j \/ j + kl < i).
Proof.
  intros Hkl Hku. unfold zeroing_writes.
  rewrite elem_of_app, !list_elem_of_bind. split.
  - intros [(i & Hw & Hi)|(j & Hw & Hj)].
    + apply list_elem_of_fmap in Hw as (j & -> & Hj).
      apply elem_of_range in Hi, Hj. exists i, j.
      split; [reflexivity|]. lia.
    + apply list_elem_of_fmap in Hw as (i & -> & Hi).
      apply elem_of_range in Hi, Hj. exists i, j.
      split; [reflexivity|]. lia.
  - intros (i & j & -> & Hi & Hj & [H|H]).
    + left. exists i. split; [|apply elem_of_range; lia].
      apply list_elem_of_fmap. exists j.
      split; [reflexivity|apply elem_of_range; lia].
    + right. exists j. split; [|apply elem_of_range; lia].
      apply list_elem_of_fmap. exists i.
      split; [reflexivity|apply elem_of_range; lia].
Qed.


(** *** The skewed storage *)

Lemma ldab_room (kl ku nb : Z) :
  0 < nb -> 0 <= kl -> 0 <= ku -> 2 * kl + ku < ldab ku kl nb.
Proof.
  intros Hnb Hkl Hku. unfold ldab, kut, klt.
  pose proof (round_up_ge (ku + kl) nb ltac:(lia) Hnb).
  pose proof (round_up_ge kl nb Hkl Hnb).
  lia.
Qed.

Lemma to_skewed_storage_writes (m n kl ku lda ld : Z) (A AB : array T) :
  0 <= m <= lda -> Z.of_nat (length A) = lda * n ->
  to_skewed_storage zero m n kl ku lda ld A AB
  = apply_writes (j ← range 0 n; skewed_writes zero m kl ku lda ld A j)
      (Some AB).
Proof.
  intros Hm Hlen. unfold to_skewed_storage.
  rewrite <- for_range_apply_writes.
  apply for_range_ext_in. intros j acc Hj. cbv zeta.
  unfold skewed_writes, cleared, copied.
  rewrite apply_writes_app, <- !for_range_writes.
  apply for_range_ext_in. intros i acc' Hi.
  destruct acc' as [ab|]; [|reflexivity]. simpl.
  rewrite imin_spec, imax_spec in Hi.
  destruct (load_inside A (i + j * lda)) as [Hload [v Hv]].
  { rewrite Hlen. apply column_in_bounds; lia. }
  rewrite Hv in Hload. rewrite Hload. reflexivity.
Qed.

Lemma elem_of_copied (m kl ku lda ld : Z) (A : array T) (j : Z) (w : Z * T) :
  w ∈ copied zero m kl ku lda ld A j <->
  exists i, 0 <= i < m /\ j - ku <= i <= j + kl /\
    w = (kl + ku + i - j + j * ld, default zero (load A (i + j * lda))).
Proof.
  unfold copied. rewrite list_elem_of_fmap. split.
  - intros (i & -> & Hi). exists i. apply elem_of_range in Hi.
    rewrite imin_spec, imax_spec in Hi.
    split; [lia|]. split; [lia|]. f_equal. lia.
  - intros (i & Hi & Hband & ->). exists i. split; [f_equal; lia|].
    apply elem_of_range. rewrite imin_spec, imax_spec. lia.
Qed.

Lemma elem_of_skewed_writes (m kl ku lda ld : Z) (A : array T) (j : Z)
    (w : Z * T) :
  w ∈ skewed_writes zero m kl ku lda ld A j <->
  (exists r, 0 <= r < ld /\ w = (r + j * ld, zero)) \/
  (exists i, 0 <= i < m /\ j - ku <= i <= j + kl /\
     w = (kl + ku + i - j + j * ld, default zero (load A (i + j * lda)))).
Proof.
  unfold skewed_writes. rewrite elem_of_app, elem_of_copied.
  unfold cleared. rewrite list_elem_of_fmap. split.
  - intros [(r & -> & Hr)|H]; [left|right; exact H].
    exists r. apply elem_of_range in Hr. split; [lia|reflexivity].
  - intros [(r & Hr & ->)|H]; [left|right; exact H].
    exists r. split; [reflexivity|apply elem_of_range; lia].
Qed.

(** Every write of column [j] lands in column [j]. *)
Lemma skewed_writes_column (m kl ku nb lda : Z) (A : array T) (j : Z)
    (w : Z * T) :
  0 < nb -> 0 <= kl -> 0 <= ku ->
  w ∈ skewed_writes zero m kl ku lda (ldab ku kl nb) A j ->
  exists r, 0 <= r < ldab ku kl nb /\ fst w = r + j * ldab ku kl nb.
Proof.
  intros Hnb Hkl Hku Hw. pose proof (ldab_room kl ku nb Hnb Hkl Hku) as Hroom.
  apply elem_of_skewed_writes in Hw as [(r & Hr & ->)|(i & Hi & Hband & ->)].
  - exists r. split; [exact Hr|reflexivity].
  - exists (kl + ku + i - j). split; [lia|reflexivity].
Qed.


End TestClangbFacts.

(** ** The symmetric matrix of [test/test_spoinv.c] and [test/test_ssysv.c] *)

Section TestSymmetricFacts.
Context {T : Type} (zero : T) (on_diagonal : T -> T).
Import CArray TestSymmetric.

Lemma A_unique (lda i j i' j' : Z) :
  0 <= i < lda -> 0 <= i' < lda -> A_ lda i j = A_ lda i' j' ->
  i = i' /\ j = j'.
Proof.
  unfold A_. intros Hi Hi' E. apply (column_unique lda); [lia|lia|lia].
Qed.

Lemma A_inside (lda n i j : Z) :
  0 <= i < lda -> 0 <= j < n -> 0 <= A_ lda i j < lda * n.
Proof.
  unfold A_. intros Hi Hj. pose proof (column_in_bounds lda n i j Hi Hj). lia.
Qed.

Lemma make_symmetric_moves (n lda : Z) (A : array T) :
  make_symmetric on_diagonal n lda A
  = apply_moves (symmetric_moves on_diagonal n lda) (Some A).
Proof.
  unfold make_symmetric, symmetric_moves.
  rewrite <- for_range_apply_moves.
  apply for_range_ext_in. intros i acc _. cbv zeta.
  rewrite (for_range_moves (fun j => A_ lda j i) (fun j => A_ lda i j)).
  reflexivity.
Qed.

Lemma elem_of_symmetric_moves (n lda : Z) (m : Z * Z * (T -> T)) :
  m ∈ symmetric_moves on_diagonal n lda <->
  exists i, 0 <= i < n /\
    (m = (A_ lda i i, A_ lda i i, on_diagonal) \/
     exists j, 0 <= j < i /\ m = (A_ lda j i, A_ lda i j, fun v => v)).
Proof.
  unfold symmetric_moves, row_moves. rewrite list_elem_of_bind. split.
  - intros (i & Hm & Hi). apply elem_of_range in Hi. exists i.
    split; [exact Hi|]. apply elem_of_cons in Hm as [->|Hm]; [left; reflexivity|].
    right. apply list_elem_of_fmap in Hm as (j & -> & Hj).
    apply elem_of_range in Hj. exists j. split; [exact Hj|reflexivity].
  - intros (i & Hi & [->|(j & Hj & ->)]); exists i;
      (split; [|apply elem_of_range; exact Hi]).
    + left.
    + right. apply list_elem_of_fmap. exists j.
      split; [reflexivity|apply elem_of_range; exact Hj].
Qed.

(** Every assignment writes a place on or above the diagonal: the place
    [(j, i)] with [j <= i], which tells the assignment. *)
Lemma symmetric_moves_target (n lda : Z) (m : Z * Z * (T -> T)) :
  m ∈ symmetric_moves on_diagonal n lda ->
  exists i j, 0 <= j <= i /\ i < n /\ fst (fst m) = A_ lda j i /\
    snd (fst m) = A_ lda i j /\
    m = (if j =? i then (A_ lda i i, A_ lda i i, on_diagonal)
         else (A_ lda j i, A_ lda i j, fun v => v)).
Proof.
  intros Hm. apply elem_of_symmetric_moves in Hm as (i & Hi & [->|(j & Hj & ->)]).
  - exists i, i. rewrite Z.eqb_refl. repeat split; lia.
  - exists i, j. destruct (Z.eqb_spec j i); [lia|]. repeat split; lia.
Qed.

Lemma symmetric_moves_same_target (n lda : Z) (m m' : Z * Z * (T -> T)) :
  0 <= n <= lda ->
  m ∈ symmetric_moves on_diagonal n lda ->
  m' ∈ symmetric_moves on_diagonal n lda ->
  fst (fst m) = fst (fst m') -> m = m'.
Proof.
  intros Hn Hm Hm' E.
  destruct (symmetric_moves_target n lda m Hm) as (i & j & Hj & Hi & Ew & _ & ->).
  destruct (symmetric_moves_target n lda m' Hm')
    as (i' & j' & Hj' & Hi' & Ew' & _ & ->).
  rewrite Ew, Ew' in E.
  destruct (A_unique lda j i j' i') as [-> ->]; [lia|lia|exact E|reflexivity].
Qed.

Lemma NoDup_symmetric_moves (n lda : Z) :
  0 <= n <= lda -> NoDup (symmetric_moves on_diagonal n lda).
Proof.
  intros Hn. unfold symmetric_moves. apply NoDup_bind.
  - intros i1 i2 m H1 H2 Hm1 Hm2. apply elem_of_range in H1, H2.
    assert (Hin : forall i, 0 <= i < n -> m ∈ row_moves on_diagonal lda i ->
              exists j, 0 <= j <= i /\ fst (fst m) = A_ lda j i).
    { intros i Hi Hm. unfold row_moves in Hm.
      apply elem_of_cons in Hm as [->|Hm]; [exists i; split; [lia|reflexivity]|].
      apply list_elem_of_fmap in Hm as (j & -> & Hj). apply elem_of_range in Hj.
      exists j. split; [lia|reflexivity]. }
    destruct (Hin i1 H1 Hm1) as (j1 & Hj1 & E1).
    destruct (Hin i2 H2 Hm2) as (j2 & Hj2 & E2).
    rewrite E1 in E2.
    destruct (A_unique lda j1 i1 j2 i2); [lia|lia|exact E2|assumption].
  - intros i Hi. apply elem_of_range in Hi. unfold row_moves.
    apply NoDup_cons. split.
    + intros Hm. apply list_elem_of_fmap in Hm as (j & E & Hj).
      apply elem_of_range in Hj. injection E as E _.
      destruct (A_unique lda i i j i); [lia|lia|exact E|lia].
    + apply NoDup_fmap_2_strong; [|apply NoDup_seqZ].
      intros j j' Hj Hj' E. apply elem_of_range in Hj, Hj'.
      injection E as E _.
      destruct (A_unique lda j i j' i); [lia|lia|exact E|assumption].
  - apply NoDup_seqZ.
Qed.

(** X27. The loop that makes the test matrix symmetric stays inside the
    array and does what its comment says.  For an [lda]-by-[n] array with
    [n <= lda], every read and write is inside the array; afterwards each
    element above the diagonal holds what the element mirrored below the
    diagonal held on entry, the elements below the diagonal and the
    padding rows are as they were, so the matrix is symmetric, and each
    diagonal element holds the diagonal update of its old value. *)
Theorem make_symmetric_mirrors (n lda : Z) (A : array T) :
  0 <= n <= lda -> Z.of_nat (length A) = lda * n ->
  exists A', make_symmetric on_diagonal n lda A = Some A' /\
    length A' = length A /\
    (forall i j, 0 <= j < i -> i < n ->
       A' !! Z.to_nat (A_ lda j i) = A !! Z.to_nat (A_ lda i j) /\
       A' !! Z.to_nat (A_ lda i j) = A !! Z.to_nat (A_ lda i j)) /\
    (forall i, 0 <= i < n ->
       A' !! Z.to_nat (A_ lda i i)
       = on_diagonal <$> A !! Z.to_nat (A_ lda i i)) /\
    (forall i j, n <= i < lda -> 0 <= j < n ->
       A' !! Z.to_nat (A_ lda i j) = A !! Z.to_nat (A_ lda i j)).
Proof.
  intros Hn Hlen. destruct A as [|d A0].
  { assert (n = 0) by (simpl in Hlen; nia). subst n.
    exists []. split; [reflexivity|]. split; [reflexivity|].
    split; [intros; lia|]. split; intros; lia. }
  set (A := d :: A0) in *.
  assert (Hinside : forall m, m ∈ symmetric_moves on_diagonal n lda ->
            0 <= fst (fst m) < Z.of_nat (length A) /\
            0 <= snd (fst m) < Z.of_nat (length A)).
  { intros m Hm.
    destruct (symmetric_moves_target n lda m Hm) as (i & j & Hj & Hi & -> & -> & _).
    rewrite Hlen. split; apply A_inside; lia. }
  rewrite make_symmetric_moves.
  rewrite (apply_moves_once d); [|exact Hinside|apply NoDup_symmetric_moves; exact Hn|].
  2:{ intros m m' Hm Hm' E.
      destruct (symmetric_moves_target n lda m Hm) as (i & j & Hj & Hi & _ & Er & Em).
      destruct (symmetric_moves_target n lda m' Hm')
        as (i' & j' & Hj' & Hi' & Ew' & _ & Em').
      rewrite Er, Ew' in E.
      destruct (A_unique lda j' i' i j) as [-> ->]; [lia|lia|exact E|].
      assert (i = j) by lia. subst j. rewrite Em, Em'. reflexivity. }
  set (W := (fun m : Z * Z * (T -> T) =>
               (fst (fst m),
                snd m (default d (A !! Z.to_nat (snd (fst m))))))
              <$> symmetric_moves on_diagonal n lda).
  destruct (apply_writes_spec W A) as (A' & E & Hl & Hv).
  { intros w Hw. apply list_elem_of_fmap in Hw as (m & -> & Hm). simpl.
    apply (Hinside m Hm). }
  assert (Hwritten : forall i j v, 0 <= j <= i -> i < n ->
            A !! Z.to_nat (A_ lda i j) = Some v ->
            last_write (A_ lda j i) W
            = Some (if j =? i then on_diagonal v else v)).
  { intros i j v Hj Hi Hlook. apply last_write_agree.
    - intros w Hw Ew. apply list_elem_of_fmap in Hw as (m & -> & Hm).
      simpl in Ew |- *.
      destruct (symmetric_moves_target n lda m Hm)
        as (i' & j' & Hj' & Hi' & Ew' & _ & ->).
      rewrite Ew' in Ew.
      destruct (A_unique lda j' i' j i) as [-> ->]; [lia|lia|exact Ew|].
      destruct (Z.eqb_spec j i) as [->|Hne]; simpl; rewrite Hlook; reflexivity.
    - exists (A_ lda j i, if j =? i then on_diagonal v else v).
      split; [|reflexivity]. apply list_elem_of_fmap.
      destruct (Z.eqb_spec j i) as [->|Hne].
      + exists (A_ lda i i, A_ lda i i, on_diagonal). split.
        * simpl. rewrite Hlook. reflexivity.
        * apply elem_of_symmetric_moves.
          exists i. split; [lia|left; reflexivity].
      + exists (A_ lda j i, A_ lda i j, fun v => v). split.
        * simpl. rewrite Hlook. reflexivity.
        * apply elem_of_symmetric_moves.
          exists i. split; [lia|right]. exists j. split; [lia|reflexivity]. }
  assert (Hkept : forall i j, 0 <= i < lda -> 0 <= j < n -> j < i ->
            last_write (A_ lda i j) W = None).
  { intros i j Hi Hj Hlow. apply last_write_none.
    intros w Hw Ew. apply list_elem_of_fmap in Hw as (m & -> & Hm).
    simpl in Ew.
    destruct (symmetric_moves_target n lda m Hm)
      as (i' & j' & Hj' & Hi' & Ew' & _).
    rewrite Ew' in Ew.
    destruct (A_unique lda j' i' i j); [lia|lia|exact Ew|lia]. }
  assert (Hsome : forall i j, 0 <= i < lda -> 0 <= j < n ->
            exists v, A !! Z.to_nat (A_ lda i j) = Some v).
  { intros i j Hi Hj. apply lookup_lt_is_Some.
    pose proof (A_inside lda n i j Hi Hj). lia. }
  exists A'. split; [exact E|]. split; [exact Hl|]. split; [|split].
  - intros i j Hj Hi.
    destruct (Hsome i j ltac:(lia) ltac:(lia)) as [v Hlook].
    rewrite !Hv by (pose proof (A_inside lda n i j); pose proof (A_inside lda n j i); lia).
    rewrite (Hwritten i j v) by (lia || assumption).
    rewrite (Hkept i j) by lia.
    destruct (Z.eqb_spec j i); [lia|]. split; [symmetry; exact Hlook|reflexivity].
  - intros i Hi. destruct (Hsome i i ltac:(lia) ltac:(lia)) as [v Hlook].
    rewrite Hv by (pose proof (A_inside lda n i i); lia).
    rewrite (Hwritten i i v) by (lia || assumption).
    rewrite Z.eqb_refl.
    exact (eq_sym (f_equal (fmap on_diagonal) Hlook)).
  - intros i j Hi Hj.
    rewrite Hv by (pose proof (A_inside lda n i j); lia).
    rewrite (Hkept i j) by lia. reflexivity.
Qed.


End TestSymmetricFacts.

(** * The further properties on concrete data *)

Section MoreSamples.
#[local] Existing Instance sample_types.
#[local] Existing Instance sample_descriptor.
Import Pzunmqrrh Layout.

(** *** The triangular add on 2-by-3 and 3-by-3 grids *)

Lemma pdtradd_upper_walk_witness :
  queue (Pdtradd.plasma_pdtradd PlasmaUpper PlasmaTrans 2 B23 1 B23 fresh)
  = [ Pdtradd.core_omp_dtradd 121 112 2 2 2 0 2 1 0 2;
      Pdtradd.core_omp_dgeadd 112 2 2 2 4 2 1 8 2;
      Pdtradd.core_omp_dgeadd 112 2 2 2 8 2 1 16 2;
      Pdtradd.core_omp_dtradd 121 112 2 2 2 12 2 1 12 2;
      Pdtradd.core_omp_dgeadd 112 2 2 2 16 2 1 20 2 ].
Proof.
  assert (Hne : PlasmaUpper <> PlasmaLower) by discriminate.
  rewrite (pdtradd_upper_walk PlasmaTrans 2 B23 1 B23 fresh Hne eq_refl).
  reflexivity.
Defined.

Lemma pdtradd_never_fails_witness :
  Pdtradd.plasma_pdtradd PlasmaGeneral PlasmaNoTrans 2 B33 1 B33 fresh = fresh /\
  async (Pdtradd.plasma_pdtradd PlasmaLower PlasmaNoTrans 2 B33 1 B33 fresh)
  = sequenceInit.
Proof.
  assert (H1 : PlasmaGeneral <> PlasmaLower) by discriminate.
  assert (H2 : PlasmaGeneral <> PlasmaUpper) by discriminate.
  destruct (pdtradd_never_fails PlasmaGeneral PlasmaNoTrans 2 B33 1 B33 fresh)
    as (_ & _ & Hother).
  destruct (pdtradd_never_fails PlasmaLower PlasmaNoTrans 2 B33 1 B33 fresh)
    as (Hasync & _).
  split; [exact (Hother H1 H2)|exact Hasync].
Defined.

Lemma pdtradd_writes_stored_triangle_witness :
  (exists c : Pdtradd.call Z,
     c ∈ queue (Pdtradd.plasma_pdtradd PlasmaLower PlasmaNoTrans 2 B33 1 B33 fresh)
     /\ dest c = 20 /\ is_dtradd c = false) /\
  (exists c : Pdtradd.call Z,
     c ∈ queue (Pdtradd.plasma_pdtradd PlasmaUpper PlasmaNoTrans 2 B33 1 B33 fresh)
     /\ dest c = 24 /\ is_dtradd c = false).
Proof.
  assert (Hne : PlasmaUpper <> PlasmaLower) by discriminate.
  destruct (pdtradd_writes_stored_triangle PlasmaNoTrans 2 B33 1 B33 fresh
              Hne eq_refl) as (_ & Hlower & _ & Hupper).
  split.
  - assert (H1 : 0 <= 1 <= 2) by lia.
    exact (Hlower 2 1 H1 eq_refl eq_refl).
  - assert (H1 : 0 <= 0 <= 2) by lia.
    exact (Hupper 0 2 H1 eq_refl eq_refl).
Defined.

Lemma pdtradd_call_count_witness :
  2 * Z.of_nat (length (queue (Pdtradd.plasma_pdtradd PlasmaLower PlasmaNoTrans
                                 2 B23 1 B23 fresh))) = 6 /\
  2 * Z.of_nat (length (queue (Pdtradd.plasma_pdtradd PlasmaUpper PlasmaNoTrans
                                 2 B23 1 B23 fresh))) = 10.
Proof.
  assert (Hne : PlasmaUpper <> PlasmaLower) by discriminate.
  assert (Hmt : 0 <= D.mt B23) by discriminate.
  assert (Hnt : 0 <= D.nt B23) by discriminate.
  exact (pdtradd_call_count PlasmaNoTrans 2 B23 1 B23 fresh Hne eq_refl Hmt Hnt).
Defined.

(** *** The Q-application walk on the 2-by-2 grid *)

Lemma pzunmqrrh_known_kinds_witness :
  async (run_unmqrrh tree_ops PlasmaLeft Plasma_ConjTrans) = sequenceInit /\
  length (queue (run_unmqrrh tree_ops PlasmaLeft Plasma_ConjTrans)) = 6%nat.
Proof.
  assert (Hknown : Forall (fun o => recognized (op_kernel o) = true) tree_ops).
  { repeat constructor. }
  exact (pzunmqrrh_known_kinds (fun _ _ => tree_ops) PlasmaLeft Plasma_ConjTrans
           A22 T24 A22 tt 7%nat fresh eq_refl Hknown).
Defined.


(** *** The layout walks on a view with an offset and on a 3-by-2 grid *)

Lemma layout_walk_extents_witness :
  let to_tiled := queue (plasma_pdtr2desc_blasfeo 0 6 offset_view fresh) in
  let from_tiled := queue (plasma_pddesc2tr_blasfeo offset_view 0 6 fresh) in
  let column_0 := filter (fun t => snd t = 0) (walk_tiles offset_view) in
  call_rows <$> from_tiled = call_rows <$> to_tiled /\
  call_cols <$> from_tiled = call_cols <$> to_tiled /\
  column_0 = [(0, 0); (1, 0); (2, 0)] /\
  sumZ (call_rows <$> (pack_call 0 6 offset_view <$> column_0)) = 4 /\
  ((0, 1) ∉ walk_tiles offset_view) /\
  0 < call_cols (pack_call 0 6 offset_view (1, 1)) <= 2.
Proof.
  intros to_tiled from_tiled column_0.
  assert (Hmb : 0 < D.mb offset_view) by reflexivity.
  assert (Hi : 0 <= D.i offset_view) by discriminate.
  assert (Hm : 0 < D.m offset_view) by reflexivity.
  assert (Hmi : D.i offset_view + D.m offset_view < 2147483648) by reflexivity.
  assert (Hnb : 0 < D.nb offset_view) by reflexivity.
  assert (Hj : 0 <= D.j offset_view) by discriminate.
  assert (Hn : 0 < D.n offset_view) by reflexivity.
  assert (Hnj : D.j offset_view + D.n offset_view < 2147483648) by reflexivity.
  destruct (layout_walk_extents 0 6 offset_view fresh eq_refl
              Hmb Hi Hm Hmi eq_refl Hnb Hj Hn Hnj eq_refl)
    as (_ & _ & Hrows & Hcols & Hlower & _ & Hbound).
  assert (Htype : D.type offset_view <> PlasmaUpper) by discriminate.
  destruct (Hlower Htype) as (Hcolumn & Hsum & Hskip).
  split; [exact Hrows|]. split; [exact Hcols|]. split; [exact Hcolumn|].
  split; [exact Hsum|]. split; [apply Hskip; reflexivity|].
  assert (Hin : (1, 1) ∈ walk_tiles offset_view).
  { apply (list_elem_of_lookup_2 _ 2%nat). reflexivity. }
  exact (proj2 (Hbound 1 1 Hin eq_refl)).
Defined.

Lemma layout_lower_walk_count_witness :
  2 * Z.of_nat (length (queue (plasma_pdtr2desc_blasfeo 0 6 L32 fresh))) = 12 /\
  plasma_core_omp_dpack_blasfeo 123 111 2 2 28 6 32 2
  ∈ queue (plasma_pdtr2desc_blasfeo 0 6 L32 fresh).
Proof.
  assert (Htype : D.type L32 <> PlasmaUpper) by discriminate.
  assert (Hmt : 0 <= D.mt L32) by discriminate.
  destruct (layout_lower_walk_count 0 6 L32 fresh eq_refl Htype Hmt)
    as (Hcount & _ & Hbeyond).
  split; [exact Hcount|].
  assert (Hnt : 0 <= D.nt L32 < D.mt L32) by (split; [discriminate|reflexivity]).
  exact (proj1 (Hbeyond Hnt)).
Defined.

(** *** Queues of Cholesky tasks *)

Lemma dpotrf_queue_after_failure_witness :
  same_matrix [plain_call; failing_call; plain_call] /\
  run_tasks (submit_dpotrf [plain_call; failing_call; plain_call]) (sequenceInit, 5)
  = run_tasks (submit_dpotrf [plain_call; failing_call]) (sequenceInit, 5) /\
  run_tasks (submit_dpotrf [failing_call; plain_call]) (failed, 5) = (failed, 5) /\
  run_tasks (rev (submit_dpotrf [failing_call; plain_call])) (failed, 5)
  = (failed, 5).
Proof.
  assert (Hsame : same_matrix ([plain_call; failing_call] ++ [plain_call])).
  { intros c c' Hc Hc'.
    repeat (apply elem_of_cons in Hc as [->|Hc]);
      try (apply elem_of_nil in Hc; contradiction);
      repeat (apply elem_of_cons in Hc' as [->|Hc']);
      try (apply elem_of_nil in Hc'; contradiction);
      split; reflexivity. }
  destruct (dpotrf_queue_after_failure [plain_call; failing_call] [plain_call]
              (sequenceInit, 5)) as (_ & _ & Hmore).
  destruct (dpotrf_queue_after_failure [failing_call; plain_call] []
              (failed, 5)) as (_ & Hskip & _).
  assert (H1 : sequence_status
                 (fst (run_tasks (submit_dpotrf [plain_call; failing_call])
                         (sequenceInit, 5))) <> PlasmaSuccess) by discriminate.
  assert (H2 : sequence_status (fst (failed, 5)) <> PlasmaSuccess) by discriminate.
  split; [exact Hsame|]. split; [exact (Hmore Hsame H1)|].
  split; [exact (Hskip _ (reflexivity _) H2)|].
  exact (Hskip _ (reverse_Permutation _) H2).
Defined.

Lemma dpotrf_first_failure_identified_witness :
  let final :=
    run_tasks (submit_dpotrf [plain_call; failing_call; plain_call])
      (sequenceInit, 5) in
  same_matrix [plain_call; failing_call; plain_call] /\
  sequence_status (fst final) = 13 /\
  request_status (fst final) !! 7%nat = Some 13 /\
  snd final = 7.
Proof.
  assert (Hsame : same_matrix ([plain_call] ++ failing_call :: [plain_call])).
  { intros c c' Hc Hc'.
    repeat (apply elem_of_cons in Hc as [->|Hc]);
      try (apply elem_of_nil in Hc; contradiction);
      repeat (apply elem_of_cons in Hc' as [->|Hc']);
      try (apply elem_of_nil in Hc'; contradiction);
      split; reflexivity. }
  assert (H1 : snd (dc_core failing_call (dc_uplo failing_call)
                      (dc_n failing_call) (dc_sA failing_call)
                      (dc_ai failing_call) (dc_aj failing_call)
                      (snd (run_tasks (submit_dpotrf [plain_call])
                              (sequenceInit, 5)))) <> 0) by discriminate.
  assert (H2 : dc_iinfo failing_call
               + snd (dc_core failing_call (dc_uplo failing_call)
                        (dc_n failing_call) (dc_sA failing_call)
                        (dc_ai failing_call) (dc_aj failing_call)
                        (snd (run_tasks (submit_dpotrf [plain_call])
                                (sequenceInit, 5)))) <> PlasmaSuccess)
    by discriminate.
  split; [exact Hsame|].
  exact (dpotrf_first_failure_identified [plain_call] [plain_call] failing_call
           (sequenceInit, 5) Hsame eq_refl H1 H2).
Defined.

(** *** The symmetric rank-k update *)

Lemma omp_zsyrk_checks_witness :
  sample_plasma_omp_zsyrk PlasmaUpper PlasmaNoTrans 5 A22 0 A22
    true (Some 7%nat) fresh = Some (submit_one fresh) /\
  sample_plasma_omp_zsyrk 999 PlasmaNoTrans 5 A22 0 A22
    true (Some 7%nat) fresh
  = Some (request_fail 7%nat PlasmaErrorIllegalValue fresh).
Proof.
  destruct (omp_zsyrk_checks (fun z => z =? 0) (fun z => z =? 1) (Some 2)
              (fun _ => PlasmaSuccess) (fun _ _ _ _ _ _ _ => submit_one)
              PlasmaUpper PlasmaNoTrans 5 A22 0 A22 7%nat fresh) as (Hgo & _).
  destruct (omp_zsyrk_checks (fun z => z =? 0) (fun z => z =? 1) (Some 2)
              (fun _ => PlasmaSuccess) (fun _ _ _ _ _ _ _ => submit_one)
              999 PlasmaNoTrans 5 A22 0 A22 7%nat fresh) as (_ & Hbad).
  split.
  - apply Hgo; [|reflexivity].
    split; [eexists; reflexivity|]. split; [left; reflexivity|].
    split; [left; reflexivity|]. split; reflexivity.
  - apply Hbad. intros (_ & [H|H] & _); discriminate H.
Defined.

Lemma zsyrk_reaches_parallel_witness :
  sample_PLASMA_zsyrk_with 0 PlasmaLower PlasmaTrans 2 4 5 0 4 1 100 2
  = Some (0,
          [ Zsyrk.desc_general_create 4 2 2 4 2 0 0 4 2;
            Zsyrk.desc_general_create 4 2 2 2 2 0 0 2 2;
            Zsyrk.sequence_create;
            Zsyrk.parallel_region [tt; tt; tt; tt];
            Zsyrk.desc_destroy (snd (created 4 2 2 4 2 0 0 4 2));
            Zsyrk.desc_destroy (snd (created 4 2 2 2 2 0 0 2 2));
            Zsyrk.sequence_destroy ]).
Proof.
  assert (Hok : zsyrk_arguments_ok (Some 2) PlasmaLower PlasmaTrans 2 4 4 2).
  { split; [eexists; reflexivity|]. split; [right; reflexivity|].
    split; [right; reflexivity|]. repeat split; discriminate. }
  exact (zsyrk_reaches_parallel (fun z => z =? 0) (fun z => z =? 1) (Some 2)
           (fun _ => PlasmaSuccess) (fun _ _ _ _ _ _ _ => submit_one)
           (fun _ _ _ _ => submit_one) (fun _ _ _ _ => submit_one)
           created 0 async
           PlasmaLower PlasmaTrans 2 4 2 5 0 4 1 100 2
           eq_refl Hok eq_refl eq_refl eq_refl eq_refl eq_refl eq_refl
           eq_refl eq_refl eq_refl).
Defined.

Lemma zsyrk_descriptor_release_witness :
  let log : list (Zsyrk.event unit) :=
    [ Zsyrk.desc_general_create 4 2 2 4 2 0 0 4 2;
      Zsyrk.desc_general_create 4 2 2 2 2 0 0 2 2;
      Zsyrk.sequence_create ] in
  sample_PLASMA_zsyrk_with (-5) PlasmaLower PlasmaTrans 2 4 5 0 4 1 100 2
  = Some (-5, log) /\
  length (created_ok created log) = 2%nat /\
  destroyed log = [].
Proof.
  intros log.
  assert (E : sample_PLASMA_zsyrk_with (-5) PlasmaLower PlasmaTrans
                2 4 5 0 4 1 100 2 = Some (-5, log)) by reflexivity.
  destruct (zsyrk_descriptor_release (fun z => z =? 0) (fun z => z =? 1) (Some 2)
              (fun _ => PlasmaSuccess) (fun _ _ _ _ _ _ _ => submit_one)
              (fun _ _ _ _ => submit_one) (fun _ _ _ _ => submit_one)
              created (-5) async
              PlasmaLower PlasmaTrans 2 4 5 0 4 1 100 2 (-5) log E)
    as (_ & Hleak).
  assert (Hseq : -5 <> PlasmaSuccess) by discriminate.
  split; [exact E|]. split; [reflexivity|].
  exact (proj1 (Hleak Hseq eq_refl)).
Defined.

(** *** The column and row maxima *)

Lemma omp_scamax_checks_witness :
  sample_plasma_omp_scamax 301 (sample_desc PlasmaGeneral 2 0 2) 900 50
    true (Some 7%nat) fresh = Some fresh /\
  sample_plasma_omp_scamax 301 A22 900 50 true (Some 7%nat) fresh
  = Some (submit_one fresh) /\
  exists s', sample_plasma_omp_scamax 300 A22 900 50 true (Some 7%nat) fresh
             = Some s' /\
    queue s' = [] /\
    request_status (async s') !! 7%nat = Some PlasmaErrorIllegalValue.
Proof.
  assert (Hvalid : is_Some (Some 2) /\ (301 = 301 \/ 301 = 302) /\
                   PlasmaSuccess = PlasmaSuccess).
  { split; [eexists; reflexivity|]. split; [left|]; reflexivity. }
  destruct (omp_scamax_checks 301 302 (Some 2) (fun _ => PlasmaSuccess)
              (fun _ _ _ _ _ => submit_one)
              301 (sample_desc PlasmaGeneral 2 0 2) 900 50 7%nat fresh)
    as (Hquick & _).
  destruct (omp_scamax_checks 301 302 (Some 2) (fun _ => PlasmaSuccess)
              (fun _ _ _ _ _ => submit_one) 301 A22 900 50 7%nat fresh)
    as (_ & Hgo & _).
  destruct (omp_scamax_checks 301 302 (Some 2) (fun _ => PlasmaSuccess)
              (fun _ _ _ _ _ => submit_one) 300 A22 900 50 7%nat fresh)
    as (_ & _ & Hbad).
  split; [|split].
  - apply Hquick; [exact Hvalid|discriminate|discriminate|left; reflexivity].
  - apply Hgo; [exact Hvalid|reflexivity|reflexivity].
  - destruct Hbad as (s' & E & Hq & Hr & _).
    { intros (_ & [H|H] & _); discriminate H. }
    exists s'. split; [exact E|]. split; [exact Hq|exact Hr].
Defined.

Lemma scamax_fail_fast_witness :
  sample_plasma_scamax (fun _ => Some 900) 301 0 3 0 1 50
  = Some (PlasmaSuccess, []).
Proof.
  destruct (scamax_fail_fast 301 302 (-104) 3 (Some 2) (fun _ => PlasmaSuccess)
              created (fun _ => Some 900) (fun _ _ _ _ => submit_one)
              (fun _ _ _ _ _ => submit_one) async 301 0 3 0 1 50)
    as (r & log & E & _ & Hquick).
  destruct Hquick as [-> ->].
  - eexists; reflexivity.
  - left; reflexivity.
  - discriminate.
  - left. split; [reflexivity|discriminate].
  - exact E.
Defined.

Lemma scamax_out_of_memory_witness :
  sample_plasma_scamax (fun _ => None) 301 4 3 0 4 50
  = Some (-104, [Scamax.desc_general_create 3 2 2 4 3 0 0 4 3;
                 Scamax.malloc_floats 6]).
Proof.
  assert (Hlda : imax 1 4 <= 4) by discriminate.
  exact (scamax_out_of_memory 301 302 (-104) 3 (Some 2) (fun _ => PlasmaSuccess)
           created (fun _ => None) (fun _ _ _ _ => submit_one)
           (fun _ _ _ _ _ => submit_one) async 301 4 3 0 4 50 2
           eq_refl (or_introl eq_refl) eq_refl eq_refl Hlda eq_refl eq_refl).
Defined.

Lemma scamax_reaches_parallel_witness :
  sample_plasma_scamax (fun _ => Some 900) 302 4 3 0 4 50
  = Some (0, [Scamax.desc_general_create 3 2 2 4 3 0 0 4 3;
              Scamax.malloc_floats 8;
              Scamax.parallel_region [tt; tt];
              Scamax.free 900;
              Scamax.desc_destroy (snd (created 3 2 2 4 3 0 0 4 3))]).
Proof.
  assert (Hlda : imax 1 4 <= 4) by discriminate.
  exact (scamax_reaches_parallel 301 302 (-104) 3 (Some 2)
           (fun _ => PlasmaSuccess) created (fun _ => Some 900)
           (fun _ _ _ _ => submit_one) (fun _ _ _ _ _ => submit_one) async
           302 4 3 0 4 50 2 900
           eq_refl (or_intror eq_refl) eq_refl eq_refl Hlda
           eq_refl eq_refl eq_refl eq_refl eq_refl).
Defined.

(** *** The minimum-norm solve *)

Lemma zgelqs_tile_async_checks_witness :
  let flushed : driver_state unit := {| async := failed; queue := [] |} in
  sample_PLASMA_zgelqs_Tile_Async A22 T24 A22 true (Some 7%nat) fresh
  = Some (submit_one (submit_one fresh)) /\
  sample_PLASMA_zgelqs_Tile_Async A22 T24 A22 true (Some 7%nat) flushed
  = Some (request_fail 7%nat (-104) flushed) /\
  sample_PLASMA_zgelqs_Tile_Async tall_tiles T24 A22 true (Some 7%nat) flushed
  = Some (request_fail 7%nat (-102) flushed).
Proof.
  intros flushed.
  assert (Hvalid : is_Some (Some 2) /\
            (fun _ : plasma_desc_t => 0) A22 = 0 /\
            (fun _ : plasma_desc_t => 0) T24 = 0 /\
            (fun _ : plasma_desc_t => 0) A22 = 0 /\
            D.nb A22 = D.mb A22 /\ D.nb A22 = D.mb A22).
  { split; [eexists; reflexivity|]. repeat split. }
  destruct (zgelqs_tile_async_checks 0 (-102) 131 1 (Some 2) (fun _ => 0)
              (fun A _ _ _ _ => A)
              (fun _ _ _ _ _ _ _ _ => submit_one) (fun _ _ _ _ _ _ => submit_one)
              (-104) A22 T24 A22 7%nat fresh) as (Hgo & _).
  destruct (zgelqs_tile_async_checks 0 (-102) 131 1 (Some 2) (fun _ => 0)
              (fun A _ _ _ _ => A)
              (fun _ _ _ _ _ _ _ _ => submit_one) (fun _ _ _ _ _ _ => submit_one)
              (-104) A22 T24 A22 7%nat flushed) as (_ & Hflushed & _).
  destruct (zgelqs_tile_async_checks 0 (-102) 131 1 (Some 2) (fun _ => 0)
              (fun A _ _ _ _ => A)
              (fun _ _ _ _ _ _ _ _ => submit_one) (fun _ _ _ _ _ _ => submit_one)
              (-104) tall_tiles T24 A22 7%nat flushed) as (_ & _ & Hillegal & _).
  assert (Hfailed : sequence_status (async flushed) <> 0) by discriminate.
  split; [exact (Hgo Hvalid eq_refl)|].
  split; [exact (Hflushed Hvalid Hfailed)|].
  apply Hillegal. intros (_ & _ & _ & _ & H & _). discriminate H.
Defined.

Lemma zgelqs_region_stops_witness :
  sample_zgelqs_region translation_fails 0 2 A22 T24 10 4 A22 0%nat fresh
  = Some (translation_fails fresh) /\
  sample_zgelqs_region submit_one 0 2 A22 T24 10 4 A22 0%nat fresh
  = Some (dispatch tt (dispatch tt (dispatch tt (dispatch tt (dispatch tt fresh))))).
Proof.
  destruct (zgelqs_region_stops 0 (-102) 131 1 (Some 2) (fun _ => 0)
              (fun A _ _ _ _ => A)
              (fun _ _ _ _ => translation_fails) (fun _ _ _ _ => submit_one)
              (fun _ _ _ _ _ _ _ _ => submit_one) (fun _ _ _ _ _ _ => submit_one)
              (-104) 0 2 A22 T24 10 4 A22 0%nat fresh) as (_ & Hfirst & _).
  destruct (zgelqs_region_stops 0 (-102) 131 1 (Some 2) (fun _ => 0)
              (fun A _ _ _ _ => A)
              (fun _ _ _ _ => submit_one) (fun _ _ _ _ => submit_one)
              (fun _ _ _ _ _ _ _ _ => submit_one) (fun _ _ _ _ _ _ => submit_one)
              (-104) 0 2 A22 T24 10 4 A22 0%nat fresh) as (_ & _ & _ & Hall).
  assert (Hfailed : sequence_status (async (translation_fails fresh)) <> 0)
    by discriminate.
  split; [exact (Hfirst Hfailed)|].
  destruct (Hall eq_refl eq_refl (submit_one (submit_one (submit_one (submit_one fresh))))
              eq_refl) as (_ & Hback).
  exact (Hback eq_refl).
Defined.

Lemma zgelqs_fail_fast_witness :
  sample_PLASMA_zgelqs submit_one 0 4 3 0 1 T24 10 4 = Some (0, []) /\
  sample_PLASMA_zgelqs_in None (Some tt) submit_one 2 4 3 0 2 T24 10 4
  = Some (-101, []) /\
  sample_PLASMA_zgelqs_in None None submit_one 2 4 3 0 2 T24 10 4 = None.
Proof.
  split; [|split].
  - destruct (zgelqs_fail_fast 0 (-101) (-102) 131 1 (Some 2) (Some tt)
                (fun _ => 0)
                sample_desc_init (fun _ => 0) (fun A _ _ _ _ => A) 0
                (fun _ _ _ _ => submit_one) (fun _ _ _ _ => submit_one)
                (fun _ _ _ _ _ _ _ _ => submit_one)
                (fun _ _ _ _ _ _ => submit_one)
                async (-104) 0 4 3 0 1 T24 10 4)
      as (Hinit & _ & _).
    destruct Hinit as (r & log & E & _ & Hquick); [eexists; reflexivity|].
    destruct Hquick as [-> ->].
    + split; discriminate.
    + discriminate.
    + discriminate.
    + discriminate.
    + left; reflexivity.
    + exact E.
  - destruct (zgelqs_fail_fast 0 (-101) (-102) 131 1 None (Some tt)
                (fun _ => 0)
                sample_desc_init (fun _ => 0) (fun A _ _ _ _ => A) 0
                (fun _ _ _ _ => submit_one) (fun _ _ _ _ => submit_one)
                (fun _ _ _ _ _ _ _ _ => submit_one)
                (fun _ _ _ _ _ _ => submit_one)
                async (-104) 2 4 3 0 2 T24 10 4)
      as (_ & Hreturns & _).
    apply Hreturns; [reflexivity|eexists; reflexivity].
  - destruct (zgelqs_fail_fast 0 (-101) (-102) 131 1 None None
                (fun _ => 0)
                sample_desc_init (fun _ => 0) (fun A _ _ _ _ => A) 0
                (fun _ _ _ _ => submit_one) (fun _ _ _ _ => submit_one)
                (fun _ _ _ _ _ _ _ _ => submit_one)
                (fun _ _ _ _ _ _ => submit_one)
                async (-104) 2 4 3 0 2 T24 10 4)
      as (_ & _ & Hends).
    apply Hends; reflexivity.
Defined.

Lemma zgelqs_full_run_witness :
  sample_PLASMA_zgelqs submit_one 2 4 3 0 2 T24 10 4
  = Some (0,
          [ Zgelqs.desc_mat_alloc (sample_desc_init 4 2 2 4 2 4 0 0 2 4);
            Zgelqs.desc_mat_alloc (sample_desc_init 4 2 2 4 4 3 0 0 4 3);
            Zgelqs.sequence_create;
            Zgelqs.parallel_region [tt; tt; tt; tt; tt];
            Zgelqs.desc_mat_free (sample_desc_init 4 2 2 4 2 4 0 0 2 4);
            Zgelqs.desc_mat_free (sample_desc_init 4 2 2 4 4 3 0 0 4 3);
            Zgelqs.sequence_destroy ]).
Proof.
  assert (Hm : 0 < 2 <= 4) by lia.
  assert (Hlda : imax 1 2 <= 2) by discriminate.
  assert (Hldb : imax 1 4 <= 4) by discriminate.
  exact (zgelqs_full_run 0 (-101) (-102) 131 1 (Some 2) (Some tt)
           (fun _ => 0)
           sample_desc_init (fun _ => 0) (fun A _ _ _ _ => A) 0
           (fun _ _ _ _ => submit_one) (fun _ _ _ _ => submit_one)
           (fun _ _ _ _ _ _ _ _ => submit_one) (fun _ _ _ _ _ _ => submit_one)
           async (-104) 2 4 3 0 2 2 T24 10 4
           eq_refl Hm eq_refl Hlda Hldb eq_refl eq_refl eq_refl eq_refl eq_refl
           eq_refl eq_refl eq_refl eq_refl eq_refl eq_refl).
Defined.

(** *** The band storage of a tridiagonal 3-by-3 matrix *)



(** *** The symmetric 3-by-3 matrix *)

Lemma make_symmetric_mirrors_witness :
  exists A', TestSymmetric.make_symmetric (fun v => v + 3) 3 3 numbered
             = Some A' /\
    A' !! 3%nat = Some 2 /\ A' !! 1%nat = Some 2 /\ A' !! 0%nat = Some 4.
Proof.
  assert (Hn : 0 <= 3 <= 3) by lia.
  destruct (make_symmetric_mirrors (fun v => v + 3) 3 3 numbered Hn eq_refl)
    as (A' & E & _ & Hmirror & Hdiag & _).
  assert (H0 : 0 <= 0 < 1) by lia.
  assert (Hi : 0 <= 0 < 3) by lia.
  destruct (Hmirror 1 0 H0 eq_refl) as [Hupper Hlower].
  exists A'. split; [exact E|]. split; [exact Hupper|].
  split; [exact Hlower|exact (Hdiag 0 Hi)].
Defined.


End MoreSamples.
